(** * pyphoxi: the PhoXi frame-protocol client, embedded and verified

    The development follows [src/pyphoxi/phoxi.py]:
    - [IEEE754]: the floating-point arithmetic NumPy applies to the
      grayscale and depth planes (binary32) and to the factory intrinsics
      (binary64), exactly rounded, round-to-nearest-even;
    - [Py]: the fragments of Python and NumPy the class relies on
      (exceptions, slices, [np.frombuffer], integer scalars, [reshape]);
    - [PhoXi]: the sensor object, its socket life cycle, packet acquisition
      and packet decoding;
    - [Calib]: the calibration store. *)

From Stdlib Require Import ZArith Lia Bool List.
From Stdlib Require Import Floats.SpecFloat.
From stdpp Require Import base option list strings gmap.

Local Open Scope Z_scope.

(** ** IEEE 754 binary floating point *)

Module IEEE754.

(** A floating-point datum.  A finite value is kept as its sign and its
    magnitude counted in units of the smallest subnormal of its format
    ([2^-149] for binary32, [2^-1074] for binary64): every finite number
    of a binary format is an integer multiple of that unit. *)
Inductive fp : Type :=
  | NaN
  | Inf (neg : bool)
  | Fin (neg : bool) (k : Z).

Definition signed (s : bool) (k : Z) : Z := if s then - k else k.

(** Nearest integer to [p / q], ties to even ([0 <= p], [0 < q]). *)
Definition rne_div (p q : Z) : Z :=
  let d := p / q in
  match 2 * (p mod q) ?= q with
  | Lt => d
  | Gt => d + 1
  | Eq => if Z.even d then d else d + 1
  end.

Section Format.
(** [prec] significand bits (the implicit one included); infinities have
    exponent [emax].  binary32 is [(24, 128)], binary64 [(53, 1024)]. *)
Variables prec emax : Z.

(** The unit is [2^-unit_exp]. *)
Definition unit_exp : Z := emax + prec - 3.
(** The first magnitude the format cannot hold, [2^emax], in units. *)
Definition overflow_threshold : Z := 2 ^ (emax + unit_exp).

(** Exponent (in units) of the last place of a magnitude: [prec]
    significant bits; the subnormal range has exponent 0. *)
Definition ulp_exp (k : Z) : Z := Z.max 0 (Z.log2 k - (prec - 1)).

Definition representable (k : Z) : bool :=
  (0 <=? k) && (k <? overflow_threshold) && (k mod 2 ^ ulp_exp k =? 0).

Definition valid (x : fp) : bool :=
  match x with
  | Fin _ k => representable k
  | _ => true
  end.

(** Magnitude of the number nearest to [p / q] units, the exponent range
    taken unbounded above. *)
Definition round_mag (p q : Z) : Z :=
  let j := ulp_exp (p / q) in
  rne_div p (q * 2 ^ j) * 2 ^ j.

(** Rounding of the exact result [(-1)^s * p / q] units. *)
Definition round (s : bool) (p q : Z) : fp :=
  let k := round_mag p q in
  if k <? overflow_threshold then Fin s k else Inf s.

Definition fp_sub (x y : fp) : fp :=
  match x, y with
  | NaN, _ | _, NaN => NaN
  | Inf sx, Inf sy => if eqb sx sy then NaN else Inf sx
  | Inf sx, Fin _ _ => Inf sx
  | Fin _ _, Inf sy => Inf (negb sy)
  | Fin sx kx, Fin sy ky =>
      let z := signed sx kx - signed sy ky in
      if z =? 0 then Fin ((kx =? 0) && sx && negb sy) 0
      else round (z <? 0) (Z.abs z) 1
  end.

Definition fp_mul (x y : fp) : fp :=
  match x, y with
  | NaN, _ | _, NaN => NaN
  | Inf sx, Inf sy => Inf (xorb sx sy)
  | Inf sx, Fin sy ky => if ky =? 0 then NaN else Inf (xorb sx sy)
  | Fin sx kx, Inf sy => if kx =? 0 then NaN else Inf (xorb sx sy)
  | Fin sx kx, Fin sy ky =>
      if (kx =? 0) || (ky =? 0) then Fin (xorb sx sy) 0
      else round (xorb sx sy) (kx * ky) (2 ^ unit_exp)
  end.

Definition fp_div (x y : fp) : fp :=
  match x, y with
  | NaN, _ | _, NaN => NaN
  | Inf _, Inf _ => NaN
  | Inf sx, Fin sy _ => Inf (xorb sx sy)
  | Fin sx _, Inf sy => Fin (xorb sx sy) 0
  | Fin sx kx, Fin sy ky =>
      if ky =? 0 then (if kx =? 0 then NaN else Inf (xorb sx sy))
      else if kx =? 0 then Fin (xorb sx sy) 0
      else round (xorb sx sy) (kx * 2 ^ unit_exp) ky
  end.

(** The datum nearest to the rational [(-1)^s * p / q]. *)
Definition fp_of_ratio (s : bool) (p q : Z) : fp :=
  round s (p * 2 ^ unit_exp) q.

(** Position on the extended number line; the infinities sit at the
    overflow threshold, beyond every valid finite magnitude. *)
Definition ext (x : fp) : option Z :=
  match x with
  | NaN => None
  | Inf s => Some (signed s overflow_threshold)
  | Fin s k => Some (signed s k)
  end.

Definition fp_compare (x y : fp) : option comparison :=
  match ext x, ext y with
  | Some a, Some b => Some (a ?= b)
  | _, _ => None
  end.

Definition fp_ltb (x y : fp) : bool :=
  match fp_compare x y with Some Lt => true | _ => false end.
Definition fp_leb (x y : fp) : bool :=
  match fp_compare x y with Some (Lt | Eq) => true | _ => false end.
Definition fp_eqb (x y : fp) : bool :=
  match fp_compare x y with Some Eq => true | _ => false end.

(** The same datum in the Standard Library's representation. *)
Definition to_spec (x : fp) : spec_float :=
  match x with
  | NaN => S754_nan
  | Inf s => S754_infinity s
  | Fin s k =>
      match k / 2 ^ ulp_exp k with
      | Zpos m => S754_finite s m (ulp_exp k - unit_exp)
      | _ => S754_zero s
      end
  end.
End Format.

(** IEEE exceptions a division signals; NumPy reports them as
    [RuntimeWarning]s under its default error state and carries on. *)
Inductive fp_flag : Type := DivideByZero | InvalidOperation.

Definition fp_div_flag (x y : fp) : option fp_flag :=
  match x, y with
  | Inf _, Inf _ => Some InvalidOperation
  | Fin _ kx, Fin _ ky =>
      if ky =? 0 then Some (if kx =? 0 then InvalidOperation else DivideByZero)
      else None
  | _, _ => None
  end.

Definition is_nan (x : fp) : bool :=
  match x with NaN => true | _ => false end.
Definition is_finite (x : fp) : bool :=
  match x with Fin _ _ => true | _ => false end.
Definition is_zero (x : fp) : bool :=
  match x with Fin _ k => k =? 0 | _ => false end.

(** *** binary32 ([np.float32]) and binary64 (Python [float]) *)

Abbreviation f32_valid := (valid 24 128).
Abbreviation f32_sub := (fp_sub 24 128).
Abbreviation f32_mul := (fp_mul 24 128).
Abbreviation f32_div := (fp_div 24 128).
Abbreviation f32_ltb := (fp_ltb 24 128).
Abbreviation f32_leb := (fp_leb 24 128).
Abbreviation f32_eqb := (fp_eqb 24 128).
Abbreviation f32_ext := (ext 24 128).
Abbreviation f64_div := (fp_div 53 1024).
Abbreviation f64_eqb := (fp_eqb 53 1024).

(** The binary32 datum held by a 32-bit pattern. *)
Definition f32_of_bits (w : Z) : fp :=
  let s := Z.testbit w 31 in
  let e := Z.land (Z.shiftr w 23) 255 in
  let m := Z.land w (2 ^ 23 - 1) in
  if e =? 255 then (if m =? 0 then Inf s else NaN)
  else if e =? 0 then Fin s m
  else Fin s ((2 ^ 23 + m) * 2 ^ (e - 1)).

(** The bit pattern of a valid binary32 datum (the quiet NaN for [NaN]). *)
Definition bits_of_f32 (x : fp) : Z :=
  let sign (s : bool) := if s then 2 ^ 31 else 0 in
  match x with
  | NaN => 2143289344
  | Inf s => sign s + 255 * 2 ^ 23
  | Fin s k =>
      if k <? 2 ^ 23 then sign s + k
      else let j := ulp_exp 24 k in
           sign s + (j + 1) * 2 ^ 23 + (k / 2 ^ j - 2 ^ 23)
  end.

(** An integer as a binary32 or binary64 datum. *)
Definition f32_of_Z (n : Z) : fp := fp_of_ratio 24 128 (n <? 0) (Z.abs n) 1.
Definition f64_of_Z (n : Z) : fp := fp_of_ratio 53 1024 (n <? 0) (Z.abs n) 1.

(** Conversion of a binary64 datum to binary32, as NumPy does with a Python
    [float] operand of a [float32] array. *)
Definition f32_of_f64 (x : fp) : fp :=
  match x with
  | Fin s k => if k =? 0 then Fin s 0
               else round 24 128 s (k * 2 ^ unit_exp 24 128) (2 ^ unit_exp 53 1024)
  | _ => x
  end.

(** C conversion of a [float] to [unsigned char], which [astype("uint8")]
    performs: truncation toward zero when the truncated value fits, and no
    defined result otherwise. *)
Definition f32_to_uint8 (x : fp) : option Z :=
  match x with
  | Fin s k =>
      let t := k / 2 ^ unit_exp 24 128 in
      if s then (if t =? 0 then Some 0 else None)
      else if t <=? 255 then Some t else None
  | _ => None
  end.

End IEEE754.

(** ** Python and NumPy fragments *)

Module Py.

Abbreviation byte := Byte.byte.
Abbreviation bytes := (list Byte.byte).

(** *** Exceptions *)

Inductive exn_class : Type :=
  | BaseException | KeyboardInterrupt | Exception
  | OSError | ConnectionError | ConnectionRefusedError | ConnectionResetError
  | SocketTimeout | SocketGaierror | FileNotFoundError
  | ValueError | JSONDecodeError
  | LookupError | KeyError | IndexError
  | TypeError | AttributeError.

(** Direct base class, as in Python 3's built-in hierarchy. *)
Definition base_class (c : exn_class) : option exn_class :=
  match c with
  | BaseException => None
  | KeyboardInterrupt => Some BaseException
  | Exception => Some BaseException
  | OSError => Some Exception
  | ConnectionError => Some OSError
  | ConnectionRefusedError => Some ConnectionError
  | ConnectionResetError => Some ConnectionError
  | SocketTimeout => Some OSError
  | SocketGaierror => Some OSError
  | FileNotFoundError => Some OSError
  | ValueError => Some Exception
  | JSONDecodeError => Some ValueError
  | LookupError => Some Exception
  | KeyError => Some LookupError
  | IndexError => Some LookupError
  | TypeError => Some Exception
  | AttributeError => Some Exception
  end.

Global Instance exn_class_eq_dec : EqDecision exn_class.
Proof. solve_decision. Defined.

Fixpoint is_subclass_fuel (n : nat) (c d : exn_class) : bool :=
  bool_decide (c = d) ||
  match n, base_class c with
  | S n', Some b => is_subclass_fuel n' b d
  | _, _ => false
  end.

(** [issubclass(c, d)]; the hierarchy is four levels deep. *)
Definition is_subclass : exn_class → exn_class → bool := is_subclass_fuel 4.

(** A raised exception: its class and, when the program supplies one, the
    message it was built with. *)
Record exn : Type := mk_exn { exn_cls : exn_class; exn_msg : option string }.

Definition isinstance (e : exn) (c : exn_class) : bool := is_subclass (exn_cls e) c.

(** What a call does: return, raise, or never come back. *)
Inductive outcome (A : Type) : Type :=
  | Returns (a : A)
  | Raises (e : exn)
  | Hangs.
Global Arguments Returns {A} a.
Global Arguments Raises {A} e.
Global Arguments Hangs {A}.

(** *** Byte strings *)

Definition len {A} (l : list A) : Z := Z.of_nat (length l).

(** A slice bound: negative bounds count from the end, all bounds clip. *)
Definition clip_index (n size : Z) : Z :=
  if n <? 0 then Z.max 0 (n + size) else Z.min n size.

(** [l[lo:hi]]. *)
Definition slice {A} (lo hi : Z) (l : list A) : list A :=
  let a := clip_index lo (len l) in
  let b := clip_index hi (len l) in
  take (Z.to_nat (b - a)) (drop (Z.to_nat a) l).

(** [l[:hi]] and [l[lo:]]. *)
Definition slice_to {A} (hi : Z) (l : list A) : list A := slice 0 hi l.
Definition slice_from {A} (lo : Z) (l : list A) : list A := slice lo (len l) l.

Definition byte_val (b : byte) : Z := Z.of_N (Byte.to_N b).

(** Four bytes, least significant first, as an unsigned 32-bit word. *)
Definition le32 (b0 b1 b2 b3 : byte) : Z :=
  byte_val b0 + 2 ^ 8 * byte_val b1 + 2 ^ 16 * byte_val b2 + 2 ^ 24 * byte_val b3.

(** The 4-byte items of a buffer; [None] when its size is not a multiple of
    the item size. *)
Fixpoint words_le (buf : bytes) : option (list Z) :=
  match buf with
  | [] => Some []
  | b0 :: b1 :: b2 :: b3 :: rest => cons (le32 b0 b1 b2 b3) <$> words_le rest
  | _ => None
  end.

(** Two's-complement reading of a [w]-bit pattern, and wrap-around to it. *)
Definition to_signed (w : Z) (u : Z) : Z :=
  let m := u mod 2 ^ w in
  if m <? 2 ^ (w - 1) then m else m - 2 ^ w.

(** [np.frombuffer(buf, dtype)] for the two 4-byte dtypes in use. *)
Definition frombuffer {A} (decode : Z → A) (buf : bytes) : outcome (list A) :=
  match words_le buf with
  | Some ws => Returns (decode <$> ws)
  | None => Raises (mk_exn ValueError None)
  end.

Definition frombuffer_int32 : bytes → outcome (list Z) := frombuffer (to_signed 32).
Definition frombuffer_float32 : bytes → outcome (list IEEE754.fp) :=
  frombuffer IEEE754.f32_of_bits.

(** The little-endian bytes of a 32-bit word (what the server writes). *)
Definition byte_of_Z (z : Z) : byte :=
  default Byte.x00 (Byte.of_N (Z.to_N (z mod 256))).
Definition le32_bytes (w : Z) : bytes :=
  [byte_of_Z w; byte_of_Z (w / 2 ^ 8); byte_of_Z (w / 2 ^ 16); byte_of_Z (w / 2 ^ 24)].

(** *** Integers: Python [int] and NumPy fixed-width scalars *)

Inductive int_dtype : Type := int32 | int64.

Definition dtype_bits (d : int_dtype) : Z :=
  match d with int32 => 32 | int64 => 64 end.

Definition promote (d1 d2 : int_dtype) : int_dtype :=
  match d1, d2 with int32, int32 => int32 | _, _ => int64 end.

Inductive number : Type :=
  | PyInt (v : Z)
  | NpInt (d : int_dtype) (v : Z).

Definition int_val (n : number) : Z :=
  match n with PyInt v => v | NpInt _ v => v end.

(** How a NumPy scalar combines with a Python [int]: NumPy 1.x converts
    the Python operand to the default integer ([int64]) and promotes;
    NumPy 2 (NEP 50) keeps the dtype of the NumPy operand. *)
Inductive promotion : Type := Legacy | Nep50.

Definition mixed_dtype (mode : promotion) (d : int_dtype) : int_dtype :=
  match mode with Legacy => promote d int64 | Nep50 => d end.

(** A binary integer operator; fixed-width results wrap around. *)
Definition arith (mode : promotion) (op : Z → Z → Z) (x y : number) : number :=
  match x, y with
  | PyInt a, PyInt b => PyInt (op a b)
  | NpInt d a, NpInt d' b =>
      let r := promote d d' in NpInt r (to_signed (dtype_bits r) (op a b))
  | NpInt d a, PyInt b | PyInt a, NpInt d b =>
      let r := mixed_dtype mode d in NpInt r (to_signed (dtype_bits r) (op a b))
  end.

(** *** Two-dimensional arrays *)

Record ndarray (A : Type) : Type :=
  mk_ndarray { shape : Z * Z; flat : list A }.
Global Arguments mk_ndarray {A} shape flat.
Global Arguments shape {A} _.
Global Arguments flat {A} _.

(** [a.reshape(h, w)] of a one-dimensional array: one dimension may be
    [-1] and is then inferred; the sizes must agree. *)
Definition reshape {A} (h w : Z) (a : list A) : outcome (ndarray A) :=
  let n := len a in
  let bad := Raises (mk_exn ValueError None) in
  if (0 <=? h) && (0 <=? w) then
    if h * w =? n then Returns (mk_ndarray (h, w) a) else bad
  else if (h =? -1) && (0 <? w) then
    if n mod w =? 0 then Returns (mk_ndarray (n / w, w) a) else bad
  else if (w =? -1) && (0 <? h) then
    if n mod h =? 0 then Returns (mk_ndarray (h, n / h) a) else bad
  else bad.

(** Element [(i, j)], row-major. *)
Definition at2 {A} (a : ndarray A) (i j : Z) : option A :=
  if (0 <=? i) && (i <? fst (shape a)) && (0 <=? j) && (j <? snd (shape a))
  then flat a !! Z.to_nat (i * snd (shape a) + j)
  else None.

Definition map_array {A B} (f : A → B) (a : ndarray A) : ndarray B :=
  mk_ndarray (shape a) (f <$> flat a).

(** The rows of an array, for display. *)
Fixpoint rows_fuel {A} (n : nat) (w : nat) (l : list A) : list (list A) :=
  match n with
  | O => []
  | S n' => take w l :: rows_fuel n' w (drop w l)
  end.
Definition rows {A} (a : ndarray A) : list (list A) :=
  rows_fuel (Z.to_nat (fst (shape a))) (Z.to_nat (snd (shape a))) (flat a).

(** *** Reductions over binary32 data *)

(** [np.minimum] and [np.maximum] of two items: a NaN wins. *)
Definition fmin (acc x : IEEE754.fp) : IEEE754.fp :=
  if IEEE754.is_nan acc then acc
  else if IEEE754.f32_ltb acc x then acc else x.
Definition fmax (acc x : IEEE754.fp) : IEEE754.fp :=
  if IEEE754.is_nan acc then acc
  else if IEEE754.f32_ltb x acc then acc else x.

(** [a.min()] and [a.max()]; an empty array has neither. *)
Definition array_min (l : list IEEE754.fp) : outcome IEEE754.fp :=
  match l with
  | [] => Raises (mk_exn ValueError None)
  | x :: l' => Returns (foldl fmin x l')
  end.
Definition array_max (l : list IEEE754.fp) : outcome IEEE754.fp :=
  match l with
  | [] => Raises (mk_exn ValueError None)
  | x :: l' => Returns (foldl fmax x l')
  end.

End Py.

(** ** The sensor object and its world *)

Module PhoXi.
Import IEEE754 Py.

(** *** Calibration data *)

(** What [json.load] returns. *)
#[warnings="-register-all"]
Inductive json : Type :=
  | JNull
  | JBool (b : bool)
  | JInt (z : Z)
  | JFloat (x : fp)
  | JStr (s : string)
  | JArr (items : list json)
  | JObj (fields : gmap string json).

(** A calibration array: binary64 data read from the factory file, or the
    array [np.array] builds from parsed calibration values (kept as given;
    the dtype NumPy infers for them is not modelled). *)
Inductive array : Type :=
  | Vector (items : list fp)
  | Matrix (rows : list (list fp))
  | ArrayOf (obj : json).

(** *** The socket and the network *)

Inductive sock_status : Type := SockNew | SockConnected | SockClosed.

Record socket : Type :=
  mk_socket { status : sock_status; timeout : option Z }.

(** What the server side does next, as seen by successive [recv] calls:
    bytes arrive, nothing arrives for longer than any pending timeout, or
    the connection fails. *)
Inductive net_event : Type :=
  | Data (chunk : bytes)
  | Silence
  | Fault (e : exn).

Inductive effect : Type :=
  | EConnect (ip : string) (port : Z)
  | ESend (payload : bytes)
  | ESleep (seconds : Z)
  | EClose
  | EWarning (msg : string)
  | EPrint (msg : string).

Record world : Type := mk_world {
  net : list net_event;           (* what the server will deliver *)
  connect_fault : option exn;     (* why [connect] fails, if it does *)
  files : gmap string string;     (* the file system: path to content *)
  numpy : promotion;              (* the installed NumPy's scalar promotion *)
  trace : list effect             (* effects performed so far, latest first *)
}.

(** *** The object *)

Record geometry : Type := mk_geometry {
  _height : number;
  _width : number;
  _num_pixels : number;
  _header_size : number;
  _payload_size : number
}.

Record sensor : Type := mk_sensor {
  _is_start : bool;
  resolution : string;
  calib_file : option string;
  _tcp_ip : string;
  _tcp_port : Z;
  _buffer_size : Z;
  _packet_size : number;
  _tcp_socket : socket;
  _geometry : option geometry;    (* unset until [_setup] has run *)
  _intr : option array;
  _dist : option array;
  _extr : option array
}.

Definition set_is_start (b : bool) (s : sensor) : sensor :=
  mk_sensor b (resolution s) (calib_file s) (_tcp_ip s) (_tcp_port s)
    (_buffer_size s) (_packet_size s) (_tcp_socket s) (_geometry s)
    (_intr s) (_dist s) (_extr s).
Definition set_socket (k : socket) (s : sensor) : sensor :=
  mk_sensor (_is_start s) (resolution s) (calib_file s) (_tcp_ip s) (_tcp_port s)
    (_buffer_size s) (_packet_size s) k (_geometry s)
    (_intr s) (_dist s) (_extr s).
Definition set_geometry (g : geometry) (ps : number) (s : sensor) : sensor :=
  mk_sensor (_is_start s) (resolution s) (calib_file s) (_tcp_ip s) (_tcp_port s)
    (_buffer_size s) ps (_tcp_socket s) (Some g)
    (_intr s) (_dist s) (_extr s).
Definition set_intr (a : array) (s : sensor) : sensor :=
  mk_sensor (_is_start s) (resolution s) (calib_file s) (_tcp_ip s) (_tcp_port s)
    (_buffer_size s) (_packet_size s) (_tcp_socket s) (_geometry s)
    (Some a) (_dist s) (_extr s).
Definition set_dist (a : array) (s : sensor) : sensor :=
  mk_sensor (_is_start s) (resolution s) (calib_file s) (_tcp_ip s) (_tcp_port s)
    (_buffer_size s) (_packet_size s) (_tcp_socket s) (_geometry s)
    (_intr s) (Some a) (_extr s).
Definition set_extr (a : array) (s : sensor) : sensor :=
  mk_sensor (_is_start s) (resolution s) (calib_file s) (_tcp_ip s) (_tcp_port s)
    (_buffer_size s) (_packet_size s) (_tcp_socket s) (_geometry s)
    (_intr s) (_dist s) (Some a).

Definition set_net (q : list net_event) (w : world) : world :=
  mk_world q (connect_fault w) (files w) (numpy w) (trace w).
Definition log_effect (e : effect) (w : world) : world :=
  mk_world (net w) (connect_fault w) (files w) (numpy w) (e :: trace w).

(** *** Methods run on the object and the world *)

Record state : Type := mk_state { self : sensor; env : world }.

Definition M (A : Type) : Type := state → outcome A * state.

Definition ret {A} (a : A) : M A := λ σ, (Returns a, σ).
Definition bind {A B} (m : M A) (k : A → M B) : M B :=
  λ σ, match m σ with
       | (Returns a, σ') => k a σ'
       | (Raises e, σ') => (Raises e, σ')
       | (Hangs, σ') => (Hangs, σ')
       end.
Definition raise {A} (e : exn) : M A := λ σ, (Raises e, σ).
Definition lift {A} (o : outcome A) : M A := λ σ, (o, σ).

Global Instance M_ret : MRet M := @ret.
Global Instance M_bind : MBind M := λ A B k m, bind m k.

(** [try: body / except cls: handler]. *)
Definition try_except {A} (cls : exn_class) (body : M A) (handler : M A) : M A :=
  λ σ, match body σ with
       | (Raises e, σ') => if isinstance e cls then handler σ' else (Raises e, σ')
       | r => r
       end.

Definition get_self : M sensor := λ σ, (Returns (self σ), σ).
Definition get_env : M world := λ σ, (Returns (env σ), σ).
Definition update_self (f : sensor → sensor) : M unit :=
  λ σ, (Returns (), mk_state (f (self σ)) (env σ)).
Definition update_env (f : world → world) : M unit :=
  λ σ, (Returns (), mk_state (self σ) (f (env σ))).
Definition perform (e : effect) : M unit := update_env (log_effect e).

(** **** [socket] methods *)

Definition sock_connect (ip : string) (port : Z) : M unit :=
  s ← get_self; w ← get_env;
  match status (_tcp_socket s), connect_fault w with
  | SockNew, None =>
      update_self (set_socket (mk_socket SockConnected (timeout (_tcp_socket s))));;
      perform (EConnect ip port)
  | SockNew, Some e => raise e
  | _, _ => raise (mk_exn OSError None)
  end.

Definition sock_settimeout (t : option Z) : M unit :=
  s ← get_self;
  update_self (set_socket (mk_socket (status (_tcp_socket s)) t)).

Definition sock_send (payload : bytes) : M unit :=
  s ← get_self;
  match status (_tcp_socket s) with
  | SockConnected => perform (ESend payload)
  | _ => raise (mk_exn OSError None)
  end.

Definition sock_close : M unit :=
  s ← get_self;
  update_self (set_socket (mk_socket SockClosed (timeout (_tcp_socket s))));;
  perform EClose.

(** What one [recv(bufsize)] finds in the queue of network events: at most
    [bufsize] bytes of the next chunk, the rest staying queued.  With a
    timeout set, silence raises [socket.timeout]; without, [recv] waits. *)
Fixpoint recv_queue (bufsize : Z) (t : option Z) (q : list net_event)
  : outcome bytes * list net_event :=
  match q with
  | [] => (match t with
           | Some _ => Raises (mk_exn SocketTimeout None)
           | None => Hangs
           end, [])
  | Data chunk :: q' =>
      if len chunk <=? bufsize then (Returns chunk, q')
      else (Returns (take (Z.to_nat bufsize) chunk),
            Data (drop (Z.to_nat bufsize) chunk) :: q')
  | Silence :: q' =>
      match t with
      | Some _ => (Raises (mk_exn SocketTimeout None), q')
      | None => recv_queue bufsize t q'
      end
  | Fault e :: q' => (Raises e, q')
  end.

Definition sock_recv (bufsize : Z) : M bytes :=
  λ σ, match status (_tcp_socket (self σ)) with
       | SockConnected =>
           let '(r, q) := recv_queue bufsize (timeout (_tcp_socket (self σ)))
                            (net (env σ)) in
           (r, mk_state (self σ) (set_net q (env σ)))
       | _ => (Raises (mk_exn OSError None), σ)
       end.

(** **** [PhoXiSensor._get_packet] *)

(** The [while len(data) < self._packet_size] loop.  [fuel] bounds the
    number of iterations; running out of it means the loop never ends. *)
Fixpoint accumulate (fuel : nat) (data : bytes) : M bytes :=
  match fuel with
  | O => lift Hangs
  | S fuel' =>
      s ← get_self;
      if len data <? int_val (_packet_size s) then
        received ← try_except SocketTimeout
                     (chunk ← sock_recv (_buffer_size s); ret (Some chunk))
                     (ret None);
        match received with
        | Some chunk => accumulate fuel' (data ++ chunk)
        | None => ret data                      (* break *)
        end
      else ret data
  end.

(** A bound on the [recv] calls the queue can serve: each one consumes an
    event or shortens its chunk. *)
Fixpoint recv_budget (q : list net_event) : nat :=
  match q with
  | [] => 1
  | Data chunk :: q' => S (length chunk + recv_budget q')
  | _ :: q' => S (recv_budget q')
  end.

Definition ping : bytes := [Byte.x62; Byte.x6c; Byte.x61; Byte.x68].  (* b'blah' *)

Definition _get_packet : M bytes :=
  sock_send ping;;
  w ← get_env;
  data ← accumulate (S (recv_budget (net w))) [];
  s ← get_self;
  ret (slice_to (int_val (_packet_size s)) data).

(** **** [PhoXiSensor._setup] *)

(** The attributes [_setup] derives from the two [int32] items of the
    header, and the packet size that goes with them. *)
Definition geometry_of (mode : promotion) (h w : Z) : geometry :=
  let height := NpInt int32 h in
  let width := NpInt int32 w in
  let num_pixels := arith mode Z.mul height width in
  let header_size := PyInt (3 * 4) in
  let payload_size :=
    arith mode Z.mul (arith mode Z.mul num_pixels (PyInt 2)) (PyInt 4) in
  mk_geometry height width num_pixels header_size payload_size.

Definition packet_size_of (mode : promotion) (g : geometry) : number :=
  arith mode Z.add (_header_size g) (_payload_size g).

Definition _setup : M unit :=
  sock_settimeout (Some 1);;
  packet ← _get_packet;
  data ← lift (frombuffer_int32 (slice_to 8 packet));
  match data with
  | [h; w] =>
      e ← get_env;
      let g := geometry_of (numpy e) h w in
      update_self (set_geometry g (packet_size_of (numpy e) g));;
      sock_settimeout None
  | _ => raise (mk_exn ValueError None)
  end.

(** **** [PhoXiSensor.start] and [PhoXiSensor.stop] *)

Definition could_not_connect : string :=
  "[!] Could not connect to the server. Make sure the C++ file is running.".

Definition start : M unit :=
  try_except BaseException
    (s ← get_self;
     sock_connect (_tcp_ip s) (_tcp_port s);;
     _setup;;
     perform (ESleep 1);;
     update_self (set_is_start true))
    (raise (mk_exn OSError (Some could_not_connect))).

Definition stop : M bool :=
  s ← get_self;
  if negb (_is_start s) then
    perform (EWarning "[!] Sensor is not on.");;
    ret false
  else
    sock_close;;
    update_self (set_is_start false);;
    ret true.

(** **** [PhoXiSensor._process_packet] *)

Record frame : Type := mk_frame {
  frame_id : Z;
  gray_img : ndarray (option Z);  (* uint8 pixels; [None]: no defined value *)
  depth_img : ndarray fp          (* binary32, metres *)
}.

(** The Python [float] literals [1e-3] and [255.]. *)
Definition py_1e_3 : fp := fp_of_ratio 53 1024 false 1 1000.
Definition py_255 : fp := f64_of_Z 255.

(** [(gray - gray.min()) / (gray.max() - gray.min())], then
    [(gray * 255.).astype("uint8")], over the items of the plane. *)
Definition normalize (gray : list fp) : outcome (list (option Z)) :=
  match array_min gray, array_max gray with
  | Returns lo, Returns hi =>
      let shifted := (λ x, f32_sub x lo) <$> gray in
      let span := f32_sub hi lo in
      let unit := (λ x, f32_div x span) <$> shifted in
      Returns ((λ x, f32_to_uint8 (f32_mul x (f32_of_f64 py_255))) <$> unit)
  | Raises e, _ | _, Raises e => Raises e
  | _, _ => Hangs
  end.

Definition attribute_error {A} : M A := raise (mk_exn AttributeError None).

Definition _process_packet (packet : bytes) : M frame :=
  s ← get_self;
  e ← get_env;
  let mode := numpy e in
  match _geometry s with
  | None => attribute_error
  | Some g =>
      let header_size := _header_size g in
      let plane_bytes := arith mode Z.mul (_num_pixels g) (PyInt 4) in
      ids ← lift (frombuffer_int32 (slice 8 (int_val header_size) packet));
      match ids with
      | [] => raise (mk_exn IndexError None)
      | id :: _ =>
          gray ← lift (frombuffer_float32
                   (slice (int_val header_size)
                          (int_val (arith mode Z.add header_size plane_bytes))
                          packet));
          depth ← lift (frombuffer_float32
                    (slice_from (int_val (arith mode Z.add plane_bytes header_size))
                                packet));
          (* reshape *)
          gray ← lift (reshape (int_val (_height g)) (int_val (_width g)) gray);
          depth ← lift (reshape (int_val (_height g)) (int_val (_width g)) depth);
          (* convert depth to meters *)
          let depth := map_array (λ x, f32_mul x (f32_of_f64 py_1e_3)) depth in
          (* convert 32-bit intensity to 8-bit grayscale *)
          gray8 ← lift (normalize (flat gray));
          ret (mk_frame id (mk_ndarray (shape gray) gray8) depth)
      end
  end.

(** [PhoXiSensor.get_frame(undistort=False)]. *)
Definition get_frame : M frame :=
  packet ← _get_packet;
  _process_packet packet.

(** **** The context manager *)

(** [__enter__] starts the sensor (and hands back the object itself);
    [__exit__] stops it and returns [None], so it suppresses nothing. *)
Definition __enter__ : M unit := start.
Definition __exit__ : M unit := stop;; ret ().

(** [with sensor: body]: [__exit__] runs however the body ends, and an
    exception of the body is re-raised after it. *)
Definition run_body {A} (body : M A) : M A :=
  λ σ, match body σ with
       | (Returns a, σ') => bind __exit__ (λ _, ret a) σ'
       | (Raises e, σ') => bind __exit__ (λ _, raise e) σ'
       | (Hangs, σ') => (Hangs, σ')
       end.
Definition with_block {A} (body : M A) : M A :=
  bind __enter__ (λ _, run_body body).

(** *** The calibration store *)

(** Services of the interpreter and its libraries that the calibration code
    calls and that are taken as given: [float] on a string, [json.load] on
    a file's content, whether [np.array] accepts a nested object, and the
    location of the packaged [intrinsic_parameters.txt]. *)
Record runtime : Type := mk_runtime {
  py_float : string → option fp;
  json_loads : string → option json;
  np_array_accepts : json → bool;
  factory_file : string
}.

Definition newline : Ascii.ascii := Ascii.ascii_of_nat 10.

(** [f.readlines()]: the lines, each with its terminator. *)
Fixpoint readlines (s : string) : list string :=
  match s with
  | EmptyString => []
  | String c rest =>
      if Ascii.eqb c newline then String c EmptyString :: readlines rest
      else match readlines rest with
           | [] => [String c EmptyString]
           | l :: ls => String c l :: ls
           end
  end.

(** [l.strip("\n")]. *)
Fixpoint lstrip_newlines (s : string) : string :=
  match s with
  | String c rest => if Ascii.eqb c newline then lstrip_newlines rest else s
  | EmptyString => EmptyString
  end.
Fixpoint rstrip_newlines (s : string) : string :=
  match s with
  | EmptyString => EmptyString
  | String c rest =>
      match rstrip_newlines rest with
      | EmptyString => if Ascii.eqb c newline then EmptyString
                       else String c EmptyString
      | rest' => String c rest'
      end
  end.
Definition strip_newlines (s : string) : string :=
  rstrip_newlines (lstrip_newlines s).

(** [open(path).read()]. *)
Definition read_file (path : string) : M string :=
  e ← get_env;
  match files e !! path with
  | Some content => ret content
  | None => raise (mk_exn FileNotFoundError None)
  end.

(** [obj[key]] and [obj[i]] on parsed JSON. *)
Definition getitem (obj : json) (key : string) : outcome json :=
  match obj with
  | JObj fields =>
      match fields !! key with
      | Some v => Returns v
      | None => Raises (mk_exn KeyError None)
      end
  | _ => Raises (mk_exn TypeError None)
  end.
Definition getindex (obj : json) (i : nat) : outcome json :=
  match obj with
  | JArr items =>
      match items !! i with
      | Some v => Returns v
      | None => Raises (mk_exn IndexError None)
      end
  | JStr s =>
      match String.get i s with
      | Some c => Returns (JStr (String c EmptyString))
      | None => Raises (mk_exn IndexError None)
      end
  | JObj _ => Raises (mk_exn KeyError None)
  | _ => Raises (mk_exn TypeError None)
  end.

Section Calibration.
Context (rt : runtime).

Definition np_array (obj : json) : M array :=
  if np_array_accepts rt obj then ret (ArrayOf obj)
  else raise (mk_exn ValueError None).

(** [float(lines[i])]. *)
Definition line_float (lines : list string) (i : nat) : M fp :=
  match lines !! i with
  | None => raise (mk_exn IndexError None)
  | Some l =>
      match py_float rt l with
      | Some x => ret x
      | None => raise (mk_exn ValueError None)
      end
  end.

(** [m /= d] and [m[i, j] = v] on a binary64 matrix. *)
Definition matrix_div (m : list (list fp)) (d : fp) : list (list fp) :=
  fmap (M := list) (fmap (M := list) (λ x, f64_div x d)) m.
Definition matrix_set (i j : nat) (v : fp) (m : list (list fp)) : list (list fp) :=
  alter (λ row : list fp, <[j := v]> row) i m.

Definition _get_factory_intrinsics_distortion : M (array * array) :=
  s ← get_self;
  content ← read_file (factory_file rt);
  let lines := strip_newlines <$> readlines content in
  fx ← line_float lines 2%nat;
  cx ← line_float lines 4%nat;
  fy ← line_float lines 2%nat;
  cy ← line_float lines 7%nat;
  let zero := f64_of_Z 0 in
  let one := f64_of_Z 1 in
  let intr := [[fx; zero; cx]; [zero; fy; cy]; [zero; zero; one]] in
  let intr :=
    if String.eqb (resolution s) "low" then
      matrix_set 2%nat 2%nat one (matrix_div intr (f64_of_Z 2))
    else intr in
  k1 ← line_float lines 15%nat;
  k2 ← line_float lines 16%nat;
  p1 ← line_float lines 17%nat;
  p2 ← line_float lines 18%nat;
  k3 ← line_float lines 19%nat;
  ret (Matrix intr, Vector [k1; k2; p1; p2; k3]).

Definition _set_default_params : M unit :=
  '(intr, dist) ← _get_factory_intrinsics_distortion;
  update_self (set_intr intr);;
  update_self (set_dist dist);;
  update_self (set_extr (Matrix [replicate 6%nat (f64_of_Z 0)])).

(** The body of the [try] in [_init_params]. *)
Definition load_calibration (path : string) : M unit :=
  content ← read_file path;
  params ← match json_loads rt content with
           | Some v => ret v
           | None => raise (mk_exn JSONDecodeError None)
           end;
  let item (key : string) (i : nat) : M json :=
    l ← lift (getitem params key); lift (getindex l i) in
  fx ← item "intrinsics" 0%nat;
  cx ← item "intrinsics" 2%nat;
  fy ← item "intrinsics" 1%nat;
  cy ← item "intrinsics" 3%nat;
  intr ← np_array (JArr [JArr [fx; JInt 0; cx];
                         JArr [JInt 0; fy; cy];
                         JArr [JInt 0; JInt 0; JInt 1]]);
  update_self (set_intr intr);;
  d ← lift (getitem params "distortion");
  dist ← np_array (JArr [d]);
  update_self (set_dist dist);;
  x ← lift (getitem params "extrinsics");
  extr ← np_array (JArr [x]);
  update_self (set_extr extr).

Definition _init_params : M unit :=
  s ← get_self;
  match calib_file s with
  | Some path =>
      try_except BaseException (load_calibration path) _set_default_params
  | None =>
      perform (EPrint "No calibration file provided. Using factory defaults.");;
      _set_default_params
  end.

(** [PhoXiSensor(tcp_ip, tcp_port, resolution, calib_file)]: the object
    before [_init_params] runs, then the constructor. *)
Definition new_sensor (tcp_ip : string) (tcp_port : Z) (resolution : string)
    (calib_file : option string) : sensor :=
  {| _is_start := false;
     resolution := resolution;
     calib_file := calib_file;
     _tcp_ip := tcp_ip;
     _tcp_port := tcp_port;
     _buffer_size := 4096;
     _packet_size := PyInt (26 * 1024 ^ 2);
     _tcp_socket := mk_socket SockNew None;
     _geometry := None;
     _intr := None; _dist := None; _extr := None |}.

Definition __init__ (tcp_ip : string) (tcp_port : Z) (resolution : string)
    (calib_file : option string) (w : world) : outcome sensor * world :=
  match _init_params (mk_state (new_sensor tcp_ip tcp_port resolution calib_file) w) with
  | (Returns _, σ) => (Returns (self σ), env σ)
  | (Raises e, σ) => (Raises e, env σ)
  | (Hangs, σ) => (Hangs, env σ)
  end.

(** The read-only properties. *)
Definition intrinsics (s : sensor) : option array := _intr s.
Definition distortion (s : sensor) : option array := _dist s.
Definition extrinsics (s : sensor) : option array := _extr s.
End Calibration.

End PhoXi.

(** ** Vocabulary of the statements *)

Module Spec.
Import IEEE754 Py PhoXi.

(** The state after the network queue has changed to [q]. *)
Definition with_net (q : list net_event) (σ : state) : state :=
  mk_state (self σ) (set_net q (env σ)).

Definition connected (σ : state) : Prop :=
  status (_tcp_socket (self σ)) = SockConnected.

(** The state once the trigger has been sent. *)
Definition pinged (σ : state) : state :=
  mk_state (self σ) (log_effect (ESend ping) (env σ)).

(** Number of [recv] calls a list of chunks can take to drain. *)
Definition chunk_budget (chunks : list bytes) : nat :=
  foldr (λ c n, S (length c + n)) 0%nat chunks.

(** One pixel through the normalization. *)
Definition normalize_pixel (lo span x : fp) : option Z :=
  f32_to_uint8 (f32_mul (f32_div (f32_sub x lo) span) (f32_of_f64 py_255)).

(** The same on magnitudes: a pixel [z] units above the minimum, the
    rounded range being [span] units. *)
Definition pixel_level (span z : Z) : Z :=
  let U := 2 ^ unit_exp 24 128 in
  let shifted := round_mag 24 z 1 in
  let unit := round_mag 24 (shifted * U) span in
  let scaled := round_mag 24 (unit * (255 * U)) U in
  scaled / U.

(** Entry [(i, j)] of a matrix given by rows. *)
Definition entry (m : list (list fp)) (i j : nat) : option fp :=
  row ← m !! i; row !! j.

(** How large a frame the fixed-width arithmetic of [_setup] can size:
    NumPy 1.x computes the pixel count in [int32] and the byte counts in
    [int64]; NumPy 2 computes them all in [int32]. *)
Definition fits (mode : promotion) (h w : Z) : Prop :=
  match mode with
  | Legacy => h * w < 2 ^ 31
  | Nep50 => 12 + h * w * 2 * 4 < 2 ^ 31
  end.

(** A calibration file that is missing, does not parse, or parses to an
    object lacking one of the three keys. *)
Definition calibration_unusable (rt : runtime) (w : world) (path : string) : Prop :=
  files w !! path = None
  ∨ ∃ content, files w !! path = Some content
      ∧ (json_loads rt content = None
         ∨ ∃ fields key, json_loads rt content = Some (JObj fields)
             ∧ key ∈ ["intrinsics"; "distortion"; "extrinsics"]
             ∧ fields !! key = None).

(** Agreement of a binary32 operation with the Standard Library's
    specification of it, on a pair of bit patterns. *)
Definition spec_float_eqb (x y : spec_float) : bool :=
  match x, y with
  | S754_nan, S754_nan => true
  | S754_zero a, S754_zero b | S754_infinity a, S754_infinity b => Bool.eqb a b
  | S754_finite a m e, S754_finite b m' e' => Bool.eqb a b && Pos.eqb m m' && Z.eqb e e'
  | _, _ => false
  end.
Definition agrees (op : fp → fp → fp) (sf : spec_float → spec_float → spec_float)
    (wx wy : Z) : bool :=
  let x := f32_of_bits wx in
  let y := f32_of_bits wy in
  spec_float_eqb (to_spec 24 128 (op x y)) (sf (to_spec 24 128 x) (to_spec 24 128 y))
  && valid 24 128 (op x y).
Definition agrees_on (ws : list Z) (op : fp → fp → fp)
    (sf : spec_float → spec_float → spec_float) : bool :=
  forallb (λ wx, forallb (agrees op sf wx) ws) ws.

(** The state once [connect] has succeeded. *)
Definition connected_state (σ : state) : state :=
  mk_state (set_socket (mk_socket SockConnected (timeout (_tcp_socket (self σ)))) (self σ))
           (log_effect (EConnect (_tcp_ip (self σ)) (_tcp_port (self σ))) (env σ)).

(** Whether a string contains a line terminator. *)
Fixpoint has_newline (s : string) : bool :=
  match s with
  | EmptyString => false
  | String c rest => Ascii.eqb c newline || has_newline rest
  end.

End Spec.

(** ** Sample inputs *)

Module Examples.
Import IEEE754 Py PhoXi Spec.
Import Byte.

(** A sensor whose socket is connected, in a world where the server will
    deliver [q]. *)
Definition connected_sensor : sensor :=
  set_socket (mk_socket SockConnected None) (new_sensor "192.168.1.3" 1024 "low" None).
Definition world_with (mode : promotion) (q : list net_event) : world :=
  mk_world q None ∅ mode [].

(** The 2 x 2 scenario: frame 7, grayscale [0, 10, 20, 30], depth
    [1000, 2000, 3000, 4000] millimetres, all little-endian. *)
Definition example_body : bytes :=
  [x07; x00; x00; x00;
   x00; x00; x00; x00;  x00; x00; x20; x41;  x00; x00; xa0; x41;  x00; x00; xf0; x41;
   x00; x00; x7a; x44;  x00; x00; xfa; x44;  x00; x80; x3b; x45;  x00; x00; x7a; x45].
Definition example_packet : bytes :=
  [x02; x00; x00; x00; x02; x00; x00; x00] ++ example_body.

Definition example_state (mode : promotion) : state :=
  let g := geometry_of mode 2 2 in
  mk_state (set_geometry g (packet_size_of mode g) connected_sensor)
           (world_with mode []).

(** The frame the scenario decodes to: the third depth is one unit in the
    last place above 3. *)
Definition example_frame : frame :=
  mk_frame 7
    (mk_ndarray (2, 2) [Some 0; Some 85; Some 170; Some 255])
    (mk_ndarray (2, 2) [f32_of_Z 1; f32_of_Z 2;
                        Fin false (3 * 2 ^ 149 + 2 ^ 127); f32_of_Z 4]).

(** The frame with the depths exactly [1, 2, 3, 4]. *)
Definition exact_depth_frame : frame :=
  mk_frame 7
    (mk_ndarray (2, 2) [Some 0; Some 85; Some 170; Some 255])
    (mk_ndarray (2, 2) [f32_of_Z 1; f32_of_Z 2; f32_of_Z 3; f32_of_Z 4]).

(** Bit patterns of the grayscale plane of the scenario, of a plane with
    an infinite pixel, and of uniform planes. *)
Definition ramp_plane : list Z := [0x00000000; 0x41200000; 0x41A00000; 0x41F00000].
Definition unbounded_plane : list Z := [0x00000000; 0x7F800000].
Definition overflowing_plane : list Z := [0xFF61B1E6; 0x7F61B1E6].  (* -3e38, 3e38 *)
Definition uniform_plane : list Z := [0x40A00000; 0x40A00000; 0x40A00000].
Definition infinite_plane : list Z := [0x7F800000; 0x7F800000].

(** Handshakes: the server announces a frame size, then stays silent. *)
Definition handshake (h w : Z) : list net_event :=
  [Data (le32_bytes h ++ le32_bytes w); Silence].
Definition before_setup (mode : promotion) (h w : Z) : state :=
  mk_state connected_sensor (world_with mode (handshake h w)).

(** A sensor not yet started, facing a server that is up, or one that
    refuses the connection. *)
Definition fresh_sensor : sensor := new_sensor "192.168.1.3" 1024 "low" None.
Definition before_start (h w : Z) : state :=
  mk_state fresh_sensor (world_with Legacy (handshake h w)).
Definition refused : exn := mk_exn ConnectionRefusedError None.
Definition server_down : state :=
  mk_state fresh_sensor (mk_world [] (Some refused) ∅ Legacy []).

(** Packet acquisition: the scenario packet arriving one byte per [recv];
    ten bytes and then silence, with a timeout set; and the packet
    followed by the start of the next one. *)
Definition scenario_sensor (t : option Z) : sensor :=
  let g := geometry_of Legacy 2 2 in
  set_geometry g (packet_size_of Legacy g)
    (set_socket (mk_socket SockConnected t) fresh_sensor).
Definition bytewise : list bytes := (λ b, [b]) <$> example_packet.
Definition trickle : state :=
  mk_state (scenario_sensor None) (world_with Legacy (Data <$> bytewise)).
Definition short_read : state :=
  mk_state (scenario_sensor (Some 1))
           (world_with Legacy [Data (take 10 example_packet); Silence]).
Definition long_read : state :=
  mk_state (scenario_sensor None)
           (world_with Legacy [Data (example_packet ++ take 4 example_packet)]).

(** A stand-in interpreter: [float] reads decimal digits, [json.load]
    knows the empty object only, [np.array] accepts everything. *)
Definition digit_of (c : Ascii.ascii) : option Z :=
  let n := Z.of_N (Ascii.N_of_ascii c) in
  if (48 <=? n) && (n <=? 57) then Some (n - 48) else None.
Fixpoint parse_digits (acc : Z) (s : string) : option Z :=
  match s with
  | EmptyString => Some acc
  | String c rest => d ← digit_of c; parse_digits (10 * acc + d) rest
  end.
Definition toy_float (s : string) : option fp :=
  match s with
  | EmptyString => None
  | _ => f64_of_Z <$> parse_digits 0 s
  end.
Definition toy_json (s : string) : option json :=
  if String.eqb s "{}" then Some (JObj ∅) else None.
Definition example_runtime : runtime :=
  mk_runtime toy_float toy_json (λ _, true) "intrinsic_parameters.txt".

Definition unlines (ls : list string) : string :=
  foldr (λ l acc, l +:+ String newline acc) EmptyString ls.
Definition factory_text : string :=
  unlines ["#"; "#"; "2244"; "#"; "1032"; "#"; "#"; "772"; "#"; "#"; "#"; "#";
           "#"; "#"; "#"; "1"; "2"; "3"; "4"; "5"].
Definition example_files : gmap string string :=
  {[ "intrinsic_parameters.txt" := factory_text; "empty.json" := "{}" ]}.
Definition calib_world : world := mk_world [] None example_files Legacy [].

Definition factory_high : list (list fp) :=
  [[f64_of_Z 2244; f64_of_Z 0; f64_of_Z 1032];
   [f64_of_Z 0; f64_of_Z 2244; f64_of_Z 772];
   [f64_of_Z 0; f64_of_Z 0; f64_of_Z 1]].
Definition factory_low : list (list fp) :=
  [[f64_of_Z 1122; f64_of_Z 0; f64_of_Z 516];
   [f64_of_Z 0; f64_of_Z 1122; f64_of_Z 386];
   [f64_of_Z 0; f64_of_Z 0; f64_of_Z 1]].
Definition factory_dist : array :=
  Vector [f64_of_Z 1; f64_of_Z 2; f64_of_Z 3; f64_of_Z 4; f64_of_Z 5].

(** Bit patterns on which the arithmetic is compared with the Standard
    Library's: zeros, subnormals, the extremes, infinities, NaN, and the
    operands of the scenario. *)
Definition probe_patterns : list Z :=
  [0x00000000; 0x80000000; 0x00000001; 0x007FFFFF; 0x00800000; 0x7F7FFFFF;
   0xFF7FFFFF; 0x7F800000; 0xFF800000; 0x7FC00000; 0x3F800000; 0x437F0000;
   0x3A83126F; 0x453B8000; 0x41200000; 0x41F00000; 0x3EAAAAAB; 0xC1A00000;
   0x00400000; 0x7F000000; 0x00000003; 0x3F000001; 0x3F7FFFFF; 0x4B800001].

(** Ten bytes of the scenario packet, and then: the connection is reset;
    the server stays silent while the socket is in blocking mode. *)
Definition reset : exn := mk_exn ConnectionResetError None.
Definition reset_read : state :=
  mk_state (scenario_sensor None)
           (world_with Legacy [Data (take 10 example_packet); Fault reset]).
Definition stalled : state :=
  mk_state (scenario_sensor None)
           (world_with Legacy [Data (take 10 example_packet); Silence]).

(** A handshake that stops after four bytes. *)
Definition short_handshake : state :=
  mk_state fresh_sensor (world_with Legacy [Data (le32_bytes 2); Silence]).

(** A plane with a NaN pixel, and the state of a sensor whose server
    announced a frame without pixels. *)
Definition spoiled_plane : list Z := [0x41200000; 0x7FC00000; 0x41F00000].
Definition empty_frame_state : state :=
  let g := geometry_of Legacy 0 5 in
  mk_state (set_geometry g (packet_size_of Legacy g) connected_sensor)
           (world_with Legacy []).

(** The scenario packet cut short by a timeout, on a sensor whose user set
    a timeout. *)
Definition timed_out : state :=
  mk_state (scenario_sensor (Some 1))
           (world_with Legacy [Data (take 40 example_packet); Silence]).

(** A calibration file, read by an interpreter that knows its content; and
    a world in which the packaged factory file is missing. *)
Definition calibration : json :=
  JObj {[ "intrinsics" := JArr [JInt 2240; JInt 2250; JInt 1030; JInt 770];
          "distortion" := JArr [JInt 1; JInt 2; JInt 3; JInt 4; JInt 5];
          "extrinsics" := JArr [JInt 0; JInt 0; JInt 0; JInt 0; JInt 0; JInt 1] ]}.
Definition calibrated_runtime : runtime :=
  mk_runtime toy_float
    (λ s, if String.eqb s "calibration" then Some calibration else toy_json s)
    (λ _, true) "intrinsic_parameters.txt".
Definition calibrated_world : world :=
  mk_world [] None {[ "calib.json" := "calibration" ]} Legacy [].
Definition bare_world : world := mk_world [] None ∅ Legacy [].

(** The scenario packet under a header that announces a 3 x 5 frame. *)
Definition relabelled_packet : bytes :=
  [Byte.x03; Byte.x00; Byte.x00; Byte.x00; Byte.x05; Byte.x00; Byte.x00; Byte.x00] ++ example_body.

End Examples.

(** * Properties *)

Import IEEE754 Py PhoXi Spec Examples.

(** ** Rounding to nearest, ties to even *)

Section Rounding.

Lemma rne_div_spec p q :
  0 <= p → 0 < q →
  (2 * rne_div p q - 1) * q <= 2 * p <= (2 * rne_div p q + 1) * q ∧
  (2 * p = (2 * rne_div p q - 1) * q ∨ 2 * p = (2 * rne_div p q + 1) * q →
   Z.even (rne_div p q) = true).
Proof.
  intros Hp Hq. unfold rne_div.
  pose proof (Z.div_mod p q ltac:(lia)) as E.
  pose proof (Z.mod_pos_bound p q Hq) as B.
  set (d := p / q) in *. set (m := p mod q) in *.
  destruct (Z.compare_spec (2 * m) q) as [C|C|C].
  - destruct (Z.even d) eqn:Ev.
    + split; [nia|]. intros _; exact Ev.
    + split; [nia|]. intros _. rewrite Z.even_add, Ev. reflexivity.
  - split; [nia|]. intros [T|T]; exfalso; nia.
  - split; [nia|]. intros [T|T]; exfalso; nia.
Qed.

Lemma rne_div_nonneg p q : 0 <= p → 0 < q → 0 <= rne_div p q.
Proof.
  intros Hp Hq. destruct (rne_div_spec p q Hp Hq) as [[_ H] _]. nia.
Qed.

(** Rounding to nearest, ties to even, never reverses an order. *)
Lemma rne_div_mono p q p' q' :
  0 <= p → 0 < q → 0 <= p' → 0 < q' →
  p * q' <= p' * q → rne_div p q <= rne_div p' q'.
Proof.
  intros Hp Hq Hp' Hq' H.
  destruct (rne_div_spec p q Hp Hq) as [[L _] T].
  destruct (rne_div_spec p' q' Hp' Hq') as [[_ U'] T'].
  set (r := rne_div p q) in *. set (r' := rne_div p' q') in *.
  destruct (Z_le_gt_dec r r') as [|G]; [assumption|exfalso].
  assert (Hqq : 0 < q * q') by nia.
  assert (A1 : (2 * r - 1) * (q * q') <= 2 * p * q') by nia.
  assert (A2 : 2 * p' * q <= (2 * r' + 1) * (q * q')) by nia.
  assert (A3 : (2 * r' + 1) * (q * q') <= (2 * r - 1) * (q * q')) by nia.
  assert (E1 : r = r' + 1) by nia.
  assert (E2 : 2 * p * q' = (2 * r - 1) * (q * q')) by nia.
  assert (E3 : 2 * p' * q = (2 * r' + 1) * (q * q')) by nia.
  assert (Ev : Z.even r = true) by (apply T; left; nia).
  assert (Ev' : Z.even r' = true) by (apply T'; right; nia).
  rewrite E1, Z.even_add, Ev' in Ev. discriminate.
Qed.

Lemma rne_div_exact n q : 0 < q → rne_div (n * q) q = n.
Proof.
  intros Hq. unfold rne_div.
  rewrite Z.div_mul, Z.mod_mul by lia.
  destruct (Z.compare_spec (2 * 0) q); lia.
Qed.

Variables prec emax : Z.
Hypothesis prec_pos : 0 < prec.

Lemma ulp_exp_nonneg k : 0 <= ulp_exp prec k.
Proof using Type. unfold ulp_exp. lia. Qed.

Lemma ulp_exp_mono a b : a <= b → ulp_exp prec a <= ulp_exp prec b.
Proof using Type. intros H. unfold ulp_exp. pose proof (Z.log2_le_mono a b H). lia. Qed.

(** A magnitude lies below [2^(ulp_exp + prec)]. *)
Lemma ulp_exp_upper d : d < 2 ^ (ulp_exp prec d + prec).
Proof using prec_pos.
  pose proof (ulp_exp_nonneg d) as J.
  destruct (Z_le_gt_dec d 0) as [H|H].
  - pose proof (Z.pow_pos_nonneg 2 (ulp_exp prec d + prec)). lia.
  - pose proof (Z.log2_spec d ltac:(lia)) as [_ U].
    eapply Z.lt_le_trans; [exact U|].
    apply Z.pow_le_mono_r; unfold ulp_exp; lia.
Qed.

(** In the normal range a magnitude has its leading bit at [prec - 1]. *)
Lemma ulp_exp_lower d : 0 < ulp_exp prec d → 2 ^ (ulp_exp prec d + (prec - 1)) <= d.
Proof using prec_pos.
  unfold ulp_exp. intros H.
  assert (Hd : 0 < d).
  { destruct (Z_le_gt_dec d 0) as [N|N]; [|lia].
    rewrite (Z.log2_nonpos d N) in H. lia. }
  pose proof (Z.log2_spec d Hd) as [L _].
  replace (Z.max 0 (Z.log2 d - (prec - 1)) + (prec - 1)) with (Z.log2 d) by lia.
  exact L.
Qed.

Lemma round_mag_nonneg p q : 0 <= p → 0 < q → 0 <= round_mag prec p q.
Proof using prec_pos.
  intros Hp Hq. unfold round_mag.
  pose proof (ulp_exp_nonneg (p / q)) as J.
  assert (0 < 2 ^ ulp_exp prec (p / q)) by (apply Z.pow_pos_nonneg; lia).
  pose proof (rne_div_nonneg p (q * 2 ^ ulp_exp prec (p / q)) Hp ltac:(nia)). nia.
Qed.

Lemma round_mag_0 q : 0 < q → round_mag prec 0 q = 0.
Proof using prec_pos.
  intros Hq. unfold round_mag. rewrite Z.div_0_l by lia.
  unfold ulp_exp; simpl Z.log2. rewrite Z.max_l by lia.
  unfold rne_div. rewrite Z.div_0_l, Z.mod_0_l by lia.
  destruct (Z.compare_spec (2 * 0) (q * 2 ^ 0)); lia.
Qed.

(** Rounding to the format is monotone. *)
Lemma round_mag_mono p q p' q' :
  0 <= p → 0 < q → 0 <= p' → 0 < q' →
  p * q' <= p' * q → round_mag prec p q <= round_mag prec p' q'.
Proof using prec_pos.
  intros Hp Hq Hp' Hq' H. unfold round_mag.
  assert (D : p / q <= p' / q').
  { apply Z.div_le_lower_bound; [lia|].
    pose proof (Z.mul_div_le p q Hq).
    assert (0 <= p / q) by (apply Z.div_pos; lia). nia. }
  pose proof (ulp_exp_mono _ _ D) as J.
  pose proof (ulp_exp_nonneg (p / q)) as J0.
  pose proof (ulp_exp_upper (p / q)) as U.
  pose proof (ulp_exp_lower (p' / q')) as L.
  set (j := ulp_exp prec (p / q)) in *. set (j' := ulp_exp prec (p' / q')) in *.
  assert (P : 0 < 2 ^ j) by (apply Z.pow_pos_nonneg; lia).
  assert (P' : 0 < 2 ^ j') by (apply Z.pow_pos_nonneg; lia).
  destruct (Z.eq_dec j j') as [E|N].
  - rewrite <- E. apply Z.mul_le_mono_nonneg_r; [lia|].
    apply rne_div_mono; nia.
  - assert (Lt : j < j') by lia.
    apply Z.le_trans with (2 ^ prec * 2 ^ j).
    + apply Z.mul_le_mono_nonneg_r; [lia|].
      rewrite <- (rne_div_exact (2 ^ prec) (q * 2 ^ j)) by nia.
      assert (0 < 2 ^ prec) by (apply Z.pow_pos_nonneg; lia).
      apply rne_div_mono; try nia.
      rewrite Z.pow_add_r in U by lia.
      assert (B : p < q * (2 ^ j * 2 ^ prec)).
      { pose proof (Z.mul_succ_div_gt p q Hq). nia. }
      apply Z.mul_le_mono_nonneg_r; nia.
    + apply Z.le_trans with (2 ^ (prec - 1) * 2 ^ j').
      * rewrite <- !Z.pow_add_r by lia. apply Z.pow_le_mono_r; lia.
      * apply Z.mul_le_mono_nonneg_r; [lia|].
        assert (0 < 2 ^ (prec - 1)) by (apply Z.pow_pos_nonneg; lia).
        rewrite <- (rne_div_exact (2 ^ (prec - 1)) (q' * 2 ^ j')) at 1 by nia.
        apply rne_div_mono; try nia.
        specialize (L ltac:(lia)).
        rewrite Z.pow_add_r in L by lia.
        pose proof (Z.mul_div_le p' q' Hq') as B.
        apply Z.mul_le_mono_nonneg_r; nia.
Qed.

(** A representable magnitude rounds to itself. *)
Lemma round_mag_exact n q :
  0 < q → n mod 2 ^ ulp_exp prec n = 0 → round_mag prec (n * q) q = n.
Proof using prec_pos.
  intros Hq R. unfold round_mag. rewrite Z.div_mul by lia.
  pose proof (ulp_exp_nonneg n) as J.
  set (j := ulp_exp prec n) in *.
  assert (P : 0 < 2 ^ j) by (apply Z.pow_pos_nonneg; lia).
  apply Z.div_exact in R; [|lia].
  rewrite R at 1.
  replace (2 ^ j * (n / 2 ^ j) * q) with (n / 2 ^ j * (q * 2 ^ j)) by ring.
  rewrite rne_div_exact by nia. lia.
Qed.

End Rounding.

(** ** Arithmetic on nonnegative data *)

Section NonNegative.
Variables prec emax : Z.
Hypothesis prec_pos : 0 < prec.

Local Abbreviation T := (overflow_threshold prec emax).
Local Abbreviation U := (2 ^ unit_exp prec emax).

Lemma fp_sub_ordered sx kx sy ky :
  let z := signed sx kx - signed sy ky in
  0 <= z → round_mag prec z 1 < T →
  ∃ b, fp_sub prec emax (Fin sx kx) (Fin sy ky) = Fin b (round_mag prec z 1)
       ∧ (z ≠ 0 → b = false).
Proof using prec_pos.
  intros z Hz Hfin. unfold fp_sub. fold z.
  destruct (Z.eqb_spec z 0) as [E|N].
  - rewrite E, round_mag_0 by lia. eexists; split; [reflexivity|lia].
  - unfold round. rewrite Z.abs_eq by lia.
    destruct (Z.ltb_spec (round_mag prec z 1) T); [|lia].
    destruct (Z.ltb_spec z 0); [lia|]. eexists; split; [reflexivity|auto].
Qed.

Lemma fp_div_nonneg b kn kd :
  0 <= kn → 0 < kd → (kn ≠ 0 → b = false) →
  round_mag prec (kn * U) kd < T →
  ∃ b', fp_div prec emax (Fin b kn) (Fin false kd) = Fin b' (round_mag prec (kn * U) kd)
        ∧ (kn ≠ 0 → b' = false).
Proof using prec_pos.
  intros Hn Hd Hb Hfin. unfold fp_div.
  destruct (Z.eqb_spec kd 0); [lia|].
  destruct (Z.eqb_spec kn 0) as [E|N].
  - subst kn. rewrite Z.mul_0_l, round_mag_0 by lia.
    eexists; split; [reflexivity|lia].
  - rewrite (Hb N). simpl xorb. unfold round.
    destruct (Z.ltb_spec (round_mag prec (kn * U) kd) T); [|lia].
    eexists; split; [reflexivity|auto].
Qed.

Lemma fp_mul_nonneg b kq kc :
  0 <= kq → 0 < kc → 0 < U → (kq ≠ 0 → b = false) →
  round_mag prec (kq * kc) U < T →
  ∃ b', fp_mul prec emax (Fin b kq) (Fin false kc) = Fin b' (round_mag prec (kq * kc) U)
        ∧ (kq ≠ 0 → b' = false).
Proof using prec_pos.
  intros Hq Hc HU Hb Hfin. unfold fp_mul.
  destruct (Z.eqb_spec kc 0); [lia|].
  destruct (Z.eqb_spec kq 0) as [E|N]; simpl orb.
  - subst kq. rewrite Z.mul_0_l, round_mag_0 by lia.
    eexists; split; [reflexivity|lia].
  - rewrite (Hb N). simpl xorb. unfold round.
    destruct (Z.ltb_spec (round_mag prec (kq * kc) U) T); [|lia].
    eexists; split; [reflexivity|auto].
Qed.

(** Comparisons read off the extended number line. *)
Lemma fp_ltb_ext x y a b :
  ext prec emax x = Some a → ext prec emax y = Some b →
  fp_ltb prec emax x y = (a <? b).
Proof using Type.
  intros Hx Hy. unfold fp_ltb, fp_compare. rewrite Hx, Hy.
  rewrite Z.ltb_compare. destruct (a ?= b); reflexivity.
Qed.
Lemma fp_leb_ext x y a b :
  ext prec emax x = Some a → ext prec emax y = Some b →
  fp_leb prec emax x y = (a <=? b).
Proof using Type.
  intros Hx Hy. unfold fp_leb, fp_compare. rewrite Hx, Hy.
  rewrite Z.leb_compare. destruct (a ?= b); reflexivity.
Qed.
Lemma fp_eqb_ext x y a b :
  ext prec emax x = Some a → ext prec emax y = Some b →
  fp_eqb prec emax x y = (a =? b).
Proof using Type.
  intros Hx Hy. unfold fp_eqb, fp_compare. rewrite Hx, Hy.
  rewrite Z.eqb_compare. destruct (a ?= b); reflexivity.
Qed.

Lemma ext_not_nan x : is_nan x = false → ∃ a, ext prec emax x = Some a.
Proof using Type. destruct x; simpl; intros; try discriminate; eauto. Qed.

Lemma fp_ltb_not_nan x y :
  fp_ltb prec emax x y = true → is_nan x = false ∧ is_nan y = false.
Proof using Type.
  unfold fp_ltb, fp_compare. destruct x, y; simpl; intros; try discriminate; auto.
Qed.

End NonNegative.

(** *** Reductions *)

Lemma fmin_spec a y :
  is_nan (fmin a y) = false →
  is_nan a = false ∧ is_nan y = false ∧
  (fmin a y = a ∨ fmin a y = y) ∧
  f32_leb (fmin a y) a = true ∧ f32_leb (fmin a y) y = true.
Proof.
  unfold fmin. destruct (is_nan a) eqn:Na; [congruence|].
  destruct (is_nan y) eqn:Ny.
  { destruct y; try discriminate. intros H.
    replace (f32_ltb a NaN) with false in H by (by destruct a).
    discriminate H. }
  destruct (ext_not_nan 24 128 a Na) as [ea Ea].
  destruct (ext_not_nan 24 128 y Ny) as [ey Ey].
  rewrite (fp_ltb_ext _ _ _ _ _ _ Ea Ey).
  destruct (Z.ltb_spec ea ey); intros _; repeat split; auto.
  - rewrite (fp_leb_ext _ _ _ _ _ _ Ea Ea). lia.
  - rewrite (fp_leb_ext _ _ _ _ _ _ Ea Ey). lia.
  - rewrite (fp_leb_ext _ _ _ _ _ _ Ey Ea). lia.
  - rewrite (fp_leb_ext _ _ _ _ _ _ Ey Ey). lia.
Qed.

Lemma fmax_spec a y :
  is_nan (fmax a y) = false →
  is_nan a = false ∧ is_nan y = false ∧
  (fmax a y = a ∨ fmax a y = y) ∧
  f32_leb a (fmax a y) = true ∧ f32_leb y (fmax a y) = true.
Proof.
  unfold fmax. destruct (is_nan a) eqn:Na; [congruence|].
  destruct (is_nan y) eqn:Ny.
  { by destruct y. }
  destruct (ext_not_nan 24 128 a Na) as [ea Ea].
  destruct (ext_not_nan 24 128 y Ny) as [ey Ey].
  rewrite (fp_ltb_ext _ _ _ _ _ _ Ey Ea).
  destruct (Z.ltb_spec ey ea); intros _; repeat split; auto.
  - rewrite (fp_leb_ext _ _ _ _ _ _ Ea Ea). lia.
  - rewrite (fp_leb_ext _ _ _ _ _ _ Ey Ea). lia.
  - rewrite (fp_leb_ext _ _ _ _ _ _ Ea Ey). lia.
  - rewrite (fp_leb_ext _ _ _ _ _ _ Ey Ey). lia.
Qed.

Lemma f32_leb_trans x y z :
  f32_leb x y = true → f32_leb y z = true → f32_leb x z = true.
Proof.
  unfold fp_leb, fp_compare.
  destruct (f32_ext x) as [a|], (f32_ext y) as [b|], (f32_ext z) as [c|];
    try discriminate.
  destruct (Z.compare_spec a b), (Z.compare_spec b c), (Z.compare_spec a c);
    try discriminate; auto; lia.
Qed.

Lemma foldl_fmin_spec l a :
  is_nan (foldl fmin a l) = false →
  Forall (λ x, is_nan x = false) (a :: l) ∧
  foldl fmin a l ∈ a :: l ∧
  Forall (λ x, f32_leb (foldl fmin a l) x = true) (a :: l).
Proof.
  revert a. induction l as [|y l IH]; intros a H; simpl in *.
  - destruct (ext_not_nan 24 128 a H) as [ea Ea].
    repeat split; [by repeat constructor|by apply elem_of_cons; left|].
    repeat constructor. rewrite (fp_leb_ext _ _ _ _ _ _ Ea Ea). lia.
  - destruct (IH _ H) as (N & I & L).
    inversion N as [|? ? N1 N2]; subst.
    destruct (fmin_spec a y N1) as (Na & Ny & C & La & Ly).
    inversion L as [|? ? L1 L2]; subst.
    repeat split.
    + by repeat constructor.
    + apply elem_of_cons in I as [I|I].
      * rewrite I. destruct C as [->| ->]; rewrite !elem_of_cons; auto.
      * rewrite !elem_of_cons; auto.
    + repeat constructor; eauto using f32_leb_trans.
Qed.

Lemma foldl_fmax_spec l a :
  is_nan (foldl fmax a l) = false →
  Forall (λ x, is_nan x = false) (a :: l) ∧
  foldl fmax a l ∈ a :: l ∧
  Forall (λ x, f32_leb x (foldl fmax a l) = true) (a :: l).
Proof.
  revert a. induction l as [|y l IH]; intros a H; simpl in *.
  - destruct (ext_not_nan 24 128 a H) as [ea Ea].
    repeat split; [by repeat constructor|by apply elem_of_cons; left|].
    repeat constructor. rewrite (fp_leb_ext _ _ _ _ _ _ Ea Ea). lia.
  - destruct (IH _ H) as (N & I & L).
    inversion N as [|? ? N1 N2]; subst.
    destruct (fmax_spec a y N1) as (Na & Ny & C & La & Ly).
    inversion L as [|? ? L1 L2]; subst.
    repeat split.
    + by repeat constructor.
    + apply elem_of_cons in I as [I|I].
      * rewrite I. destruct C as [->| ->]; rewrite !elem_of_cons; auto.
      * rewrite !elem_of_cons; auto.
    + repeat constructor; eauto using f32_leb_trans.
Qed.

(** ** The grayscale stretch *)

Local Abbreviation T := (overflow_threshold 24 128).
Local Abbreviation U := (2 ^ unit_exp 24 128).

Lemma P24 : 0 < 24.
Proof. reflexivity. Qed.
Lemma U_pos : 0 < U.
Proof. reflexivity. Qed.
Lemma U_lt_T : U < T.
Proof. reflexivity. Qed.
Lemma c255_lt_T : 255 * U < T.
Proof. reflexivity. Qed.
Lemma f32_255 : f32_of_f64 py_255 = Fin false (255 * U).
Proof. vm_compute. reflexivity. Qed.
Lemma U_representable : U mod 2 ^ ulp_exp 24 U = 0.
Proof. vm_compute. reflexivity. Qed.
Lemma c255_representable : (255 * U) mod 2 ^ ulp_exp 24 (255 * U) = 0.
Proof. vm_compute. reflexivity. Qed.

Lemma round_mag_one : round_mag 24 1 1 = 1.
Proof. reflexivity. Qed.

Lemma pixel_level_mono span z z' :
  0 < span → 0 <= z → z <= z' → pixel_level span z <= pixel_level span z'.
Proof.
  intros Hs Hz Hzz. unfold pixel_level. pose proof U_pos as HU.
  assert (A : round_mag 24 z 1 <= round_mag 24 z' 1)
    by (apply round_mag_mono; lia).
  pose proof (round_mag_nonneg 24 P24 z 1 ltac:(lia) ltac:(lia)) as A0.
  assert (B : round_mag 24 (round_mag 24 z 1 * U) span
              <= round_mag 24 (round_mag 24 z' 1 * U) span).
  { apply round_mag_mono; try lia; try (apply Z.mul_nonneg_nonneg; lia).
    do 2 (apply Z.mul_le_mono_nonneg_r; [lia|]). exact A. }
  pose proof (round_mag_nonneg 24 P24 (round_mag 24 z 1 * U) span
                ltac:(apply Z.mul_nonneg_nonneg; lia) Hs) as B0.
  apply Z.div_le_mono; [lia|].
  apply round_mag_mono; try lia; try (apply Z.mul_nonneg_nonneg; lia).
  do 2 (apply Z.mul_le_mono_nonneg_r; [lia|]). exact B.
Qed.

Lemma pixel_level_0 span : 0 < span → pixel_level span 0 = 0.
Proof.
  intros Hs. unfold pixel_level.
  rewrite (round_mag_0 24 P24 1) by lia. rewrite Z.mul_0_l.
  rewrite (round_mag_0 24 P24 span) by lia. rewrite Z.mul_0_l.
  rewrite (round_mag_0 24 P24 U) by reflexivity. reflexivity.
Qed.

Lemma pixel_level_top z :
  0 < round_mag 24 z 1 → pixel_level (round_mag 24 z 1) z = 255.
Proof.
  intros Hs. unfold pixel_level.
  rewrite (Z.mul_comm (round_mag 24 z 1) U).
  rewrite (round_mag_exact 24 P24 U) by (lia || apply U_representable).
  rewrite (Z.mul_comm U (255 * U)).
  rewrite (round_mag_exact 24 P24 (255 * U)) by (reflexivity || apply c255_representable).
  apply Z.div_mul. pose proof U_pos. lia.
Qed.

Lemma pixel_value lo_s lo_k s k span :
  let z := signed s k - signed lo_s lo_k in
  0 <= z → 0 < span → round_mag 24 z 1 <= span → span < T →
  normalize_pixel (Fin lo_s lo_k) (Fin false span) (Fin s k) = Some (pixel_level span z)
  ∧ 0 <= pixel_level span z <= 255.
Proof.
  intros z Hz Hs Hle HT. pose proof U_pos as HU.
  pose proof (round_mag_nonneg 24 P24 z 1 ltac:(lia) ltac:(lia)) as N0.
  set (kn := round_mag 24 z 1) in *.
  assert (Q1 : round_mag 24 (kn * U) span <= U).
  { rewrite <- (round_mag_exact 24 P24 U span Hs U_representable) at 2.
    apply round_mag_mono; try lia; try (apply Z.mul_nonneg_nonneg; lia).
    rewrite (Z.mul_comm U span). apply Z.mul_le_mono_nonneg_r; [lia|].
    apply Z.mul_le_mono_nonneg_r; lia. }
  pose proof (round_mag_nonneg 24 P24 (kn * U) span
                ltac:(apply Z.mul_nonneg_nonneg; lia) Hs) as Q0.
  set (kq := round_mag 24 (kn * U) span) in *.
  assert (S1 : round_mag 24 (kq * (255 * U)) U <= 255 * U).
  { rewrite <- (round_mag_exact 24 P24 (255 * U) U HU c255_representable) at 2.
    apply round_mag_mono; try lia; try (apply Z.mul_nonneg_nonneg; lia).
    rewrite (Z.mul_comm (255 * U) U). apply Z.mul_le_mono_nonneg_r; [lia|].
    apply Z.mul_le_mono_nonneg_r; lia. }
  pose proof (round_mag_nonneg 24 P24 (kq * (255 * U)) U
                ltac:(apply Z.mul_nonneg_nonneg; lia) HU) as S0.
  assert (R : 0 <= pixel_level span z <= 255).
  { unfold pixel_level. fold kn kq. split.
    - apply Z.div_pos; lia.
    - apply Z.div_le_upper_bound; lia. }
  split; [|exact R].
  unfold normalize_pixel.
  destruct (fp_sub_ordered 24 128 ltac:(lia) s k lo_s lo_k Hz ltac:(fold z kn; lia))
    as (b & -> & Hb). fold z kn in Hb |- *.
  assert (Hb' : kn ≠ 0 → b = false).
  { intros Hn. apply Hb. intros ->. apply Hn. reflexivity. }
  pose proof U_lt_T as HUT. pose proof c255_lt_T as HCT.
  destruct (fp_div_nonneg 24 128 ltac:(lia) b kn span N0 Hs Hb' ltac:(fold kq; lia))
    as (b1 & -> & Hb1). fold kq in Hb1 |- *.
  assert (Hb1' : kq ≠ 0 → b1 = false).
  { intros Hn. apply Hb1. intros E. apply Hn. unfold kq. rewrite E.
    rewrite Z.mul_0_l. apply round_mag_0; lia. }
  rewrite f32_255.
  destruct (fp_mul_nonneg 24 128 ltac:(lia) b1 kq (255 * U) Q0 ltac:(lia) HU Hb1'
              ltac:(lia)) as (b2 & -> & Hb2).
  unfold f32_to_uint8. unfold pixel_level in R |- *. fold kn kq in R |- *.
  set (ks := round_mag 24 (kq * (255 * U)) U) in *.
  destruct b2.
  - destruct (Z.eqb_spec (ks / U) 0) as [E|E]; [by rewrite E|].
    exfalso. assert (kq ≠ 0).
    { intros E0. apply E. unfold ks. rewrite E0, Z.mul_0_l, (round_mag_0 24 P24) by lia.
      reflexivity. }
    specialize (Hb2 ltac:(assumption)). discriminate.
  - destruct (Z.leb_spec (ks / U) 255); [reflexivity|lia].
Qed.

(** Every bit pattern decodes to a valid datum. *)
Lemma f32_of_bits_valid w : f32_valid (f32_of_bits w) = true.
Proof.
  unfold f32_of_bits.
  assert (He : 0 <= Z.land (Z.shiftr w 23) 255 < 256).
  { change 255 with (Z.ones 8). rewrite Z.land_ones by lia.
    apply Z.mod_pos_bound. lia. }
  assert (Hm : 0 <= Z.land w (2 ^ 23 - 1) < 2 ^ 23).
  { change (2 ^ 23 - 1) with (Z.ones 23). rewrite Z.land_ones by lia.
    apply Z.mod_pos_bound. lia. }
  set (e := Z.land (Z.shiftr w 23) 255) in *.
  set (m := Z.land w (2 ^ 23 - 1)) in *.
  destruct (Z.eqb_spec e 255); [by destruct (m =? 0)|].
  destruct (Z.eqb_spec e 0) as [E0|E0]; simpl; unfold representable.
  - assert (L : ulp_exp 24 m = 0).
    { unfold ulp_exp. destruct (Z.eq_dec m 0) as [->|]; [reflexivity|].
      assert (Z.log2 m < 23) by (apply Z.log2_lt_pow2; lia). lia. }
    rewrite L, Z.mod_1_r.
    assert (m < T) by (eapply Z.lt_trans; [apply Hm|reflexivity]).
    destruct (Z.leb_spec 0 m), (Z.ltb_spec m T); try lia; try reflexivity.
  - set (k := (2 ^ 23 + m) * 2 ^ (e - 1)).
    assert (P : 0 < 2 ^ (e - 1)) by (apply Z.pow_pos_nonneg; lia).
    assert (Lg : Z.log2 k = 22 + e).
    { apply Z.log2_unique; [lia|]. unfold k.
      replace (22 + e) with (23 + (e - 1)) by lia.
      replace (Z.succ (23 + (e - 1))) with (24 + (e - 1)) by lia.
      rewrite !Z.pow_add_r by lia. change (2 ^ 24) with (2 * 2 ^ 23). nia. }
    assert (L : ulp_exp 24 k = e - 1) by (unfold ulp_exp; lia).
    rewrite L. unfold k at 3. rewrite Z.mod_mul by lia.
    assert (k < T).
    { unfold k. apply Z.lt_le_trans with (2 ^ 24 * 2 ^ (e - 1)).
      - apply Z.mul_lt_mono_pos_r; lia.
      - rewrite <- Z.pow_add_r by lia. unfold overflow_threshold, unit_exp.
        apply Z.pow_le_mono_r; lia. }
    destruct (Z.leb_spec 0 k), (Z.ltb_spec k T); try nia; try reflexivity.
Qed.

Lemma valid_bounds s k : f32_valid (Fin s k) = true → 0 <= k < T.
Proof.
  simpl. unfold representable. intros H.
  apply andb_prop in H as [H _]. apply andb_prop in H as [H1 H2]. lia.
Qed.

Lemma normalize_unfold gray lo hi :
  array_min gray = Returns lo → array_max gray = Returns hi →
  normalize gray = Returns (normalize_pixel lo (f32_sub hi lo) <$> gray).
Proof.
  intros Hlo Hhi. unfold normalize. rewrite Hlo, Hhi.
  rewrite <- !list_fmap_compose. reflexivity.
Qed.

(** C4 (amended).  For a grayscale plane whose maximum is strictly greater
    than its minimum and whose binary32 range [max - min] is finite, the
    normalization gives every pixel a value in [0, 255], is monotone in
    the intensity, sends the minimum to 0 and the maximum to 255. *)
Theorem normalize_stretch (ws : list Z) (lo hi : fp) :
  let gray := f32_of_bits <$> ws in
  array_min gray = Returns lo →
  array_max gray = Returns hi →
  f32_ltb lo hi = true →
  is_finite (f32_sub hi lo) = true →
  ∃ out : list Z,
    normalize gray = Returns (Some <$> out) ∧
    length out = length ws ∧
    Forall (λ u, 0 <= u <= 255) out ∧
    (∀ i j x y u v,
        gray !! i = Some x → gray !! j = Some y →
        out !! i = Some u → out !! j = Some v →
        f32_leb x y = true → u <= v) ∧
    (∀ i x u, gray !! i = Some x → out !! i = Some u →
              f32_eqb x lo = true → u = 0) ∧
    (∀ i x u, gray !! i = Some x → out !! i = Some u →
              f32_eqb x hi = true → u = 255).
Proof.
  intros gray Hlo Hhi Hlt Hfin.
  assert (Hvalid : Forall (λ x, f32_valid x = true) gray).
  { unfold gray. apply Forall_fmap, Forall_forall. intros w _. apply f32_of_bits_valid. }
  destruct gray as [|x0 rest] eqn:Eg; [discriminate|].
  simpl in Hlo, Hhi. injection Hlo as Hlo. injection Hhi as Hhi.
  destruct (fp_ltb_not_nan 24 128 lo hi Hlt) as [Nlo Nhi].
  destruct (foldl_fmin_spec rest x0 ltac:(by rewrite Hlo)) as (Nn & Ilo & Lo).
  destruct (foldl_fmax_spec rest x0 ltac:(by rewrite Hhi)) as (_ & Ihi & Hi).
  rewrite Hlo in Ilo, Lo. rewrite Hhi in Ihi, Hi.
  rewrite <- Eg in Nn, Ilo, Lo, Ihi, Hi, Hvalid |- *.
  rewrite Forall_forall in Hvalid, Lo, Hi, Nn.
  (* the extremes are finite, the range positive and representable *)
  pose proof (Hvalid _ Ilo) as Vlo. pose proof (Hvalid _ Ihi) as Vhi.
  destruct hi as [|sh|sh kh];
    [discriminate
    |exfalso; destruct lo as [|sl|]; simpl in Hfin; try discriminate;
     destruct (eqb sh sl); discriminate|].
  destruct lo as [|sl|sl kl]; [discriminate|discriminate|].
  apply valid_bounds in Vlo, Vhi.
  set (elo := signed sl kl) in *. set (ehi := signed sh kh) in *.
  assert (Elo : f32_ext (Fin sl kl) = Some elo) by reflexivity.
  assert (Ehi : f32_ext (Fin sh kh) = Some ehi) by reflexivity.
  rewrite (fp_ltb_ext _ _ _ _ _ _ Elo Ehi) in Hlt.
  apply Z.ltb_lt in Hlt.
  assert (Hspan : f32_sub (Fin sh kh) (Fin sl kl)
                  = Fin false (round_mag 24 (ehi - elo) 1)
                  ∧ round_mag 24 (ehi - elo) 1 < T).
  { revert Hfin. unfold fp_sub. fold elo ehi.
    destruct (Z.eqb_spec (ehi - elo) 0); [lia|].
    unfold round. rewrite Z.abs_eq by lia.
    destruct (Z.ltb_spec (ehi - elo) 0); [lia|].
    destruct (Z.ltb_spec (round_mag 24 (ehi - elo) 1) T); [auto|discriminate]. }
  destruct Hspan as [Hspan HT]. clear Hfin.
  set (span := round_mag 24 (ehi - elo) 1) in *.
  assert (Hspan_pos : 0 < span).
  { pose proof (round_mag_mono 24 P24 1 1 (ehi - elo) 1) as M.
    rewrite round_mag_one in M. fold span in M. lia. }
  (* every pixel is finite and lies between the extremes *)
  assert (Hpix : ∀ x, x ∈ gray →
            ∃ s k, x = Fin s k ∧ elo <= signed s k <= ehi).
  { intros x Hx.
    pose proof (Lo _ Hx) as L. pose proof (Hi _ Hx) as H.
    pose proof (Nn _ Hx) as N. pose proof (Hvalid _ Hx) as V.
    destruct (ext_not_nan 24 128 x N) as [ex Ex].
    rewrite (fp_leb_ext _ _ _ _ _ _ Elo Ex) in L.
    rewrite (fp_leb_ext _ _ _ _ _ _ Ex Ehi) in H.
    apply Z.leb_le in L, H.
    assert (Bhi : ehi < T) by (unfold ehi; destruct sh; simpl; lia).
    assert (Blo : - T < elo) by (unfold elo; destruct sl; simpl; lia).
    destruct x as [|s|s k]; [discriminate| |].
    - exfalso. injection Ex as <-. destruct s; simpl in *; lia.
    - injection Ex as <-. eauto. }
  set (level := λ x : fp, pixel_level span (default 0 (f32_ext x) - elo)).
  assert (Hout : ∀ x, x ∈ gray →
            normalize_pixel (Fin sl kl) (Fin false span) x = Some (level x)
            ∧ 0 <= level x <= 255).
  { intros x Hx. destruct (Hpix x Hx) as (s & k & -> & B).
    unfold level. simpl default. apply pixel_value; try lia.
    apply round_mag_mono; lia. }
  exists (level <$> gray). repeat split.
  - rewrite (normalize_unfold gray (Fin sl kl) (Fin sh kh)).
    + rewrite Hspan. f_equal. rewrite <- list_fmap_compose.
      apply Forall_fmap_ext, Forall_forall. intros x Hx. apply (Hout x Hx).
    + rewrite Eg. simpl. by rewrite Hlo.
    + rewrite Eg. simpl. by rewrite Hhi.
  - unfold gray. by rewrite !length_fmap.
  - apply Forall_fmap, Forall_forall. intros x Hx. apply (Hout x Hx).
  - intros i j x y u v Hi' Hj Ou Ov Hle.
    rewrite list_lookup_fmap, Hi' in Ou. rewrite list_lookup_fmap, Hj in Ov.
    injection Ou as <-. injection Ov as <-.
    apply list_elem_of_lookup_2 in Hi', Hj.
    destruct (Hpix x Hi') as (s & k & -> & B).
    destruct (Hpix y Hj) as (s' & k' & -> & B').
    unfold level. simpl default.
    rewrite (fp_leb_ext 24 128 (Fin s k) (Fin s' k') _ _ eq_refl eq_refl) in Hle.
    apply Z.leb_le in Hle.
    apply pixel_level_mono; lia.
  - intros i x u Hi' Ou Heq.
    rewrite list_lookup_fmap, Hi' in Ou. injection Ou as <-.
    apply list_elem_of_lookup_2 in Hi'.
    destruct (Hpix x Hi') as (s & k & -> & B).
    rewrite (fp_eqb_ext 24 128 (Fin s k) _ _ _ eq_refl Elo) in Heq.
    apply Z.eqb_eq in Heq. unfold level. simpl default. rewrite Heq, Z.sub_diag.
    by apply pixel_level_0.
  - intros i x u Hi' Ou Heq.
    rewrite list_lookup_fmap, Hi' in Ou. injection Ou as <-.
    apply list_elem_of_lookup_2 in Hi'.
    destruct (Hpix x Hi') as (s & k & -> & B).
    rewrite (fp_eqb_ext 24 128 (Fin s k) _ _ _ eq_refl Ehi) in Heq.
    apply Z.eqb_eq in Heq. unfold level. simpl default. rewrite Heq.
    by apply pixel_level_top.
Qed.

(** ** Packet accumulation *)

Lemma sock_recv_connected n σ :
  connected σ →
  sock_recv n σ =
    (fst (recv_queue n (timeout (_tcp_socket (self σ))) (net (env σ))),
     with_net (snd (recv_queue n (timeout (_tcp_socket (self σ))) (net (env σ)))) σ).
Proof.
  unfold connected, sock_recv. intros ->.
  by destruct (recv_queue _ _ _).
Qed.

(** One turn of the accumulation loop. *)
Lemma accumulate_step fuel data σ :
  accumulate (S fuel) data σ =
    if len data <? int_val (_packet_size (self σ)) then
      match sock_recv (_buffer_size (self σ)) σ with
      | (Returns chunk, σ') => accumulate fuel (data ++ chunk) σ'
      | (Raises e, σ') =>
          if isinstance e SocketTimeout then (Returns data, σ') else (Raises e, σ')
      | (Hangs, σ') => (Hangs, σ')
      end
    else (Returns data, σ).
Proof.
  cbn [accumulate]. unfold mbind, M_bind, bind, get_self. cbn beta iota.
  destruct (len data <? int_val (_packet_size (self σ))); [|reflexivity].
  unfold try_except, mret, M_ret, ret.
  destruct (sock_recv (_buffer_size (self σ)) σ) as [[chunk|e|] σ']; try reflexivity.
  by destruct (isinstance e SocketTimeout).
Qed.

Ltac lens :=
  unfold len, with_net in *; cbn [concat self] in *;
  rewrite ?length_app, ?length_take, ?length_drop in *; lia.

Lemma recv_budget_app chunks rest :
  (chunk_budget chunks < recv_budget ((Data <$> chunks) ++ rest))%nat.
Proof.
  induction chunks as [|c cs IH].
  - destruct rest as [|[]]; simpl; lia.
  - unfold chunk_budget in *. cbn [foldr fmap list_fmap app recv_budget]. lia.
Qed.

Lemma self_with_net q σ : self (with_net q σ) = self σ.
Proof. reflexivity. Qed.
Lemma with_net_with_net q q' σ : with_net q (with_net q' σ) = with_net q σ.
Proof. reflexivity. Qed.
Lemma net_with_net q σ : net (env (with_net q σ)) = q.
Proof. reflexivity. Qed.

(** Enough bytes queued: the loop ends by itself, having taken a prefix of
    the queued bytes that reaches the packet size. *)
Lemma accumulate_data fuel : ∀ chunks data σ rest,
  connected σ → 0 < _buffer_size (self σ) →
  net (env σ) = (Data <$> chunks) ++ rest →
  int_val (_packet_size (self σ)) <= len data + len (concat chunks) →
  (chunk_budget chunks < fuel)%nat →
  ∃ pre chunks',
    accumulate fuel data σ
      = (Returns (data ++ pre), with_net ((Data <$> chunks') ++ rest) σ)
    ∧ pre ++ concat chunks' = concat chunks
    ∧ int_val (_packet_size (self σ)) <= len (data ++ pre)
    ∧ (Forall (λ c, c ≠ []) chunks → Forall (λ c, c ≠ []) chunks').
Proof.
  induction fuel as [|fuel IH]; intros chunks data σ rest Hc Hb Hnet Hps Hf; [lia|].
  rewrite accumulate_step.
  destruct (Z.ltb_spec (len data) (int_val (_packet_size (self σ)))) as [Hlt|Hge].
  - rewrite (sock_recv_connected _ _ Hc), Hnet.
    destruct chunks as [|c cs].
    { exfalso. unfold len in *. simpl in Hps. lia. }
    cbn [fmap list_fmap app recv_queue].
    unfold len in *.
    destruct (Z.leb_spec (Z.of_nat (length c)) (_buffer_size (self σ))) as [Hfit|Hbig];
      cbn [fst snd].
    + destruct (IH cs (data ++ c) (with_net ((Data <$> cs) ++ rest) σ) rest)
        as (pre & cs' & E & Hcat & Hlen & Hne); auto.
      * lens.
      * simpl in Hf. lia.
      * exists (c ++ pre), cs'. rewrite E. rewrite <- app_assoc.
        split; [reflexivity|]. split; [|split].
        -- simpl. by rewrite <- Hcat, app_assoc.
        -- by rewrite app_assoc.
        -- intros F. apply Hne. by inversion F.
    + set (n := Z.to_nat (_buffer_size (self σ))).
      assert (Hn : (0 < n < length c)%nat) by lia.
      destruct (IH (drop n c :: cs) (data ++ take n c)
                  (with_net ((Data <$> drop n c :: cs) ++ rest) σ) rest)
        as (pre & cs' & E & Hcat & Hlen & Hne); auto.
      * lens.
      * simpl in Hf |- *. rewrite length_drop. lia.
      * exists (take n c ++ pre), cs'.
        change (Data (drop n c) :: (Data <$> cs) ++ rest)
          with ((Data <$> drop n c :: cs) ++ rest).
        rewrite E. rewrite <- app_assoc.
        split; [reflexivity|]. split; [|split].
        -- simpl in Hcat |- *. rewrite <- app_assoc, Hcat, app_assoc.
           by rewrite take_drop.
        -- by rewrite app_assoc.
        -- intros F. apply Hne. inversion F; subst. constructor; auto.
           intros Hd. apply (f_equal length) in Hd.
           rewrite length_drop in Hd. simpl in Hd. lia.
  - exists [], chunks. rewrite app_nil_r. rewrite <- Hnet.
    split; [by destruct σ as [s [? ? ? ? ?]]|]. split; [reflexivity|].
    split; [assumption|auto].
Qed.

(** Too few bytes queued, then a timeout: the loop breaks with what it has. *)
Lemma accumulate_timeout fuel : ∀ chunks data σ tail e tail',
  connected σ → 0 < _buffer_size (self σ) →
  net (env σ) = (Data <$> chunks) ++ tail →
  recv_queue (_buffer_size (self σ)) (timeout (_tcp_socket (self σ))) tail
    = (Raises e, tail') →
  isinstance e SocketTimeout = true →
  len data + len (concat chunks) < int_val (_packet_size (self σ)) →
  (chunk_budget chunks < fuel)%nat →
  accumulate fuel data σ = (Returns (data ++ concat chunks), with_net tail' σ).
Proof.
  induction fuel as [|fuel IH]; intros chunks data σ tail e tail' Hc Hb Hnet Ht He Hps Hf;
    [lia|].
  rewrite accumulate_step. unfold len in *.
  destruct (Z.ltb_spec (Z.of_nat (length data)) (int_val (_packet_size (self σ))));
    [|lia].
  rewrite (sock_recv_connected _ _ Hc), Hnet.
  destruct chunks as [|c cs].
  - simpl. rewrite Ht. simpl. rewrite He. by rewrite app_nil_r.
  - cbn [fmap list_fmap app recv_queue]. unfold len.
    destruct (Z.leb_spec (Z.of_nat (length c)) (_buffer_size (self σ))) as [Hfit|Hbig];
      cbn [fst snd].
    + rewrite (IH cs (data ++ c) _ tail e tail'); auto.
      * simpl. by rewrite app_assoc.
      * lens.
      * simpl in Hf. lia.
    + set (n := Z.to_nat (_buffer_size (self σ))).
      change (Data (drop n c) :: (Data <$> cs) ++ tail)
        with ((Data <$> drop n c :: cs) ++ tail).
      rewrite (IH (drop n c :: cs) (data ++ take n c) _ tail e tail'); auto.
      * f_equal. f_equal. cbn [concat].
        by rewrite <- !app_assoc, (app_assoc (take n c)), take_drop.
      * lens.
      * simpl in Hf |- *. rewrite length_drop. lia.
Qed.

Lemma slice_to_take {A} (n : Z) (l : list A) :
  0 <= n → slice_to n l = take (Z.to_nat n) l.
Proof.
  intros Hn. unfold slice_to, slice, clip_index, len.
  change (0 <? 0) with false. cbn iota.
  destruct (Z.ltb_spec n 0) as [|_]; [lia|].
  rewrite (Z.min_l 0) by lia. rewrite Z.sub_0_r. cbn [Z.to_nat drop].
  destruct (Z.le_ge_cases n (Z.of_nat (length l))).
  - by rewrite Z.min_l by lia.
  - rewrite Z.min_r by lia. rewrite Nat2Z.id.
    rewrite !take_ge; auto; lia.
Qed.

Lemma slice_to_length {A} (n : Z) (l : list A) :
  0 <= n → len (slice_to n l) <= n.
Proof.
  intros Hn. rewrite slice_to_take by done. unfold len.
  rewrite length_take. lia.
Qed.

Lemma slice_to_short {A} (n : Z) (l : list A) :
  len l <= n → slice_to n l = l.
Proof.
  intros Hn. unfold len in Hn. rewrite slice_to_take by lia. apply take_ge. lia.
Qed.

Lemma sock_recv_self n σ r σ' : sock_recv n σ = (r, σ') → self σ' = self σ.
Proof.
  unfold sock_recv.
  destruct (status (_tcp_socket (self σ))); [by intros [= _ <-]| |by intros [= _ <-]].
  destruct (recv_queue _ _ _). by intros [= _ <-].
Qed.

(** The loop touches the network queue only. *)
Lemma accumulate_self fuel : ∀ data σ r σ',
  accumulate fuel data σ = (r, σ') → self σ' = self σ.
Proof.
  induction fuel as [|fuel IH]; intros data σ r σ'.
  - by intros [= _ <-].
  - rewrite accumulate_step.
    destruct (len data <? int_val (_packet_size (self σ))); [|by intros [= _ <-]].
    destruct (sock_recv _ σ) as [[chunk|e|] σ1] eqn:E;
      apply sock_recv_self in E.
    + intros H. apply IH in H. congruence.
    + destruct (isinstance e SocketTimeout); intros [= _ <-]; done.
    + by intros [= _ <-].
Qed.

Lemma get_packet_unfold σ :
  connected σ →
  _get_packet σ =
    match accumulate (S (recv_budget (net (env σ)))) [] (pinged σ) with
    | (Returns acc, σ') =>
        (Returns (slice_to (int_val (_packet_size (self σ'))) acc), σ')
    | (Raises e, σ') => (Raises e, σ')
    | (Hangs, σ') => (Hangs, σ')
    end.
Proof.
  unfold connected. intros Hc.
  unfold _get_packet, sock_send, mbind, M_bind, bind, get_self, get_env, perform,
    update_env, mret, M_ret, ret.
  cbn beta iota. rewrite Hc. cbn beta iota.
  change (mk_state (self σ) (log_effect (ESend ping) (env σ))) with (pinged σ).
  change (net (env (pinged σ))) with (net (env σ)).
  by destruct (accumulate _ _ _) as [[acc|e|] σ'].
Qed.

(** C3.  However the transport fragments a payload of exactly
    [_packet_size] bytes into successive chunks, [_get_packet] sends one
    trigger and returns the concatenation of the chunks (which is its own
    truncation to the packet size); when no chunk is empty it leaves the
    rest of the queue untouched. *)
Theorem get_packet_assembles σ (chunks : list bytes) (rest : list net_event) :
  connected σ →
  0 < _buffer_size (self σ) →
  net (env σ) = (Data <$> chunks) ++ rest →
  len (concat chunks) = int_val (_packet_size (self σ)) →
  ∃ σ',
    _get_packet σ = (Returns (concat chunks), σ')
    ∧ concat chunks = slice_to (int_val (_packet_size (self σ))) (concat chunks)
    ∧ self σ' = self σ
    ∧ trace (env σ') = ESend ping :: trace (env σ)
    ∧ (Forall (λ c, c ≠ []) chunks → net (env σ') = rest).
Proof.
  intros Hc Hb Hnet Hlen.
  rewrite (get_packet_unfold σ Hc).
  assert (Hfuel : (chunk_budget chunks < S (recv_budget (net (env σ))))%nat).
  { rewrite Hnet. pose proof (recv_budget_app chunks rest). lia. }
  assert (Hneed : int_val (_packet_size (self (pinged σ)))
                  <= len (@nil byte) + len (concat chunks)).
  { change (self (pinged σ)) with (self σ). unfold len in *. simpl. lia. }
  destruct (accumulate_data _ chunks [] (pinged σ) rest Hc Hb Hnet Hneed Hfuel)
    as (pre & chunks' & E & Hcat & Hps & Hne).
  - rewrite E. cbn [app] in *. change (self (pinged σ)) with (self σ) in Hps.
    assert (Hpre : pre = concat chunks ∧ concat chunks' = []).
    { apply (f_equal length) in Hcat as Hl. rewrite length_app in Hl.
      unfold len in *.
      assert (length (concat chunks') = 0%nat) as Hz by lia.
      apply length_zero_iff_nil in Hz. rewrite Hz, app_nil_r in Hcat. auto. }
    destruct Hpre as [-> Hnil].
    eexists. split; [|split; [|split; [|split]]].
    + cbn [self with_net]. change (self (pinged σ)) with (self σ).
      rewrite slice_to_short by lia. reflexivity.
    + rewrite slice_to_short by lia. reflexivity.
    + reflexivity.
    + reflexivity.
    + intros F. specialize (Hne F). cbn [with_net env set_net net].
      destruct chunks' as [|c cs]; [reflexivity|].
      inversion Hne; subst. simpl in Hnil. by destruct c.
Qed.

(** C6.  For a nonnegative packet size: when a receive timeout ends the
    stream before [_packet_size] bytes have arrived, [_get_packet] returns
    the undersized buffer and raises nothing; when more bytes arrive, it
    returns their first [_packet_size] bytes; and a returned buffer never
    holds more than [_packet_size] bytes. *)
Theorem get_packet_never_exceeds σ :
  connected σ →
  0 < _buffer_size (self σ) →
  0 <= int_val (_packet_size (self σ)) →
  let size := int_val (_packet_size (self σ)) in
  (* shortfall: a timeout before [size] bytes have arrived *)
  (∀ chunks tail e tail',
      net (env σ) = (Data <$> chunks) ++ tail →
      recv_queue (_buffer_size (self σ)) (timeout (_tcp_socket (self σ))) tail
        = (Raises e, tail') →
      isinstance e SocketTimeout = true →
      len (concat chunks) < size →
      ∃ σ', _get_packet σ = (Returns (concat chunks), σ')
            ∧ concat chunks = slice_to size (concat chunks)
            ∧ len (concat chunks) <= size)
  (* surplus: more than [size] bytes arrive *)
  ∧ (∀ chunks rest,
      net (env σ) = (Data <$> chunks) ++ rest →
      size <= len (concat chunks) →
      ∃ σ', _get_packet σ = (Returns (slice_to size (concat chunks)), σ')
            ∧ len (slice_to size (concat chunks)) = size)
  (* whatever arrives, a returned buffer holds at most [size] bytes *)
  ∧ (∀ data σ', _get_packet σ = (Returns data, σ') → len data <= size).
Proof.
  intros Hc Hb Hps size. split; [|split].
  - intros chunks tail e tail' Hnet Ht He Hlen.
    rewrite (get_packet_unfold σ Hc).
    assert (Hfuel : (chunk_budget chunks < S (recv_budget (net (env σ))))%nat).
    { rewrite Hnet. pose proof (recv_budget_app chunks tail). lia. }
    rewrite (accumulate_timeout _ chunks [] (pinged σ) tail e tail' Hc Hb Hnet Ht He
               Hlen Hfuel).
    cbn [app self with_net]. change (self (pinged σ)) with (self σ). fold size.
    rewrite slice_to_short by lia. eexists. split; [reflexivity|]. split; [done|lia].
  - intros chunks rest Hnet Hlen.
    rewrite (get_packet_unfold σ Hc).
    assert (Hfuel : (chunk_budget chunks < S (recv_budget (net (env σ))))%nat).
    { rewrite Hnet. pose proof (recv_budget_app chunks rest). lia. }
    assert (Hneed : int_val (_packet_size (self (pinged σ)))
                    <= len (@nil byte) + len (concat chunks)).
    { change (self (pinged σ)) with (self σ). unfold len in *. simpl. lia. }
    destruct (accumulate_data _ chunks [] (pinged σ) rest Hc Hb Hnet Hneed Hfuel)
      as (pre & chunks' & E & Hcat & Hge & _).
    + rewrite E. cbn [app self with_net] in *.
      change (self (pinged σ)) with (self σ) in *. fold size in Hge |- *.
      rewrite <- Hcat. rewrite !slice_to_take by lia.
      unfold len in *.
      rewrite take_app_le by lia.
      eexists. split; [reflexivity|]. rewrite length_take. lia.
  - intros data σ' E. rewrite (get_packet_unfold σ Hc) in E.
    destruct (accumulate _ _ _) as [[acc|e|] σ1] eqn:Ea; try discriminate.
    injection E as <- <-.
    apply accumulate_self in Ea. rewrite Ea.
    by apply slice_to_length.
Qed.

(** ** The end-to-end scenario *)

(** Unfolding of the monadic plumbing. *)
Ltac run_monad :=
  unfold mbind, M_bind, bind, mret, M_ret, ret, raise, lift, get_self, get_env,
    update_self, update_env, perform, attribute_error;
  cbn beta iota.

(** C1 (amended).  Whatever the first eight bytes, decoding the 2 x 2
    scenario packet yields frame 7, the grayscale image [[0, 85], [170, 255]]
    and the binary32 depth image [[1, 2], [3 + 2^-22, 4]]. *)
Theorem process_example_packet (σ : state) (b0 b1 b2 b3 b4 b5 b6 b7 : byte) :
  _geometry (self σ) = Some (geometry_of (numpy (env σ)) 2 2) →
  _process_packet ([b0; b1; b2; b3; b4; b5; b6; b7] ++ example_body) σ
    = (Returns example_frame, σ).
Proof.
  intros Hg. unfold _process_packet. run_monad. rewrite Hg.
  destruct (numpy (env σ)); vm_compute; reflexivity.
Qed.

Lemma process_example_packet_witness :
  _process_packet example_packet (example_state Legacy)
    = (Returns example_frame, example_state Legacy).
Proof.
  exact (process_example_packet (example_state Legacy)
           Byte.x02 Byte.x00 Byte.x00 Byte.x00 Byte.x02 Byte.x00 Byte.x00 Byte.x00
           eq_refl).
Defined.

(** The depth decoded for 3000 mm is not 3: as a datum, or under [==]. *)
Lemma process_example_packet_depth_inexact :
  fst (_process_packet example_packet (example_state Legacy))
    ≠ Returns exact_depth_frame
  ∧ match fst (_process_packet example_packet (example_state Legacy)) with
    | Returns f => (λ d, f32_eqb d (f32_of_Z 3)) <$> at2 (depth_img f) 1 0
    | _ => None
    end = Some false.
Proof. split; [vm_compute; discriminate|vm_compute; reflexivity]. Qed.

(** ** The degenerate stretch *)

Lemma normalize_stretch_witness :
  ∃ out : list Z,
    normalize (f32_of_bits <$> ramp_plane) = Returns (Some <$> out) ∧
    length out = length ramp_plane ∧
    Forall (λ u, 0 <= u <= 255) out ∧
    (∀ i j x y u v,
        (f32_of_bits <$> ramp_plane) !! i = Some x →
        (f32_of_bits <$> ramp_plane) !! j = Some y →
        out !! i = Some u → out !! j = Some v →
        f32_leb x y = true → u <= v) ∧
    (∀ i x u, (f32_of_bits <$> ramp_plane) !! i = Some x → out !! i = Some u →
              f32_eqb x (f32_of_Z 0) = true → u = 0) ∧
    (∀ i x u, (f32_of_bits <$> ramp_plane) !! i = Some x → out !! i = Some u →
              f32_eqb x (f32_of_Z 30) = true → u = 255).
Proof.
  apply (normalize_stretch ramp_plane (f32_of_Z 0) (f32_of_Z 30));
    vm_compute; reflexivity.
Defined.

(** When the range [max - min] overflows binary32 (here -3e38 and 3e38, or
    an infinite pixel), the maximum is above the minimum and yet the
    maximum pixel gets no value, let alone 255. *)
Lemma normalize_overflowing_plane :
  (let gray := f32_of_bits <$> overflowing_plane in
   ∃ lo hi,
     array_min gray = Returns lo ∧ array_max gray = Returns hi
     ∧ is_finite lo = true ∧ is_finite hi = true
     ∧ f32_ltb lo hi = true
     ∧ normalize gray = Returns [Some 0; None])
  ∧ (let gray := f32_of_bits <$> unbounded_plane in
     array_min gray = Returns (f32_of_Z 0)
     ∧ array_max gray = Returns (Inf false)
     ∧ f32_ltb (f32_of_Z 0) (Inf false) = true
     ∧ normalize gray = Returns [Some 0; None]).
Proof.
  split.
  - eexists _, _. vm_compute. repeat split; reflexivity.
  - vm_compute. auto.
Qed.

(** C5 (amended).  For a uniform grayscale plane of a finite value the
    divisor [max - min] is zero, every division is the invalid operation
    0/0 and yields NaN, and the normalization returns, raising nothing, a
    plane none of whose pixels has a defined [uint8] value. *)
Theorem normalize_uniform (ws : list Z) (lo hi : fp) :
  let gray := f32_of_bits <$> ws in
  array_min gray = Returns lo →
  array_max gray = Returns hi →
  f32_eqb lo hi = true →
  is_finite lo = true →
  is_zero (f32_sub hi lo) = true
  ∧ Forall (λ x, fp_div_flag (f32_sub x lo) (f32_sub hi lo) = Some InvalidOperation
                 ∧ f32_div (f32_sub x lo) (f32_sub hi lo) = NaN) gray
  ∧ normalize gray = Returns (replicate (length ws) None).
Proof.
  intros gray Hlo Hhi Heq Hfin.
  assert (Hvalid : Forall (λ x, f32_valid x = true) gray).
  { unfold gray. apply Forall_fmap, Forall_forall. intros w _. apply f32_of_bits_valid. }
  pose proof (normalize_unfold gray lo hi Hlo Hhi) as Hn.
  destruct gray as [|x0 rest] eqn:Eg; [discriminate|].
  simpl in Hlo, Hhi. injection Hlo as Hlo. injection Hhi as Hhi.
  destruct lo as [| |sl kl]; try discriminate.
  assert (Nhi : is_nan hi = false) by (by destruct hi).
  destruct (foldl_fmin_spec rest x0 ltac:(by rewrite Hlo)) as (Nn & Ilo & Lo).
  destruct (foldl_fmax_spec rest x0 ltac:(by rewrite Hhi)) as (_ & Ihi & Hi).
  rewrite Hlo in Ilo, Lo. rewrite Hhi in Ihi, Hi.
  rewrite <- Eg in Nn, Ilo, Lo, Ihi, Hi, Hvalid, Hn |- *.
  rewrite Forall_forall in Hvalid, Lo, Hi, Nn.
  set (elo := signed sl kl) in *.
  assert (Elo : f32_ext (Fin sl kl) = Some elo) by reflexivity.
  pose proof (valid_bounds _ _ (Hvalid _ Ilo)) as Vlo.
  assert (Blo : - overflow_threshold 24 128 < elo < overflow_threshold 24 128)
    by (unfold elo; destruct sl; simpl; lia).
  (* every pixel, the maximum included, has the value of the minimum *)
  assert (Hflat : ∀ x, x ∈ gray → f32_leb x hi = true →
            ∃ s k, x = Fin s k ∧ signed s k = elo).
  { intros x Hx Hle. pose proof (Lo _ Hx) as L. pose proof (Nn _ Hx) as N.
    destruct (ext_not_nan 24 128 x N) as [ex Ex].
    destruct (ext_not_nan 24 128 hi Nhi) as [eh Eh].
    rewrite (fp_eqb_ext _ _ _ _ _ _ Elo Eh) in Heq.
    rewrite (fp_leb_ext _ _ _ _ _ _ Elo Ex) in L.
    rewrite (fp_leb_ext _ _ _ _ _ _ Ex Eh) in Hle.
    apply Z.eqb_eq in Heq. apply Z.leb_le in L, Hle.
    destruct x as [|s|s k]; [discriminate| |].
    - exfalso. injection Ex as <-. destruct s; simpl in *; lia.
    - injection Ex as <-. exists s, k. split; [reflexivity|lia]. }
  destruct (Hflat hi Ihi (Hi _ Ihi)) as (sh & kh & -> & Eh).
  assert (Hzero : ∀ s k, signed s k = elo →
            ∃ b, f32_sub (Fin s k) (Fin sl kl) = Fin b 0).
  { intros s k E. unfold fp_sub. fold elo. rewrite E, Z.sub_diag. simpl. eauto. }
  destruct (Hzero sh kh Eh) as [bd Hd]. rewrite Hd in Hn |- *.
  assert (Hpix : ∀ x, x ∈ gray →
            fp_div_flag (f32_sub x (Fin sl kl)) (Fin bd 0) = Some InvalidOperation
            ∧ f32_div (f32_sub x (Fin sl kl)) (Fin bd 0) = NaN).
  { intros x Hx. destruct (Hflat x Hx (Hi _ Hx)) as (s & k & -> & E).
    destruct (Hzero s k E) as [b ->]. split; reflexivity. }
  split; [reflexivity|]. split.
  - apply Forall_forall, Hpix.
  - rewrite Hn. f_equal.
    replace (length ws) with (length gray) by (unfold gray; by rewrite length_fmap).
    clear -Hpix. induction gray as [|x l IH]; [reflexivity|].
    cbn [fmap list_fmap length replicate]. f_equal.
    + unfold normalize_pixel.
      destruct (Hpix x ltac:(by apply elem_of_cons; left)) as [_ ->]. reflexivity.
    + apply IH. intros y Hy. apply Hpix. apply elem_of_cons. by right.
Qed.

Lemma normalize_uniform_witness :
  is_zero (f32_sub (f32_of_Z 5) (f32_of_Z 5)) = true
  ∧ Forall (λ x, fp_div_flag (f32_sub x (f32_of_Z 5))
                   (f32_sub (f32_of_Z 5) (f32_of_Z 5)) = Some InvalidOperation
                 ∧ f32_div (f32_sub x (f32_of_Z 5))
                     (f32_sub (f32_of_Z 5) (f32_of_Z 5)) = NaN)
           (f32_of_bits <$> uniform_plane)
  ∧ normalize (f32_of_bits <$> uniform_plane)
    = Returns (replicate (length uniform_plane) None).
Proof.
  apply (normalize_uniform uniform_plane (f32_of_Z 5) (f32_of_Z 5));
    vm_compute; reflexivity.
Defined.

(** A uniform plane of infinities has [max == min], but its divisor
    [inf - inf] is NaN, not zero, and no division by zero takes place. *)
Lemma normalize_infinite_plane :
  let gray := f32_of_bits <$> infinite_plane in
  array_min gray = Returns (Inf false)
  ∧ array_max gray = Returns (Inf false)
  ∧ f32_eqb (Inf false) (Inf false) = true
  ∧ is_zero (f32_sub (Inf false) (Inf false)) = false
  ∧ Forall (λ x, fp_div_flag (f32_sub x (Inf false))
                   (f32_sub (Inf false) (Inf false)) = None) gray.
Proof. vm_compute. repeat split; repeat constructor. Qed.

(** ** The size handshake *)

Lemma get_packet_timeout σ chunks tail e tail' :
  connected σ → 0 < _buffer_size (self σ) →
  net (env σ) = (Data <$> chunks) ++ tail →
  recv_queue (_buffer_size (self σ)) (timeout (_tcp_socket (self σ))) tail
    = (Raises e, tail') →
  isinstance e SocketTimeout = true →
  len (concat chunks) < int_val (_packet_size (self σ)) →
  _get_packet σ = (Returns (concat chunks), with_net tail' (pinged σ)).
Proof.
  intros Hc Hb Hnet Ht He Hlen.
  rewrite (get_packet_unfold σ Hc).
  assert (Hfuel : (chunk_budget chunks < S (recv_budget (net (env σ))))%nat).
  { rewrite Hnet. pose proof (recv_budget_app chunks tail). lia. }
  rewrite (accumulate_timeout _ chunks [] (pinged σ) tail e tail' Hc Hb Hnet Ht He
             Hlen Hfuel).
  cbn [app self with_net]. change (self (pinged σ)) with (self σ).
  rewrite slice_to_short by lia. reflexivity.
Qed.

Lemma to_signed_small bits z :
  0 < bits → - 2 ^ (bits - 1) <= z < 2 ^ (bits - 1) → to_signed bits z = z.
Proof.
  intros Hb Hz. unfold to_signed.
  assert (P : 2 ^ bits = 2 * 2 ^ (bits - 1)).
  { rewrite <- Z.pow_succ_r by lia. f_equal. lia. }
  destruct (Z_lt_ge_dec z 0) as [N|N].
  - rewrite <- (Z.mod_add z 1 (2 ^ bits)) by lia.
    rewrite Z.mod_small by lia.
    destruct (Z.ltb_spec (z + 1 * 2 ^ bits) (2 ^ (bits - 1))); lia.
  - rewrite Z.mod_small by lia.
    destruct (Z.ltb_spec z (2 ^ (bits - 1))); lia.
Qed.

(** The derived sizes when nothing wraps around. *)
Lemma geometry_of_fits mode h w :
  0 < h → 0 < w → fits mode h w →
  let g := geometry_of mode h w in
  int_val (_header_size g) = 12
  ∧ int_val (_num_pixels g) = h * w
  ∧ int_val (_payload_size g) = h * w * 2 * 4
  ∧ int_val (packet_size_of mode g) = 12 + h * w * 2 * 4.
Proof.
  intros Hh Hw Hfit.
  assert (Hhw : 0 < h * w) by nia.
  unfold geometry_of, packet_size_of.
  cbn [_header_size _num_pixels _payload_size arith promote dtype_bits int_val].
  assert (B : h * w < 2 ^ 31) by (destruct mode; unfold fits in Hfit; lia).
  set (p := h * w) in *.
  rewrite (to_signed_small 32 p) by lia.
  destruct mode; unfold fits in Hfit;
    cbn [mixed_dtype promote dtype_bits arith int_val].
  - rewrite (to_signed_small 64 (p * 2)) by lia.
    rewrite (to_signed_small 64 (p * 2 * 4)) by lia.
    rewrite (to_signed_small 64 (3 * 4 + p * 2 * 4)) by lia. lia.
  - rewrite (to_signed_small 32 (p * 2)) by lia.
    rewrite (to_signed_small 32 (p * 2 * 4)) by lia.
    rewrite (to_signed_small 32 (3 * 4 + p * 2 * 4)) by lia. lia.
Qed.

(** C2 (amended).  When the handshake delivers a header that decodes to
    [(h, w)] with [h, w > 0] and the frame fits the fixed-width integers
    of the installed NumPy, [_setup] stores header size 12, pixel count
    [h * w], payload size [h * w * 2 * 4] and packet size
    [12 + h * w * 2 * 4], the header size plus the payload size. *)
Theorem setup_packet_size σ (chunks : list bytes) tail e tail' (h w : Z) :
  connected σ →
  0 < _buffer_size (self σ) →
  net (env σ) = (Data <$> chunks) ++ tail →
  recv_queue (_buffer_size (self σ)) (Some 1) tail = (Raises e, tail') →
  isinstance e SocketTimeout = true →
  len (concat chunks) < int_val (_packet_size (self σ)) →
  frombuffer_int32 (slice_to 8 (concat chunks)) = Returns [h; w] →
  0 < h → 0 < w → fits (numpy (env σ)) h w →
  ∃ σ' g,
    _setup σ = (Returns (), σ')
    ∧ _geometry (self σ') = Some g
    ∧ int_val (_header_size g) = 12
    ∧ int_val (_num_pixels g) = h * w
    ∧ int_val (_payload_size g) = h * w * 2 * 4
    ∧ int_val (_packet_size (self σ')) = 12 + h * w * 2 * 4
    ∧ int_val (_packet_size (self σ'))
      = int_val (_header_size g) + int_val (_payload_size g).
Proof.
  intros Hc Hb Hnet Ht He Hlen Hdec Hh Hw Hfit.
  set (σ1 := mk_state (set_socket (mk_socket (status (_tcp_socket (self σ))) (Some 1))
                         (self σ)) (env σ)).
  assert (E : _get_packet σ1 = (Returns (concat chunks), with_net tail' (pinged σ1))).
  { apply (get_packet_timeout σ1 chunks tail e tail'); auto. }
  destruct (geometry_of_fits (numpy (env σ)) h w Hh Hw Hfit) as (G1 & G2 & G3 & G4).
  eexists _, (geometry_of (numpy (env σ)) h w).
  split.
  - unfold _setup, sock_settimeout. run_monad. fold σ1. rewrite E.
    unfold frombuffer_int32 in Hdec. cbn beta iota. run_monad.
    unfold frombuffer_int32. rewrite Hdec. cbn beta iota. reflexivity.
  - cbn zeta in G1, G2, G3, G4.
    split; [reflexivity|]. split; [exact G1|]. split; [exact G2|].
    split; [exact G3|]. split; [exact G4|].
    rewrite G1, G3. exact G4.
Qed.

Lemma setup_packet_size_witness :
  ∃ σ' g,
    _setup (before_setup Legacy 2064 1544) = (Returns (), σ')
    ∧ _geometry (self σ') = Some g
    ∧ int_val (_header_size g) = 12
    ∧ int_val (_num_pixels g) = 2064 * 1544
    ∧ int_val (_payload_size g) = 2064 * 1544 * 2 * 4
    ∧ int_val (_packet_size (self σ')) = 12 + 2064 * 1544 * 2 * 4
    ∧ int_val (_packet_size (self σ'))
      = int_val (_header_size g) + int_val (_payload_size g).
Proof.
  apply (setup_packet_size (before_setup Legacy 2064 1544)
           [le32_bytes 2064 ++ le32_bytes 1544] [Silence]
           (mk_exn SocketTimeout None) [] 2064 1544);
    vm_compute; reflexivity.
Defined.

(** A 65536 x 65536 frame: the pixel count wraps around to 0 in [int32]
    and the stored packet size is 12, under either NumPy. *)
Lemma setup_packet_size_wraps :
  (0 < 65536 ∧ 65536 < 2 ^ 31)
  ∧ fst (_setup (before_setup Legacy 65536 65536)) = Returns ()
  ∧ _packet_size (self (snd (_setup (before_setup Legacy 65536 65536))))
    = NpInt int64 12
  ∧ fst (_setup (before_setup Nep50 65536 65536)) = Returns ()
  ∧ _packet_size (self (snd (_setup (before_setup Nep50 65536 65536))))
    = NpInt int32 12
  ∧ 12 ≠ 12 + 65536 * 65536 * 2 * 4.
Proof. vm_compute. repeat split; congruence. Qed.

(** ** Starting and stopping *)

Lemma isinstance_BaseException e : isinstance e BaseException = true.
Proof. destruct e as [c m]. by destruct c. Qed.

Lemma bind_returns {A B} (m : M A) (k : A → M B) σ b σ' :
  bind m k σ = (Returns b, σ') →
  ∃ a σ1, m σ = (Returns a, σ1) ∧ k a σ1 = (Returns b, σ').
Proof.
  unfold bind. destruct (m σ) as [[a|e|] σ1]; try discriminate. eauto.
Qed.

Lemma sock_connect_raises ip port σ e σ1 :
  sock_connect ip port σ = (Raises e, σ1) → σ1 = σ.
Proof.
  unfold sock_connect. run_monad.
  destruct (status (_tcp_socket (self σ))), (connect_fault (env σ));
    intros [= _ <-]; reflexivity.
Qed.

(** C7 (amended).  Whatever exception the connect step raises, [start]
    raises an [OSError] carrying the fixed could-not-connect message, and
    the object and the world are as they were before the call. *)
Theorem start_connect_failure σ e σ1 :
  sock_connect (_tcp_ip (self σ)) (_tcp_port (self σ)) σ = (Raises e, σ1) →
  start σ = (Raises (mk_exn OSError (Some could_not_connect)), σ)
  ∧ isinstance (mk_exn OSError (Some could_not_connect)) OSError = true.
Proof.
  intros Hc. pose proof (sock_connect_raises _ _ _ _ _ Hc) as ->.
  split; [|reflexivity].
  unfold start, try_except. run_monad. rewrite Hc.
  by rewrite isinstance_BaseException.
Qed.

Lemma start_connect_failure_witness :
  start server_down = (Raises (mk_exn OSError (Some could_not_connect)), server_down)
  ∧ isinstance (mk_exn OSError (Some could_not_connect)) OSError = true.
Proof.
  apply (start_connect_failure server_down refused server_down). reflexivity.
Defined.

(** A refused connection: what [start] raises is not a [ConnectionError],
    so [except ConnectionError] would not catch it. *)
Lemma start_raises_no_ConnectionError :
  connect_fault (env server_down) = Some refused
  ∧ isinstance refused ConnectionError = true
  ∧ ∃ e, fst (start server_down) = Raises e
         ∧ exn_cls e = OSError
         ∧ isinstance e ConnectionError = false.
Proof. split; [reflexivity|]. split; [reflexivity|]. by eexists. Qed.

Lemma start_returns σ σ1 :
  start σ = (Returns (), σ1) → _is_start (self σ1) = true.
Proof.
  unfold start, try_except.
  match goal with
  | |- (match ?x with _ => _ end) = _ → _ =>
      destruct x as [[[]|e|] σ'] eqn:E; try discriminate
  end.
  - intros [= <-].
    apply bind_returns in E as (s & σa & _ & E).
    apply bind_returns in E as (? & σb & _ & E).
    apply bind_returns in E as (? & σc & _ & E).
    apply bind_returns in E as (? & σd & _ & E).
    unfold update_self in E. by injection E as <-.
  - rewrite isinstance_BaseException. discriminate.
Qed.

(** C8.  On a sensor that is not started, [stop] raises nothing, logs a
    warning, returns [False] and leaves the object, its socket included,
    as it was; after a successful [start], [stop] closes the socket and
    returns [True], and the sensor is then not started again. *)
Theorem stop_lifecycle σ :
  (_is_start (self σ) = false →
     stop σ = (Returns false,
               mk_state (self σ) (log_effect (EWarning "[!] Sensor is not on.") (env σ))))
  ∧ (∀ σ1, start σ = (Returns (), σ1) →
       ∃ σ2, stop σ1 = (Returns true, σ2)
             ∧ status (_tcp_socket (self σ2)) = SockClosed
             ∧ trace (env σ2) = EClose :: trace (env σ1)
             ∧ _is_start (self σ2) = false).
Proof.
  split.
  - intros H. unfold stop. run_monad. rewrite H. reflexivity.
  - intros σ1 H. apply start_returns in H.
    unfold stop, sock_close. run_monad. rewrite H. cbn [negb].
    eexists. repeat split.
Qed.

Lemma stop_lifecycle_witness :
  stop (before_start 2 2)
    = (Returns false,
       mk_state fresh_sensor
         (log_effect (EWarning "[!] Sensor is not on.") (env (before_start 2 2))))
  ∧ ∃ σ2, stop (snd (start (before_start 2 2))) = (Returns true, σ2)
          ∧ status (_tcp_socket (self σ2)) = SockClosed
          ∧ trace (env σ2) = EClose :: trace (env (snd (start (before_start 2 2))))
          ∧ _is_start (self σ2) = false.
Proof.
  destruct (stop_lifecycle (before_start 2 2)) as [A B]. split.
  - apply A. reflexivity.
  - apply B. vm_compute. reflexivity.
Defined.

(** ** The calibration store *)

(** The binary64 constants stay folded in what follows. *)
Local Opaque f64_of_Z.

Lemma read_file_inv path σ r σ1 :
  read_file path σ = (r, σ1) →
  σ1 = σ ∧ ∀ σ2, files (env σ2) = files (env σ) → read_file path σ2 = (r, σ2).
Proof.
  unfold read_file. run_monad. intros H.
  destruct (files (env σ) !! path) eqn:E; injection H as <- <-;
    (split; [reflexivity|]); intros σ2 ->; by rewrite E.
Qed.

Lemma line_float_inv rt lines i σ r σ1 :
  line_float rt lines i σ = (r, σ1) →
  σ1 = σ ∧ ∀ σ2, line_float rt lines i σ2 = (r, σ2).
Proof.
  unfold line_float. run_monad. intros H.
  destruct (lines !! i) as [l|]; [destruct (py_float rt l)|];
    injection H as <- <-; split; reflexivity.
Qed.

(** Inversion of one [line_float] step of a computation that returns. *)
Ltac step_line H x :=
  let σa := fresh "σa" in
  let Hx := fresh "H" x in
  apply bind_returns in H as (x & σa & Hx & H);
  apply line_float_inv in Hx as [-> Hx].

(** What the factory file gives: the matrix before the resolution
    adjustment, and the same outcome from any state with the same files. *)
Lemma factory_returns rt σ m d σ1 :
  _get_factory_intrinsics_distortion rt σ = (Returns (m, d), σ1) →
  ∃ fx cx cy,
    let base := [[fx; f64_of_Z 0; cx];
                 [f64_of_Z 0; fx; cy];
                 [f64_of_Z 0; f64_of_Z 0; f64_of_Z 1]] in
    let adjust (res : string) :=
      if String.eqb res "low"
      then matrix_set 2 2 (f64_of_Z 1) (matrix_div base (f64_of_Z 2))
      else base in
    σ1 = σ
    ∧ m = Matrix (adjust (resolution (self σ)))
    ∧ ∀ σ2, files (env σ2) = files (env σ) →
        _get_factory_intrinsics_distortion rt σ2
          = (Returns (Matrix (adjust (resolution (self σ2))), d), σ2).
Proof.
  intros H. unfold _get_factory_intrinsics_distortion, mbind, M_bind in H.
  apply bind_returns in H as (s & σa & Hs & H).
  unfold get_self in Hs. injection Hs as <- <-.
  apply bind_returns in H as (content & σa & Hfile & H).
  apply read_file_inv in Hfile as [-> Hfile].
  step_line H fx. step_line H cx. step_line H fy. step_line H cy.
  step_line H k1. step_line H k2. step_line H p1. step_line H p2. step_line H k3.
  pose proof (Hfx σ) as Hsame. rewrite (Hfy σ) in Hsame. injection Hsame as ->.
  unfold mret, M_ret, ret in H. injection H as <- <- <-.
  exists fx, cx, cy. cbn zeta. split; [reflexivity|]. split; [reflexivity|].
  intros σ2 E.
  unfold _get_factory_intrinsics_distortion, mbind, M_bind, bind, get_self.
  rewrite (Hfile σ2 E).
  rewrite (Hfx σ2), (Hcx σ2), (Hfx σ2), (Hcy σ2).
  rewrite (Hk1 σ2), (Hk2 σ2), (Hp1 σ2), (Hp2 σ2), (Hk3 σ2).
  reflexivity.
Qed.

(** C10.  From the same factory file, every entry of the low-resolution
    intrinsic matrix other than [(2, 2)] is the binary64 quotient by 2 of
    the high-resolution entry (in particular entry [(0, 0)], and [==]
    holds whenever that entry is not NaN), entry [(2, 2)] is 1 in both,
    and the distortion is the same. *)
Theorem factory_intrinsics_low_halved rt σlo σhi mh dh σ1 :
  files (env σlo) = files (env σhi) →
  resolution (self σlo) = "low" →
  resolution (self σhi) = "high" →
  _get_factory_intrinsics_distortion rt σhi = (Returns (Matrix mh, dh), σ1) →
  ∃ ml,
    _get_factory_intrinsics_distortion rt σlo = (Returns (Matrix ml, dh), σlo)
    ∧ (∀ i j, (i, j) ≠ (2%nat, 2%nat) →
         entry ml i j = (λ x, f64_div x (f64_of_Z 2)) <$> entry mh i j)
    ∧ (∀ lo00 hi00, entry ml 0 0 = Some lo00 → entry mh 0 0 = Some hi00 →
         lo00 = f64_div hi00 (f64_of_Z 2)
         ∧ (is_nan lo00 = false → f64_eqb lo00 (f64_div hi00 (f64_of_Z 2)) = true))
    ∧ entry ml 2 2 = Some (f64_of_Z 1)
    ∧ entry mh 2 2 = Some (f64_of_Z 1).
Proof.
  intros Henv Hlo Hhi H.
  destruct (factory_returns rt σhi _ _ _ H) as (fx & cx & cy & _ & Hm & Hany).
  cbn zeta in Hm, Hany. rewrite Hhi in Hm. cbn [String.eqb Ascii.eqb] in Hm.
  injection Hm as ->.
  specialize (Hany σlo Henv). rewrite Hlo in Hany.
  change (String.eqb "low" "low") with true in Hany. cbn iota in Hany.
  eexists. split; [exact Hany|].
  split; [|split; [|split]].
  - intros i j Hij.
    destruct i as [|[|[|i]]], j as [|[|[|j]]]; try reflexivity. congruence.
  - intros lo00 hi00 [= <-] [= <-]. split; [reflexivity|].
    intros N. destruct (f64_div fx (f64_of_Z 2)) as [|s|s k]; [discriminate| |];
      unfold fp_eqb, fp_compare; simpl; by rewrite Z.compare_refl.
  - reflexivity.
  - reflexivity.
Qed.

(** The [try] body changes neither the files nor the resolution. *)
Lemma load_calibration_stable rt path σ r σb :
  load_calibration rt path σ = (r, σb) →
  env σb = env σ ∧ resolution (self σb) = resolution (self σ).
Proof.
  unfold load_calibration, read_file, np_array. run_monad. intros H.
  repeat (case_match; simplify_eq); auto.
Qed.

(** With an unusable calibration file the [try] body raises. *)
Lemma load_calibration_unusable rt path σ r σb :
  calibration_unusable rt (env σ) path →
  load_calibration rt path σ = (r, σb) → ∃ e, r = Raises e.
Proof.
  unfold load_calibration, read_file, np_array. run_monad.
  intros [Hmiss|(content & Hfile & [Hparse|(fields & key & Hparse & Hkey & Hnone)])] H.
  - rewrite Hmiss in H. simplify_eq. eauto.
  - rewrite Hfile, Hparse in H. simplify_eq. eauto.
  - rewrite Hfile, Hparse in H. unfold getitem, getindex in H.
    rewrite !elem_of_cons in Hkey.
    destruct Hkey as [->|[->|[->|Hkey]]]; [| | |by apply elem_of_nil in Hkey];
      rewrite ?Hnone in H;
      repeat (case_match; simplify_eq); simplify_eq; eauto.
Qed.

Lemma set_default_params_returns rt σ σb intr dist :
  files (env σb) = files (env σ) →
  resolution (self σb) = resolution (self σ) →
  _get_factory_intrinsics_distortion rt σ = (Returns (intr, dist), σ) →
  ∃ σ', _set_default_params rt σb = (Returns (), σ')
        ∧ env σ' = env σb
        ∧ _intr (self σ') = Some intr
        ∧ _dist (self σ') = Some dist
        ∧ _extr (self σ') = Some (Matrix [replicate 6 (f64_of_Z 0)]).
Proof.
  intros Henv Hres H.
  destruct (factory_returns rt σ _ _ _ H) as (fx & cx & cy & _ & Hm & Hany).
  cbn zeta in Hm, Hany. specialize (Hany σb Henv). rewrite Hres, <- Hm in Hany.
  unfold _set_default_params. run_monad. rewrite Hany.
  eexists. repeat split.
Qed.

Lemma init_params_with_file rt σ path :
  calib_file (self σ) = Some path →
  _init_params rt σ
    = try_except BaseException (load_calibration rt path) (_set_default_params rt) σ.
Proof.
  intros H. unfold _init_params, mbind, M_bind, bind, get_self. cbn beta iota.
  by rewrite H.
Qed.

Lemma init_params_without_file rt σ :
  calib_file (self σ) = None →
  _init_params rt σ
    = _set_default_params rt
        (mk_state (self σ)
           (log_effect (EPrint "No calibration file provided. Using factory defaults.")
              (env σ))).
Proof.
  intros H. unfold _init_params, mbind, M_bind, bind, get_self, perform, update_env.
  cbn beta iota. by rewrite H.
Qed.

(** C9.  When the calibration file does not exist, does not parse, or lacks
    a key, and the packaged factory file is readable, construction raises
    nothing and the intrinsics, distortion and extrinsics are the factory
    values for the configured resolution, the extrinsics being the 1 x 6
    zero array: the very values of a sensor constructed without a
    calibration file. *)
Theorem init_falls_back rt ip port res path w intr dist :
  calibration_unusable rt w path →
  _get_factory_intrinsics_distortion rt
      (mk_state (new_sensor ip port res (Some path)) w)
    = (Returns (intr, dist), mk_state (new_sensor ip port res (Some path)) w) →
  ∃ s s0 w0,
    __init__ rt ip port res (Some path) w = (Returns s, w)
    ∧ intrinsics s = Some intr
    ∧ distortion s = Some dist
    ∧ extrinsics s = Some (Matrix [replicate 6 (f64_of_Z 0)])
    ∧ __init__ rt ip port res None w = (Returns s0, w0)
    ∧ intrinsics s = intrinsics s0
    ∧ distortion s = distortion s0
    ∧ extrinsics s = extrinsics s0.
Proof.
  intros Hbad Hfac.
  set (σ := mk_state (new_sensor ip port res (Some path)) w) in *.
  (* with the file: the body raises, the handler installs the defaults *)
  destruct (load_calibration rt path σ) as [r σb] eqn:Hbody.
  destruct (load_calibration_unusable rt path σ r σb Hbad Hbody) as [e ->].
  destruct (load_calibration_stable rt path σ _ σb Hbody) as [Henv Hres].
  destruct (set_default_params_returns rt σ σb intr dist
              (f_equal files Henv) Hres Hfac)
    as (σ' & Hdef & Henv' & Hi & Hd & Hx).
  (* without a file: the defaults again *)
  set (σn := mk_state (new_sensor ip port res None)
               (log_effect (EPrint "No calibration file provided. Using factory defaults.") w)).
  destruct (set_default_params_returns rt σ σn intr dist eq_refl eq_refl Hfac)
    as (σ0 & Hdef0 & _ & Hi0 & Hd0 & Hx0).
  exists (self σ'), (self σ0), (env σ0).
  assert (E1 : __init__ rt ip port res (Some path) w = (Returns (self σ'), w)).
  { unfold __init__. fold σ.
    rewrite (init_params_with_file rt σ path eq_refl).
    unfold try_except.
    rewrite Hbody, isinstance_BaseException, Hdef.
    by rewrite Henv', Henv. }
  assert (E0 : __init__ rt ip port res None w = (Returns (self σ0), env σ0)).
  { unfold __init__.
    rewrite (init_params_without_file rt
               (mk_state (new_sensor ip port res None) w) eq_refl).
    cbn [self env]. fold σn. by rewrite Hdef0. }
  unfold intrinsics, distortion, extrinsics.
  rewrite Hi, Hd, Hx, Hi0, Hd0, Hx0. repeat split; assumption.
Qed.

Local Transparent f64_of_Z.

Lemma init_falls_back_witness :
  ∃ s s0 w0,
    __init__ example_runtime "192.168.1.3" 1024 "low" (Some "empty.json") calib_world
      = (Returns s, calib_world)
    ∧ intrinsics s = Some (Matrix factory_low)
    ∧ distortion s = Some factory_dist
    ∧ extrinsics s = Some (Matrix [replicate 6 (f64_of_Z 0)])
    ∧ __init__ example_runtime "192.168.1.3" 1024 "low" None calib_world
      = (Returns s0, w0)
    ∧ intrinsics s = intrinsics s0
    ∧ distortion s = distortion s0
    ∧ extrinsics s = extrinsics s0.
Proof.
  apply (init_falls_back example_runtime "192.168.1.3" 1024 "low" "empty.json"
           calib_world (Matrix factory_low) factory_dist).
  - right. exists "{}". split; [vm_compute; reflexivity|].
    right. exists ∅, "intrinsics". split; [reflexivity|].
    split; [apply elem_of_cons; by left|reflexivity].
  - vm_compute. reflexivity.
Defined.

Lemma factory_intrinsics_low_halved_witness :
  ∃ ml,
    _get_factory_intrinsics_distortion example_runtime
        (mk_state (new_sensor "192.168.1.3" 1024 "low" None) calib_world)
      = (Returns (Matrix ml, factory_dist),
         mk_state (new_sensor "192.168.1.3" 1024 "low" None) calib_world)
    ∧ (∀ i j, (i, j) ≠ (2%nat, 2%nat) →
         entry ml i j = (λ x, f64_div x (f64_of_Z 2)) <$> entry factory_high i j)
    ∧ (∀ lo00 hi00, entry ml 0 0 = Some lo00 → entry factory_high 0 0 = Some hi00 →
         lo00 = f64_div hi00 (f64_of_Z 2)
         ∧ (is_nan lo00 = false → f64_eqb lo00 (f64_div hi00 (f64_of_Z 2)) = true))
    ∧ entry ml 2 2 = Some (f64_of_Z 1)
    ∧ entry factory_high 2 2 = Some (f64_of_Z 1).
Proof.
  apply (factory_intrinsics_low_halved example_runtime
           (mk_state (new_sensor "192.168.1.3" 1024 "low" None) calib_world)
           (mk_state (new_sensor "192.168.1.3" 1024 "high" None) calib_world)
           factory_high factory_dist
           (mk_state (new_sensor "192.168.1.3" 1024 "high" None) calib_world));
    vm_compute; reflexivity.
Defined.

(** ** Witnesses of packet acquisition *)

Lemma get_packet_assembles_witness :
  ∃ σ',
    _get_packet trickle = (Returns (concat bytewise), σ')
    ∧ concat bytewise
      = slice_to (int_val (_packet_size (self trickle))) (concat bytewise)
    ∧ self σ' = self trickle
    ∧ trace (env σ') = ESend ping :: trace (env trickle)
    ∧ (Forall (λ c, c ≠ []) bytewise → net (env σ') = []).
Proof.
  apply (get_packet_assembles trickle bytewise []); vm_compute; reflexivity.
Defined.

Lemma get_packet_never_exceeds_witness :
  (∃ σ', _get_packet short_read = (Returns (take 10 example_packet), σ')
         ∧ len (take 10 example_packet) <= 44)
  ∧ (∃ σ', _get_packet long_read = (Returns example_packet, σ')
           ∧ len example_packet = 44).
Proof.
  split.
  - destruct (get_packet_never_exceeds short_read) as (Short & _ & _);
      [reflexivity|reflexivity|vm_compute; discriminate|].
    destruct (Short [take 10 example_packet] [Silence] (mk_exn SocketTimeout None) [])
      as (σ' & E & _ & L); [reflexivity|reflexivity|reflexivity|reflexivity|].
    exists σ'. split; [exact E|exact L].
  - destruct (get_packet_never_exceeds long_read) as (_ & Long & _);
      [reflexivity|reflexivity|vm_compute; discriminate|].
    destruct (Long [example_packet ++ take 4 example_packet] [])
      as (σ' & E & L); [reflexivity|vm_compute; discriminate|].
    exists σ'. split; [exact E|exact L].
Defined.

(** ** Agreement with the Standard Library's IEEE 754 specification *)

(** On the probe patterns, subtraction, multiplication and division give
    the data [SFsub], [SFmul] and [SFdiv] specify for binary32, and the
    comparison agrees with [SFcompare]. *)
Example f32_sub_agrees : agrees_on probe_patterns f32_sub (SFsub 24 128) = true.
Proof. vm_compute. reflexivity. Qed.
Example f32_mul_agrees : agrees_on probe_patterns f32_mul (SFmul 24 128) = true.
Proof. vm_compute. reflexivity. Qed.
Example f32_div_agrees : agrees_on probe_patterns f32_div (SFdiv 24 128) = true.
Proof. vm_compute. reflexivity. Qed.
Example f32_compare_agrees :
  forallb (λ wx, forallb (λ wy,
      bool_decide (fp_compare 24 128 (f32_of_bits wx) (f32_of_bits wy)
                   = SFcompare (to_spec 24 128 (f32_of_bits wx))
                               (to_spec 24 128 (f32_of_bits wy))))
    probe_patterns) probe_patterns = true.
Proof. vm_compute. reflexivity. Qed.

(** * Further properties of the code *)

(** ** Packet acquisition: every way the loop can end *)

(** Fewer bytes than the packet size are queued and then [recv] does not
    return: a timeout breaks the loop, any other exception leaves it, and
    a blocked [recv] blocks the loop. *)
Lemma accumulate_stops fuel : ∀ chunks data σ tail o tail',
  connected σ → 0 < _buffer_size (self σ) →
  net (env σ) = (Data <$> chunks) ++ tail →
  recv_queue (_buffer_size (self σ)) (timeout (_tcp_socket (self σ))) tail
    = (o, tail') →
  (∀ chunk, o ≠ Returns chunk) →
  len data + len (concat chunks) < int_val (_packet_size (self σ)) →
  (chunk_budget chunks < fuel)%nat →
  accumulate fuel data σ
    = (match o with
       | Raises e => if isinstance e SocketTimeout
                     then Returns (data ++ concat chunks) else Raises e
       | _ => Hangs
       end, with_net tail' σ).
Proof.
  induction fuel as [|fuel IH]; intros chunks data σ tail o tail' Hc Hb Hnet Ht Ho Hps Hf;
    [lia|].
  rewrite accumulate_step. unfold len in *.
  destruct (Z.ltb_spec (Z.of_nat (length data)) (int_val (_packet_size (self σ))));
    [|lia].
  rewrite (sock_recv_connected _ _ Hc), Hnet.
  destruct chunks as [|c cs].
  - simpl. rewrite Ht. simpl. destruct o as [chunk|e|]; [by destruct (Ho chunk)| |done].
    destruct (isinstance e SocketTimeout); [by rewrite app_nil_r|done].
  - cbn [fmap list_fmap app recv_queue]. unfold len.
    destruct (Z.leb_spec (Z.of_nat (length c)) (_buffer_size (self σ))) as [Hfit|Hbig];
      cbn [fst snd].
    + rewrite (IH cs (data ++ c) _ tail o tail'); auto.
      * simpl. by rewrite app_assoc.
      * lens.
      * simpl in Hf. lia.
    + set (n := Z.to_nat (_buffer_size (self σ))).
      change (Data (drop n c) :: (Data <$> cs) ++ tail)
        with ((Data <$> drop n c :: cs) ++ tail).
      rewrite (IH (drop n c :: cs) (data ++ take n c) _ tail o tail'); auto.
      * f_equal. cbn [concat].
        by rewrite <- !app_assoc, (app_assoc (take n c)), take_drop.
      * lens.
      * simpl in Hf |- *. rewrite length_drop. lia.
Qed.

(** X1.  Only [socket.timeout] is caught: when the connection fails with
    any other exception before [_packet_size] bytes have arrived,
    [_get_packet] raises that exception and the bytes received so far are
    lost. *)
Theorem get_packet_propagates_error σ (chunks : list bytes) e rest :
  connected σ →
  0 < _buffer_size (self σ) →
  net (env σ) = (Data <$> chunks) ++ Fault e :: rest →
  isinstance e SocketTimeout = false →
  len (concat chunks) < int_val (_packet_size (self σ)) →
  _get_packet σ = (Raises e, with_net rest (pinged σ)).
Proof.
  intros Hc Hb Hnet He Hlen.
  rewrite (get_packet_unfold σ Hc).
  assert (Hfuel : (chunk_budget chunks < S (recv_budget (net (env σ))))%nat).
  { rewrite Hnet. pose proof (recv_budget_app chunks (Fault e :: rest)). lia. }
  rewrite (accumulate_stops _ chunks [] (pinged σ) (Fault e :: rest) (Raises e) rest
             Hc Hb Hnet eq_refl ltac:(done) Hlen Hfuel).
  by rewrite He.
Qed.

Lemma get_packet_propagates_error_witness :
  _get_packet reset_read = (Raises reset, with_net [] (pinged reset_read)).
Proof.
  apply (get_packet_propagates_error reset_read [take 10 example_packet] reset []);
    vm_compute; reflexivity.
Defined.

Lemma recv_queue_silence bufsize (n : nat) :
  recv_queue bufsize None (replicate n Silence) = (Hangs, []).
Proof. induction n as [|n IH]; [reflexivity|exact IH]. Qed.

(** X2.  In blocking mode (no timeout), when the server goes silent before
    [_packet_size] bytes have arrived, [_get_packet] never returns. *)
Theorem get_packet_blocks σ (chunks : list bytes) (n : nat) :
  connected σ →
  0 < _buffer_size (self σ) →
  timeout (_tcp_socket (self σ)) = None →
  net (env σ) = (Data <$> chunks) ++ replicate n Silence →
  len (concat chunks) < int_val (_packet_size (self σ)) →
  fst (_get_packet σ) = Hangs.
Proof.
  intros Hc Hb Ht Hnet Hlen.
  rewrite (get_packet_unfold σ Hc).
  assert (Hfuel : (chunk_budget chunks < S (recv_budget (net (env σ))))%nat).
  { rewrite Hnet. pose proof (recv_budget_app chunks (replicate n Silence)). lia. }
  assert (Hq : recv_queue (_buffer_size (self (pinged σ)))
                 (timeout (_tcp_socket (self (pinged σ)))) (replicate n Silence)
               = (Hangs, [])).
  { change (self (pinged σ)) with (self σ). rewrite Ht. apply recv_queue_silence. }
  by rewrite (accumulate_stops _ chunks [] (pinged σ) _ Hangs [] Hc Hb Hnet Hq
               ltac:(done) Hlen Hfuel).
Qed.

Lemma get_packet_blocks_witness : fst (_get_packet stalled) = Hangs.
Proof.
  apply (get_packet_blocks stalled [take 10 example_packet] 1);
    vm_compute; reflexivity.
Defined.



Lemma get_packet_unconnected σ :
  ¬ connected σ → _get_packet σ = (Raises (mk_exn OSError None), σ).
Proof.
  unfold connected. intros Hn. unfold _get_packet, sock_send. run_monad.
  by destruct (status (_tcp_socket (self σ))).
Qed.



Lemma with_net_self σ : with_net (net (env σ)) σ = σ.
Proof. by destruct σ as [s []]. Qed.

Lemma sock_recv_frame n σ r σ' :
  sock_recv n σ = (r, σ') → σ' = with_net (net (env σ')) σ.
Proof.
  unfold sock_recv.
  destruct (status (_tcp_socket (self σ)));
    [intros [= _ <-]; by rewrite with_net_self| |intros [= _ <-]; by rewrite with_net_self].
  destruct (recv_queue _ _ _). by intros [= _ <-].
Qed.

Lemma accumulate_frame fuel : ∀ data σ r σ',
  accumulate fuel data σ = (r, σ') → σ' = with_net (net (env σ')) σ.
Proof.
  induction fuel as [|fuel IH]; intros data σ r σ'.
  - intros [= _ <-]. by rewrite with_net_self.
  - rewrite accumulate_step.
    destruct (len data <? int_val (_packet_size (self σ)));
      [|intros [= _ <-]; by rewrite with_net_self].
    destruct (sock_recv _ σ) as [[chunk|e|] σ1] eqn:E;
      apply sock_recv_frame in E.
    + intros H. apply IH in H. rewrite H, E. reflexivity.
    + destruct (isinstance e SocketTimeout); intros [= _ <-]; done.
    + by intros [= _ <-].
Qed.

Lemma get_packet_frame σ r σ' :
  connected σ → _get_packet σ = (r, σ') →
  σ' = with_net (net (env σ')) (pinged σ).
Proof.
  intros Hc H. rewrite (get_packet_unfold σ Hc) in H.
  destruct (accumulate _ _ _) as [[acc|e|] σ1] eqn:E;
    apply accumulate_frame in E; injection H as <- <-; exact E.
Qed.

(** X4.  Whatever happens on the network, [_get_packet] on a connected
    socket sends the trigger exactly once and changes nothing but the
    queue of incoming data: the object, the files and earlier effects stay
    as they were.  On a socket that is not connected it raises [OSError]
    and does nothing at all. *)
Theorem get_packet_footprint σ :
  (connected σ →
     snd (_get_packet σ) = with_net (net (env (snd (_get_packet σ)))) (pinged σ))
  ∧ (¬ connected σ → _get_packet σ = (Raises (mk_exn OSError None), σ)).
Proof.
  split.
  - intros Hc. destruct (_get_packet σ) as [r σ'] eqn:E.
    exact (get_packet_frame σ r σ' Hc E).
  - apply get_packet_unconnected.
Qed.

(** ** The life cycle: [start], [stop] and the [with] statement *)

(** A buffer of fewer than eight bytes does not hold two [int32] items. *)
Lemma words_le_length : ∀ (k : nat) (buf : bytes) ws,
  (length buf <= k)%nat → words_le buf = Some ws →
  length buf = (4 * length ws)%nat.
Proof.
  induction k as [|k IH]; intros buf ws Hk.
  - destruct buf; [|simpl in Hk; lia]. by intros [= <-].
  - destruct buf as [|b0 [|b1 [|b2 [|b3 rest]]]]; try done.
    + by intros [= <-].
    + cbn [words_le]. destruct (words_le rest) as [ws'|] eqn:E; [|done].
      intros [= <-]. simpl in Hk |- *.
      rewrite (IH rest ws' ltac:(lia) E). lia.
Qed.

Lemma short_header_rejected (data : bytes) :
  len data < 8 →
  match frombuffer_int32 (slice_to 8 data) with
  | Returns [_; _] => False
  | Hangs => False
  | _ => True
  end.
Proof.
  intros Hlen. rewrite slice_to_short by lia.
  unfold frombuffer_int32, frombuffer.
  destruct (words_le data) as [ws|] eqn:E; [|done].
  apply (words_le_length (length data)) in E; [|lia].
  unfold len in Hlen. destruct ws as [|? [|? [|? ?]]]; simpl in E; try done; lia.
Qed.

Lemma start_unfold σ :
  status (_tcp_socket (self σ)) = SockNew →
  connect_fault (env σ) = None →
  start σ =
    match _setup (connected_state σ) with
    | (Returns _, σ1) =>
        (Returns (),
         mk_state (set_is_start true (self σ1)) (log_effect (ESleep 1) (env σ1)))
    | (Raises e, σ1) => (Raises (mk_exn OSError (Some could_not_connect)), σ1)
    | (Hangs, σ1) => (Hangs, σ1)
    end.
Proof.
  intros Hs Hf. unfold start, try_except, sock_connect. run_monad.
  rewrite Hs, Hf. run_monad. cbn [self env]. fold (connected_state σ).
  destruct (_setup (connected_state σ)) as [[[]|e|] σ1]; try reflexivity.
  by rewrite isinstance_BaseException.
Qed.

Lemma setup_unfold σ :
  _setup σ =
    let σ1 := mk_state (set_socket (mk_socket (status (_tcp_socket (self σ))) (Some 1))
                          (self σ)) (env σ) in
    match _get_packet σ1 with
    | (Returns packet, σ2) =>
        match frombuffer_int32 (slice_to 8 packet) with
        | Returns [h; w] =>
            let g := geometry_of (numpy (env σ2)) h w in
            (Returns (),
             mk_state (set_socket (mk_socket (status (_tcp_socket (self σ2))) None)
                         (set_geometry g (packet_size_of (numpy (env σ2)) g) (self σ2)))
                      (env σ2))
        | Returns _ => (Raises (mk_exn ValueError None), σ2)
        | Raises e => (Raises e, σ2)
        | Hangs => (Hangs, σ2)
        end
    | (Raises e, σ2) => (Raises e, σ2)
    | (Hangs, σ2) => (Hangs, σ2)
    end.
Proof.
  unfold _setup, sock_settimeout. run_monad.
  destruct (_get_packet _) as [[packet|e|] σ2]; try reflexivity.
  destruct (frombuffer_int32 (slice_to 8 packet)) as [[|h [|w [|? ?]]]|e|];
    reflexivity.
Qed.

(** X5.  A successful start: from a fresh socket, when the connection is
    accepted and the handshake delivers (in any fragmentation, followed by
    a timeout) at least a header that decodes to [(h, w)], [start]
    returns; the sensor is then started, the socket connected and back in
    blocking mode, the geometry is the one derived from [(h, w)], and the
    effects are, in order, connect, one trigger, a one-second sleep. *)
Theorem start_succeeds σ (chunks : list bytes) tail e tail' (h w : Z) :
  status (_tcp_socket (self σ)) = SockNew →
  connect_fault (env σ) = None →
  0 < _buffer_size (self σ) →
  net (env σ) = (Data <$> chunks) ++ tail →
  recv_queue (_buffer_size (self σ)) (Some 1) tail = (Raises e, tail') →
  isinstance e SocketTimeout = true →
  len (concat chunks) < int_val (_packet_size (self σ)) →
  frombuffer_int32 (slice_to 8 (concat chunks)) = Returns [h; w] →
  ∃ σ',
    start σ = (Returns (), σ')
    ∧ _is_start (self σ') = true
    ∧ _tcp_socket (self σ') = mk_socket SockConnected None
    ∧ _geometry (self σ') = Some (geometry_of (numpy (env σ)) h w)
    ∧ _packet_size (self σ')
      = packet_size_of (numpy (env σ)) (geometry_of (numpy (env σ)) h w)
    ∧ net (env σ') = tail'
    ∧ trace (env σ')
      = ESleep 1 :: ESend ping
          :: EConnect (_tcp_ip (self σ)) (_tcp_port (self σ)) :: trace (env σ).
Proof.
  intros Hs Hf Hb Hnet Ht He Hlen Hdec.
  rewrite (start_unfold σ Hs Hf), setup_unfold. cbn zeta.
  set (σ1 := mk_state _ (env (connected_state σ))).
  rewrite (get_packet_timeout σ1 chunks tail e tail' eq_refl Hb Hnet Ht He Hlen).
  rewrite Hdec. eexists. split; [reflexivity|]. repeat split.
Qed.

Lemma start_succeeds_witness :
  ∃ σ',
    start (before_start 2 2) = (Returns (), σ')
    ∧ _is_start (self σ') = true
    ∧ _tcp_socket (self σ') = mk_socket SockConnected None
    ∧ _geometry (self σ') = Some (geometry_of Legacy 2 2)
    ∧ _packet_size (self σ') = packet_size_of Legacy (geometry_of Legacy 2 2)
    ∧ net (env σ') = []
    ∧ trace (env σ') = [ESleep 1; ESend ping; EConnect "192.168.1.3" 1024].
Proof.
  apply (start_succeeds (before_start 2 2) [le32_bytes 2 ++ le32_bytes 2] [Silence]
           (mk_exn SocketTimeout None) [] 2 2);
    vm_compute; reflexivity.
Defined.

(** X6.  A handshake of fewer than eight bytes: [start] reports the
    could-not-connect [OSError] although the connection was established,
    and recovers nothing: the socket stays connected with the one-second
    timeout still set, the sensor is not started and its geometry is
    untouched. *)
Theorem start_short_handshake σ (chunks : list bytes) tail e tail' :
  status (_tcp_socket (self σ)) = SockNew →
  connect_fault (env σ) = None →
  0 < _buffer_size (self σ) →
  net (env σ) = (Data <$> chunks) ++ tail →
  recv_queue (_buffer_size (self σ)) (Some 1) tail = (Raises e, tail') →
  isinstance e SocketTimeout = true →
  len (concat chunks) < int_val (_packet_size (self σ)) →
  len (concat chunks) < 8 →
  ∃ σ',
    start σ = (Raises (mk_exn OSError (Some could_not_connect)), σ')
    ∧ _tcp_socket (self σ') = mk_socket SockConnected (Some 1)
    ∧ _is_start (self σ') = _is_start (self σ)
    ∧ _geometry (self σ') = _geometry (self σ)
    ∧ _packet_size (self σ') = _packet_size (self σ).
Proof.
  intros Hs Hf Hb Hnet Ht He Hlen Hshort.
  rewrite (start_unfold σ Hs Hf), setup_unfold. cbn zeta.
  set (σ1 := mk_state _ (env (connected_state σ))).
  rewrite (get_packet_timeout σ1 chunks tail e tail' eq_refl Hb Hnet Ht He Hlen).
  pose proof (short_header_rejected (concat chunks) Hshort) as Hrej.
  destruct (frombuffer_int32 (slice_to 8 (concat chunks))) as [[|h [|w [|? ?]]]|e'|];
    try done; eexists; (split; [reflexivity|]); repeat split.
Qed.

Lemma start_short_handshake_witness :
  ∃ σ',
    start short_handshake = (Raises (mk_exn OSError (Some could_not_connect)), σ')
    ∧ _tcp_socket (self σ') = mk_socket SockConnected (Some 1)
    ∧ _is_start (self σ') = false
    ∧ _geometry (self σ') = None
    ∧ _packet_size (self σ') = PyInt (26 * 1024 ^ 2).
Proof.
  apply (start_short_handshake short_handshake [le32_bytes 2] [Silence]
           (mk_exn SocketTimeout None) []);
    vm_compute; reflexivity.
Defined.

(** [connect] works on a new socket only. *)
Lemma start_not_new σ :
  status (_tcp_socket (self σ)) ≠ SockNew →
  start σ = (Raises (mk_exn OSError (Some could_not_connect)), σ).
Proof.
  intros Hs. unfold start, try_except, sock_connect. run_monad.
  by destruct (status (_tcp_socket (self σ))).
Qed.

(** Every way [start] can end. *)
Lemma start_inv σ r σ' :
  start σ = (r, σ') →
  match r with
  | Returns _ =>
      _is_start (self σ') = true
      ∧ _tcp_socket (self σ') = mk_socket SockConnected None
      ∧ ∃ h w, _geometry (self σ') = Some (geometry_of (numpy (env σ)) h w)
               ∧ _packet_size (self σ')
                 = packet_size_of (numpy (env σ)) (geometry_of (numpy (env σ)) h w)
  | Raises e =>
      e = mk_exn OSError (Some could_not_connect)
      ∧ _is_start (self σ') = _is_start (self σ)
      ∧ _geometry (self σ') = _geometry (self σ)
      ∧ _packet_size (self σ') = _packet_size (self σ)
  | Hangs => True
  end.
Proof.
  destruct (status (_tcp_socket (self σ))) eqn:Hs.
  2, 3: rewrite start_not_new by (by rewrite Hs); by intros [= <- <-].
  destruct (connect_fault (env σ)) as [e0|] eqn:Hf.
  { unfold start, try_except, sock_connect. run_monad. rewrite Hs, Hf.
    run_monad. rewrite isinstance_BaseException. by intros [= <- <-]. }
  rewrite (start_unfold σ Hs Hf), setup_unfold. cbn zeta.
  set (σ1 := mk_state _ (env (connected_state σ))).
  destruct (_get_packet σ1) as [[packet|e|] σ2] eqn:E;
    apply get_packet_frame in E; try reflexivity;
    set (q := net (env σ2)) in E; clearbody q; subst σ2.
  - destruct (frombuffer_int32 (slice_to 8 packet)) as [[|h [|w [|? ?]]]|e'|];
      intros [= <- <-]; try done.
    cbn. repeat split. by exists h, w.
  - by intros [= <- <-].
  - by intros [= <- <-].
Qed.

(** X7.  [start] works once: after a successful [start], and after a
    successful [stop], the one socket made by the constructor is no longer
    new, so [start] raises the could-not-connect [OSError] and changes
    nothing; a running sensor keeps running, a stopped one stays
    stopped. *)
Theorem start_only_once σ σ1 :
  start σ = (Returns (), σ1) ∨ stop σ = (Returns true, σ1) →
  start σ1 = (Raises (mk_exn OSError (Some could_not_connect)), σ1).
Proof.
  intros [H|H]; apply start_not_new.
  - apply start_inv in H as (_ & -> & _). done.
  - revert H. unfold stop, sock_close. run_monad.
    destruct (_is_start (self σ)); cbn [negb]; [|by intros [= ? ?]].
    by intros [= <-].
Qed.

Lemma start_only_once_witness :
  start (snd (start (before_start 2 2)))
  = (Raises (mk_exn OSError (Some could_not_connect)), snd (start (before_start 2 2))).
Proof.
  apply (start_only_once (before_start 2 2)). left. vm_compute. reflexivity.
Defined.



(** X9.  All or nothing.  When [start] returns, the sensor is marked as
    started, its socket is connected and back in blocking mode, and the
    geometry and the packet size are those of some announced frame size
    [(h, w)].  When it raises, it raises the could-not-connect [OSError]
    whatever went wrong, and the started flag, the geometry and the packet
    size are what they were. *)
Theorem start_outcome σ :
  match start σ with
  | (Returns _, σ') =>
      _is_start (self σ') = true
      ∧ _tcp_socket (self σ') = mk_socket SockConnected None
      ∧ ∃ h w, _geometry (self σ') = Some (geometry_of (numpy (env σ)) h w)
               ∧ _packet_size (self σ')
                 = packet_size_of (numpy (env σ)) (geometry_of (numpy (env σ)) h w)
  | (Raises e, σ') =>
      e = mk_exn OSError (Some could_not_connect)
      ∧ _is_start (self σ') = _is_start (self σ)
      ∧ _geometry (self σ') = _geometry (self σ)
      ∧ _packet_size (self σ') = _packet_size (self σ)
  | (Hangs, _) => True
  end.
Proof.
  destruct (start σ) as [r σ'] eqn:E. apply start_inv in E. by destruct r.
Qed.

(** What [__exit__] does, started or not. *)
Lemma exit_inv σ :
  ∃ σ', __exit__ σ = (Returns (), σ')
        ∧ _is_start (self σ') = false
        ∧ (_is_start (self σ) = true →
             status (_tcp_socket (self σ')) = SockClosed
             ∧ trace (env σ') = EClose :: trace (env σ)).
Proof.
  unfold __exit__, stop, sock_close. run_monad.
  destruct (_is_start (self σ)) eqn:Hs; cbn [negb]; run_monad;
    eexists; (split; [reflexivity|]); cbn; by repeat split.
Qed.

(** X10.  The [with] statement hides nothing: [__exit__] returns [None],
    so a block ends as its body ends, with the value it returns or the
    exception it raises.  Whenever the body comes back the sensor is left
    stopped, and its socket closed if it was still started. *)
Theorem exit_never_suppresses {A} (body : M A) σ :
  fst (run_body body σ) = fst (body σ)
  ∧ (fst (body σ) ≠ Hangs →
       _is_start (self (snd (run_body body σ))) = false
       ∧ (_is_start (self (snd (body σ))) = true →
            status (_tcp_socket (self (snd (run_body body σ)))) = SockClosed)).
Proof.
  unfold run_body. destruct (body σ) as [[a|e|] σ1]; cbn [fst snd]; [| |done];
    destruct (exit_inv σ1) as (σ2 & E & Hs & Hc);
    unfold bind; rewrite E; cbn [fst snd ret raise];
    (split; [done|]); intros _; (split; [done|]); intros H; by apply Hc.
Qed.

(** X11.  A sensor used through [with] is never left marked as started:
    if the block comes back at all, by returning or by raising, from
    [start] or from the body, [_is_start] is false afterwards. *)
Theorem with_block_leaves_stopped {A} (body : M A) σ :
  _is_start (self σ) = false →
  fst (with_block body σ) ≠ Hangs →
  _is_start (self (snd (with_block body σ))) = false.
Proof.
  intros Hs. unfold with_block, __enter__, bind.
  destruct (start σ) as [[[]|e|] σ1] eqn:E; cbn [fst snd]; [| |done].
  - unfold run_body. destruct (body σ1) as [[a|e|] σ2]; cbn [fst snd]; [| |done];
      destruct (exit_inv σ2) as (σ3 & E3 & H3 & _);
      unfold bind; rewrite E3; by cbn [fst snd ret raise].
  - apply start_inv in E as (_ & -> & _). done.
Qed.

Lemma with_block_leaves_stopped_witness :
  _is_start (self (before_start 2 2)) = false
  ∧ fst (with_block (_process_packet example_packet) (before_start 2 2)) ≠ Hangs
  ∧ _is_start (self (snd (with_block (_process_packet example_packet)
                            (before_start 2 2)))) = false.
Proof.
  split; [reflexivity|]. split; [by vm_compute|].
  apply (with_block_leaves_stopped (_process_packet example_packet) (before_start 2 2));
    [reflexivity|by vm_compute].
Defined.

(** ** Packet decoding: sizes, contents, degenerate planes *)

(** The binary32 constants stay folded in what follows. *)
Local Opaque f32_of_f64 py_1e_3 py_255.

Lemma slice_length {A} (a b : Z) (l : list A) :
  0 <= a → 0 <= b →
  len (slice a b l) = Z.max 0 (Z.min b (len l) - Z.min a (len l)).
Proof.
  intros Ha Hb. unfold slice, clip_index, len.
  destruct (Z.ltb_spec a 0), (Z.ltb_spec b 0); try lia.
  rewrite length_take, length_drop. lia.
Qed.

Lemma slice_from_length {A} (a : Z) (l : list A) :
  0 <= a → len (slice_from a l) = Z.max 0 (len l - a).
Proof.
  intros Ha. unfold slice_from. rewrite slice_length by (unfold len; lia).
  unfold len. lia.
Qed.

Lemma words_le_total : ∀ (k : nat) (buf : bytes),
  length buf = (4 * k)%nat → ∃ ws, words_le buf = Some ws ∧ length ws = k.
Proof.
  induction k as [|k IH]; intros buf Hk.
  - destruct buf; [|simpl in Hk; lia]. by exists [].
  - destruct buf as [|b0 [|b1 [|b2 [|b3 rest]]]]; simpl in Hk; try lia.
    destruct (IH rest ltac:(lia)) as (ws & E & L).
    exists (le32 b0 b1 b2 b3 :: ws). cbn [words_le]. rewrite E. simpl. by rewrite L.
Qed.

Lemma frombuffer_length {A} (decode : Z → A) buf items :
  frombuffer decode buf = Returns items → len buf = 4 * len items.
Proof.
  unfold frombuffer. destruct (words_le buf) as [ws|] eqn:E; [|done].
  intros [= <-]. apply (words_le_length (length buf)) in E; [|lia].
  unfold len. rewrite length_fmap. lia.
Qed.

Lemma frombuffer_total {A} (decode : Z → A) buf (k : Z) :
  0 <= k → len buf = 4 * k →
  ∃ items, frombuffer decode buf = Returns items ∧ len items = k.
Proof.
  intros Hk Hlen. unfold len in Hlen.
  destruct (words_le_total (Z.to_nat k) buf ltac:(lia)) as (ws & E & L).
  exists (decode <$> ws). unfold frombuffer. rewrite E. split; [done|].
  unfold len. rewrite length_fmap. lia.
Qed.

Lemma reshape_returns {A} (h w : Z) (a : list A) r :
  0 < h → 0 < w → reshape h w a = Returns r →
  h * w = len a ∧ r = mk_ndarray (h, w) a.
Proof.
  intros Hh Hw. unfold reshape.
  destruct (Z.leb_spec 0 h), (Z.leb_spec 0 w); try lia. cbn [andb].
  destruct (Z.eqb_spec (h * w) (len a)); [|done]. by intros [= <-].
Qed.

Lemma reshape_total {A} (h w : Z) (a : list A) :
  0 <= h → 0 <= w → h * w = len a →
  reshape h w a = Returns (mk_ndarray (h, w) a).
Proof.
  intros Hh Hw E. unfold reshape.
  destruct (Z.leb_spec 0 h), (Z.leb_spec 0 w); try lia. cbn [andb].
  by destruct (Z.eqb_spec (h * w) (len a)).
Qed.

(** The byte offsets of the two planes when nothing wraps around. *)
Lemma plane_offsets mode h w :
  0 < h → 0 < w → fits mode h w →
  let g := geometry_of mode h w in
  let plane := arith mode Z.mul (_num_pixels g) (PyInt 4) in
  int_val (_header_size g) = 12
  ∧ int_val (_height g) = h ∧ int_val (_width g) = w
  ∧ int_val (arith mode Z.add (_header_size g) plane) = 12 + 4 * (h * w)
  ∧ int_val (arith mode Z.add plane (_header_size g)) = 12 + 4 * (h * w).
Proof.
  intros Hh Hw Hfit. assert (Hhw : 0 < h * w) by nia.
  unfold geometry_of.
  cbn [_header_size _num_pixels _height _width arith promote dtype_bits int_val].
  assert (B : h * w < 2 ^ 31) by (destruct mode; unfold fits in Hfit; lia).
  set (p := h * w) in *.
  rewrite (to_signed_small 32 p) by lia.
  destruct mode; unfold fits in Hfit;
    cbn [mixed_dtype promote dtype_bits arith int_val].
  - rewrite (to_signed_small 64 (p * 4)) by lia.
    rewrite (to_signed_small 64 (3 * 4 + p * 4)) by lia.
    rewrite (to_signed_small 64 (p * 4 + 3 * 4)) by lia. lia.
  - rewrite (to_signed_small 32 (p * 4)) by lia.
    rewrite (to_signed_small 32 (3 * 4 + p * 4)) by lia.
    rewrite (to_signed_small 32 (p * 4 + 3 * 4)) by lia. lia.
Qed.

Lemma normalize_total gray :
  gray ≠ [] → ∃ out, normalize gray = Returns out ∧ length out = length gray.
Proof.
  intros Hne. destruct gray as [|x l]; [done|].
  unfold normalize. cbn [array_min array_max].
  eexists. split; [reflexivity|]. by rewrite !length_fmap.
Qed.

Lemma lift_returns {A} (o : outcome A) σ a σ' :
  lift o σ = (Returns a, σ') → o = Returns a ∧ σ' = σ.
Proof. unfold lift. by intros [= -> ->]. Qed.

(** The library calls of the decoder raise [ValueError] or nothing. *)
Lemma frombuffer_outcome {A} (decode : Z → A) buf :
  match frombuffer decode buf with
  | Returns _ => True
  | Raises e => e = mk_exn ValueError None
  | Hangs => False
  end.
Proof. unfold frombuffer. by destruct (words_le buf). Qed.

Lemma reshape_outcome {A} (h w : Z) (a : list A) :
  match reshape h w a with
  | Returns _ => True
  | Raises e => e = mk_exn ValueError None
  | Hangs => False
  end.
Proof.
  unfold reshape.
  repeat match goal with |- context [if ?b then _ else _] => destruct b end; done.
Qed.

Lemma normalize_outcome gray :
  match normalize gray with
  | Returns _ => True
  | Raises e => e = mk_exn ValueError None
  | Hangs => False
  end.
Proof. by destruct gray. Qed.

Lemma process_packet_state packet σ : snd (_process_packet packet σ) = σ.
Proof.
  unfold _process_packet. run_monad.
  destruct (_geometry (self σ)) as [g|]; [|done].
  repeat match goal with
         | |- context [match ?o with Returns _ => _ | Raises _ => _ | Hangs => _ end] =>
             destruct o
         | |- context [match ?l with [] => _ | _ :: _ => _ end] => destruct l
         end; done.
Qed.

Lemma process_packet_depends packet σ1 σ2 :
  _geometry (self σ1) = _geometry (self σ2) →
  numpy (env σ1) = numpy (env σ2) →
  fst (_process_packet packet σ1) = fst (_process_packet packet σ2).
Proof.
  intros Hg Hn. unfold _process_packet. run_monad. rewrite Hg, Hn.
  destruct (_geometry (self σ2)) as [g|]; [|done].
  repeat match goal with
         | |- context [match ?o with Returns _ => _ | Raises _ => _ | Hangs => _ end] =>
             destruct o; try done
         | |- context [match ?l with [] => _ | _ :: _ => _ end] => destruct l; try done
         end.
Qed.

(** X12.  [_process_packet] reads the object and changes nothing: whatever
    the packet and whatever the outcome, the object and the world are
    afterwards as before.  What it returns or raises depends, besides the
    packet, on the geometry and on the installed NumPy only. *)
Theorem process_packet_reads_only packet σ σ2 :
  snd (_process_packet packet σ) = σ
  ∧ (_geometry (self σ) = _geometry (self σ2) →
     numpy (env σ) = numpy (env σ2) →
     fst (_process_packet packet σ) = fst (_process_packet packet σ2)).
Proof.
  split; [apply process_packet_state|apply process_packet_depends].
Qed.

(** What a returned frame was decoded from. *)
Lemma process_packet_inv packet σ (h w : Z) f σ' :
  _geometry (self σ) = Some (geometry_of (numpy (env σ)) h w) →
  0 < h → 0 < w → fits (numpy (env σ)) h w →
  _process_packet packet σ = (Returns f, σ') →
  ∃ gray depth gray8,
    frombuffer_float32 (slice 12 (12 + 4 * (h * w)) packet) = Returns gray
    ∧ frombuffer_float32 (slice_from (12 + 4 * (h * w)) packet) = Returns depth
    ∧ h * w = len gray ∧ h * w = len depth
    ∧ normalize gray = Returns gray8
    ∧ gray_img f = mk_ndarray (h, w) gray8
    ∧ depth_img f
      = mk_ndarray (h, w) ((λ x, f32_mul x (f32_of_f64 py_1e_3)) <$> depth).
Proof.
  intros Hg Hh Hw Hfit H.
  destruct (plane_offsets _ h w Hh Hw Hfit) as (O1 & O2 & O3 & O4 & O5).
  cbn zeta in O1, O2, O3, O4, O5.
  unfold _process_packet, mbind, M_bind in H.
  apply bind_returns in H as (s & σa & Hs & H).
  unfold get_self in Hs. injection Hs as <- <-.
  apply bind_returns in H as (e & σa & He & H).
  unfold get_env in He. injection He as <- <-.
  rewrite Hg in H.
  apply bind_returns in H as (ids & σa & Hids & H).
  apply lift_returns in Hids as [Hids ->].
  destruct ids as [|id ids]; [done|].
  apply bind_returns in H as (gray & σa & Hgray & H).
  apply lift_returns in Hgray as [Hgray ->].
  apply bind_returns in H as (depth & σa & Hdepth & H).
  apply lift_returns in Hdepth as [Hdepth ->].
  apply bind_returns in H as (gray2 & σa & Hgray2 & H).
  apply lift_returns in Hgray2 as [Hgray2 ->].
  apply bind_returns in H as (depth2 & σa & Hdepth2 & H).
  apply lift_returns in Hdepth2 as [Hdepth2 ->].
  apply bind_returns in H as (gray8 & σa & Hgray8 & H).
  apply lift_returns in Hgray8 as [Hgray8 ->].
  unfold mret, M_ret, ret in H. injection H as <- <-.
  rewrite O2, O3 in Hgray2, Hdepth2.
  apply reshape_returns in Hgray2 as [Ng ->]; [|done|done].
  apply reshape_returns in Hdepth2 as [Nd ->]; [|done|done].
  rewrite O1, O4 in Hgray. rewrite O5 in Hdepth.
  exists gray, depth, gray8. by repeat split.
Qed.

Lemma process_packet_size packet σ (h w : Z) f σ' :
  _geometry (self σ) = Some (geometry_of (numpy (env σ)) h w) →
  0 < h → 0 < w → fits (numpy (env σ)) h w →
  _process_packet packet σ = (Returns f, σ') →
  len packet = 12 + 8 * (h * w).
Proof.
  intros Hg Hh Hw Hfit H.
  destruct (process_packet_inv packet σ h w f σ' Hg Hh Hw Hfit H)
    as (gray & depth & gray8 & Hgray & Hdepth & Ng & Nd & _).
  unfold frombuffer_float32 in Hgray, Hdepth.
  apply frombuffer_length in Hgray, Hdepth.
  rewrite slice_length in Hgray by nia.
  rewrite slice_from_length in Hdepth by nia.
  unfold len in *. lia.
Qed.

(** X13.  A frame of [h x w] pixels is decoded from a packet of exactly
    [12 + 8 * h * w] bytes and from no other: if [_process_packet] returns
    a frame, the packet had that length, and both images have shape
    [(h, w)] and [h * w] pixels. *)
Theorem process_packet_needs_exact_size packet σ (h w : Z) f σ' :
  _geometry (self σ) = Some (geometry_of (numpy (env σ)) h w) →
  0 < h → 0 < w → fits (numpy (env σ)) h w →
  _process_packet packet σ = (Returns f, σ') →
  len packet = 12 + 8 * (h * w)
  ∧ shape (gray_img f) = (h, w) ∧ shape (depth_img f) = (h, w)
  ∧ len (flat (gray_img f)) = h * w ∧ len (flat (depth_img f)) = h * w.
Proof.
  intros Hg Hh Hw Hfit H.
  split; [by apply (process_packet_size packet σ h w f σ')|].
  destruct (process_packet_inv packet σ h w f σ' Hg Hh Hw Hfit H)
    as (gray & depth & gray8 & _ & _ & Ng & Nd & Hn & -> & ->).
  assert (Hout : length gray8 = length gray).
  { destruct (normalize_total gray) as (out & E & L).
    - intros ->. unfold len in Ng. simpl in Ng. nia.
    - rewrite E in Hn. by injection Hn as <-. }
  cbn [shape flat]. unfold len in *. rewrite length_fmap, Hout.
  repeat split; lia.
Qed.

Lemma process_packet_needs_exact_size_witness :
  len example_packet = 12 + 8 * (2 * 2)
  ∧ shape (gray_img example_frame) = (2, 2)
  ∧ shape (depth_img example_frame) = (2, 2)
  ∧ len (flat (gray_img example_frame)) = 2 * 2
  ∧ len (flat (depth_img example_frame)) = 2 * 2.
Proof.
  apply (process_packet_needs_exact_size example_packet (example_state Legacy) 2 2
           example_frame (example_state Legacy));
    vm_compute; reflexivity.
Defined.

(** X14.  Conversely a packet of exactly [12 + 8 * h * w] bytes always
    decodes: [_process_packet] raises nothing and returns a frame whose
    identifier is the [int32] at bytes 8 to 12, whose depth image is the
    second plane multiplied item by item by [float32(1e-3)], and whose
    grayscale image is the normalization of the first plane. *)
Theorem process_packet_decodes packet σ (h w : Z) :
  _geometry (self σ) = Some (geometry_of (numpy (env σ)) h w) →
  0 < h → 0 < w → fits (numpy (env σ)) h w →
  len packet = 12 + 8 * (h * w) →
  ∃ f gray depth,
    _process_packet packet σ = (Returns f, σ)
    ∧ frombuffer_int32 (slice 8 12 packet) = Returns [frame_id f]
    ∧ frombuffer_float32 (slice 12 (12 + 4 * (h * w)) packet) = Returns gray
    ∧ frombuffer_float32 (slice_from (12 + 4 * (h * w)) packet) = Returns depth
    ∧ normalize gray = Returns (flat (gray_img f))
    ∧ flat (depth_img f) = (λ x, f32_mul x (f32_of_f64 py_1e_3)) <$> depth
    ∧ shape (gray_img f) = (h, w) ∧ shape (depth_img f) = (h, w).
Proof.
  intros Hg Hh Hw Hfit Hlen.
  assert (Hhw : 0 < h * w) by nia.
  destruct (plane_offsets _ h w Hh Hw Hfit) as (O1 & O2 & O3 & O4 & O5).
  cbn zeta in O1, O2, O3, O4, O5.
  destruct (frombuffer_total (to_signed 32) (slice 8 12 packet) 1) as (ids & Hids & Lids).
  { lia. } { rewrite slice_length by lia. lia. }
  destruct ids as [|id [|? ?]]; unfold len in Lids; simpl in Lids; try lia.
  destruct (frombuffer_total f32_of_bits (slice 12 (12 + 4 * (h * w)) packet) (h * w))
    as (gray & Hgray & Lgray).
  { lia. } { rewrite slice_length by lia. lia. }
  destruct (frombuffer_total f32_of_bits (slice_from (12 + 4 * (h * w)) packet) (h * w))
    as (depth & Hdepth & Ldepth).
  { lia. } { rewrite slice_from_length by lia. lia. }
  destruct (normalize_total gray) as (gray8 & Hn & _).
  { intros ->. unfold len in Lgray. simpl in Lgray. lia. }
  exists (mk_frame id (mk_ndarray (h, w) gray8)
            (map_array (λ x, f32_mul x (f32_of_f64 py_1e_3)) (mk_ndarray (h, w) depth))),
    gray, depth.
  split; [|by repeat split].
  unfold _process_packet. run_monad. rewrite Hg. cbn beta iota.
  rewrite O1, O2, O3, O4, O5.
  unfold frombuffer_int32, frombuffer_float32. rewrite Hids. cbn beta iota.
  rewrite Hgray. cbn beta iota. rewrite Hdepth. cbn beta iota.
  rewrite (reshape_total h w gray) by lia. cbn beta iota.
  rewrite (reshape_total h w depth) by lia. cbn beta iota.
  cbn [flat]. rewrite Hn. reflexivity.
Qed.

Lemma process_packet_decodes_witness :
  ∃ f gray depth,
    _process_packet example_packet (example_state Legacy)
      = (Returns f, example_state Legacy)
    ∧ frombuffer_int32 (slice 8 12 example_packet) = Returns [frame_id f]
    ∧ frombuffer_float32 (slice 12 (12 + 4 * (2 * 2)) example_packet) = Returns gray
    ∧ frombuffer_float32 (slice_from (12 + 4 * (2 * 2)) example_packet) = Returns depth
    ∧ normalize gray = Returns (flat (gray_img f))
    ∧ flat (depth_img f) = (λ x, f32_mul x (f32_of_f64 py_1e_3)) <$> depth
    ∧ shape (gray_img f) = (2, 2) ∧ shape (depth_img f) = (2, 2).
Proof.
  apply (process_packet_decodes example_packet (example_state Legacy) 2 2);
    vm_compute; reflexivity.
Defined.

(** Once the geometry is set, decoding ends, and with an exception of the
    decoding if with any. *)
Lemma process_packet_outcome packet σ g :
  _geometry (self σ) = Some g →
  match fst (_process_packet packet σ) with
  | Returns _ => True
  | Raises e => e = mk_exn ValueError None ∨ e = mk_exn IndexError None
  | Hangs => False
  end.
Proof.
  intros Hg. unfold _process_packet. run_monad. rewrite Hg. cbn beta iota.
  unfold frombuffer_int32, frombuffer_float32.
  repeat match goal with
  | |- context [frombuffer ?d ?b] =>
      pose proof (frombuffer_outcome d b); destruct (frombuffer d b)
  | |- context [reshape ?a ?b ?c] =>
      pose proof (reshape_outcome a b c); destruct (reshape a b c)
  | |- context [normalize ?g] =>
      pose proof (normalize_outcome g); destruct (normalize g)
  | |- context [match ?l with [] => _ | _ :: _ => _ end] => destruct l
  end; cbn [fst]; try done; auto.
Qed.

(** X15.  A packet of any other length is refused, and with the
    exceptions of the decoding only: [_process_packet] raises [ValueError]
    (a buffer that is no whole number of items, or a plane of the wrong
    size) or, when the packet has no bytes from offset 8 on, [IndexError];
    it never returns a partial frame and never blocks. *)
Theorem process_packet_rejects packet σ (h w : Z) :
  _geometry (self σ) = Some (geometry_of (numpy (env σ)) h w) →
  0 < h → 0 < w → fits (numpy (env σ)) h w →
  len packet ≠ 12 + 8 * (h * w) →
  ∃ e, _process_packet packet σ = (Raises e, σ)
       ∧ (e = mk_exn ValueError None ∨ e = mk_exn IndexError None)
       ∧ (e = mk_exn IndexError None → len packet <= 8).
Proof.
  intros Hg Hh Hw Hfit Hlen.
  pose proof (process_packet_state packet σ) as Hst.
  pose proof (process_packet_outcome packet σ _ Hg) as Hout.
  destruct (_process_packet packet σ) as [[f|e|] σ'] eqn:E;
    cbn [fst snd] in Hst, Hout; subst σ'; [|clear Hlen|done].
  { exfalso. apply Hlen. by apply (process_packet_size packet σ h w f σ). }
  exists e. split; [done|]. split; [done|]. intros ->.
  revert E. unfold _process_packet. run_monad. rewrite Hg. cbn beta iota.
  change (int_val (_header_size (geometry_of (numpy (env σ)) h w))) with 12.
  unfold frombuffer_int32, frombuffer_float32.
  destruct (frombuffer (to_signed 32) (slice 8 12 packet)) as [ids|e0|] eqn:Eid.
  - destruct ids as [|id ids].
    + intros _. apply frombuffer_length in Eid.
      rewrite slice_length in Eid by lia. unfold len in *. simpl in Eid. lia.
    + repeat match goal with
      | |- context [frombuffer ?d ?b] =>
          pose proof (frombuffer_outcome d b); destruct (frombuffer d b)
      | |- context [reshape ?a ?b ?c] =>
          pose proof (reshape_outcome a b c); destruct (reshape a b c)
      | |- context [normalize ?g] =>
          pose proof (normalize_outcome g); destruct (normalize g)
      end; try done; by subst.
  - pose proof (frombuffer_outcome (to_signed 32) (slice 8 12 packet)) as Hid.
    rewrite Eid in Hid. by subst.
  - done.
Qed.

Lemma process_packet_rejects_witness :
  ∃ e, _process_packet (take 10 example_packet) (example_state Legacy)
       = (Raises e, example_state Legacy)
       ∧ (e = mk_exn ValueError None ∨ e = mk_exn IndexError None)
       ∧ (e = mk_exn IndexError None → len (take 10 example_packet) <= 8).
Proof.
  apply (process_packet_rejects (take 10 example_packet) (example_state Legacy) 2 2);
    vm_compute; try reflexivity; discriminate.
Defined.

(** A slice that starts at or after [n] sees nothing of the first [n]
    items. *)
Lemma slice_skips {A} (n : nat) (a b : Z) (p1 p2 : list A) :
  Z.of_nat n <= a → 0 <= b →
  length p1 = length p2 → drop n p1 = drop n p2 →
  slice a b p1 = slice a b p2.
Proof.
  intros Ha Hb Hlen Hdrop. unfold slice, clip_index, len. rewrite Hlen.
  destruct (Z.ltb_spec a 0), (Z.ltb_spec b 0); try lia.
  f_equal.
  set (a' := Z.to_nat (Z.min a (Z.of_nat (length p2)))).
  destruct (decide (n <= a')%nat) as [Hn|Hn].
  - replace a' with (n + (a' - n))%nat by lia.
    by rewrite <- !drop_drop, Hdrop.
  - rewrite !drop_ge; [done|lia|lia].
Qed.

(** X16.  The size announced in the header of a frame packet is not
    looked at: two packets of the same length that differ in their first
    eight bytes only decode alike, with the geometry learned at the
    handshake.  A server that changes its frame size is not noticed. *)
Theorem process_packet_ignores_announced_size (p1 p2 : bytes) σ (h w : Z) :
  _geometry (self σ) = Some (geometry_of (numpy (env σ)) h w) →
  0 < h → 0 < w → fits (numpy (env σ)) h w →
  len p1 = len p2 → drop 8 p1 = drop 8 p2 →
  _process_packet p1 σ = _process_packet p2 σ.
Proof.
  intros Hg Hh Hw Hfit Hlen Hdrop.
  assert (Hhw : 0 < h * w) by nia.
  destruct (plane_offsets _ h w Hh Hw Hfit) as (O1 & O2 & O3 & O4 & O5).
  cbn zeta in O1, O2, O3, O4, O5.
  assert (Hl : length p1 = length p2) by (unfold len in Hlen; lia).
  unfold _process_packet. run_monad. rewrite Hg. cbn beta iota.
  rewrite O1, O4, O5. unfold slice_from. rewrite Hlen.
  rewrite (slice_skips 8 8 12 p1 p2), (slice_skips 8 12 (12 + 4 * (h * w)) p1 p2),
    (slice_skips 8 (12 + 4 * (h * w)) (len p2) p1 p2);
    try done; unfold len; lia.
Qed.

Lemma process_packet_ignores_announced_size_witness :
  _process_packet example_packet (example_state Legacy)
  = _process_packet relabelled_packet (example_state Legacy).
Proof.
  apply (process_packet_ignores_announced_size example_packet relabelled_packet
           (example_state Legacy) 2 2);
    vm_compute; reflexivity.
Defined.

Lemma foldl_fmin_nan l : foldl fmin NaN l = NaN.
Proof. induction l as [|y l IH]; [done|exact IH]. Qed.

Lemma fmin_nan_r a : fmin a NaN = NaN.
Proof. unfold fmin. destruct a; try done; by destruct (f32_ltb _ _) eqn:E. Qed.

Lemma foldl_fmin_poisoned l a :
  existsb is_nan (a :: l) = true → foldl fmin a l = NaN.
Proof.
  revert a. induction l as [|y l IH]; intros a H.
  - cbn in H. rewrite orb_false_r in H. by destruct a.
  - cbn [foldl]. cbn [existsb] in H.
    destruct a; try apply foldl_fmin_nan; cbn [is_nan orb] in H;
      (destruct y; [rewrite fmin_nan_r; apply foldl_fmin_nan|..]);
      apply IH; cbn [existsb is_nan orb] in H |- *;
      unfold fmin; cbn [is_nan]; by destruct (f32_ltb _ _).
Qed.

(** X17.  One NaN pixel spoils the whole grayscale image: the minimum of
    the plane is then NaN, and the normalization returns a plane in which
    no pixel has a defined [uint8] value. *)
Theorem normalize_nan_poisons (gray : list fp) :
  existsb is_nan gray = true →
  array_min gray = Returns NaN
  ∧ normalize gray = Returns (replicate (length gray) None).
Proof.
  intros H. destruct gray as [|x l]; [done|].
  assert (Hmin : array_min (x :: l) = Returns NaN).
  { cbn [array_min]. by rewrite (foldl_fmin_poisoned l x H). }
  split; [exact Hmin|].
  unfold normalize. rewrite Hmin. cbn [array_max].
  f_equal. rewrite <- !list_fmap_compose.
  generalize (x :: l). intros g. induction g as [|y g IH]; [done|].
  cbn [fmap list_fmap length replicate]. f_equal; [|exact IH].
  cbn [compose]. by destruct y.
Qed.

Lemma normalize_nan_poisons_witness :
  array_min (f32_of_bits <$> spoiled_plane) = Returns NaN
  ∧ normalize (f32_of_bits <$> spoiled_plane) = Returns [None; None; None].
Proof.
  exact (normalize_nan_poisons (f32_of_bits <$> spoiled_plane) eq_refl).
Defined.

(** X18.  A frame geometry without pixels ([h = 0] or [w = 0]) cannot be
    decoded: on the 12-byte packet of such a frame [_process_packet]
    raises [ValueError], the minimum of an empty plane. *)
Theorem process_packet_empty_frame packet σ (h w : Z) :
  _geometry (self σ) = Some (geometry_of (numpy (env σ)) h w) →
  0 <= h → 0 <= w → h * w = 0 →
  len packet = 12 →
  _process_packet packet σ = (Raises (mk_exn ValueError None), σ).
Proof.
  intros Hg Hh Hw Hz Hlen.
  destruct (frombuffer_total (to_signed 32) (slice 8 12 packet) 1) as (ids & Hids & Lids).
  { lia. } { rewrite slice_length by lia. lia. }
  destruct ids as [|id [|? ?]]; unfold len in Lids; simpl in Lids; try lia.
  assert (Hs1 : slice 12 12 packet = []).
  { apply length_zero_iff_nil. pose proof (slice_length 12 12 packet) as L.
    unfold len in *. lia. }
  assert (Hs2 : slice_from 12 packet = []).
  { apply length_zero_iff_nil. pose proof (slice_from_length 12 packet) as L.
    unfold len in *. lia. }
  unfold _process_packet. run_monad. rewrite Hg. cbn beta iota.
  unfold geometry_of.
  cbn [_header_size _num_pixels _height _width arith promote dtype_bits int_val].
  rewrite Hz.
  change (to_signed 32 0) with 0.
  destruct (numpy (env σ));
    cbn [mixed_dtype promote dtype_bits arith int_val];
    change (to_signed _ (0 * 4)) with 0;
    change (to_signed _ (3 * 4 + 0)) with 12;
    change (to_signed _ (0 + 3 * 4)) with 12;
    change (3 * 4) with 12;
    unfold frombuffer_int32, frombuffer_float32; rewrite Hids; cbn beta iota;
    rewrite Hs1, Hs2; cbn [frombuffer words_le fmap list_fmap option_fmap option_map];
    cbn beta iota;
    rewrite (reshape_total h w (@nil fp)) by (unfold len; simpl; lia);
    reflexivity.
Qed.

Lemma process_packet_empty_frame_witness :
  _process_packet (take 12 example_packet) empty_frame_state
  = (Raises (mk_exn ValueError None), empty_frame_state).
Proof.
  apply (process_packet_empty_frame (take 12 example_packet) empty_frame_state 0 5);
    vm_compute; try reflexivity; discriminate.
Defined.

(** *** The conversion of depths to metres *)

Lemma f32_1e_3 : ∃ kc, 0 < kc ∧ f32_of_f64 py_1e_3 = Fin false kc.
Proof. eexists. split; cycle 1. { vm_compute. reflexivity. } reflexivity. Qed.

(** Where a scaled depth sits on the extended number line. *)
Lemma scaled_ext kc x :
  0 < kc → f32_valid x = true → is_nan x = false →
  ∃ s m, f32_ext x = Some (signed s m)
         ∧ 0 <= m <= T
         ∧ f32_ext (f32_mul x (Fin false kc))
           = Some (signed s (if m <? T then Z.min (round_mag 24 (m * kc) U) T else T)).
Proof.
  intros Hk Hv Hn. destruct x as [|s|s k]; [done| |].
  - exists s, T. split; [done|]. split; [vm_compute; split; discriminate|].
    cbn [fp_mul]. destruct (Z.eqb_spec kc 0); [lia|]. rewrite xorb_false_r.
    by rewrite Z.ltb_irrefl.
  - apply valid_bounds in Hv. exists s, k. split; [done|]. split; [lia|].
    destruct (Z.ltb_spec k T); [|lia].
    unfold fp_mul. destruct (Z.eqb_spec kc 0); [lia|]. rewrite xorb_false_r.
    destruct (Z.eqb_spec k 0) as [->|Hk0]; cbn [orb].
    + rewrite Z.mul_0_l, round_mag_0 by (try exact P24; done).
      cbn [ext]. by destruct s.
    + unfold round.
      destruct (Z.ltb_spec (round_mag 24 (k * kc) U) T); cbn [ext];
        do 2 f_equal; lia.
Qed.

(** X19.  The conversion to metres keeps the order of the depths: of two
    items of the depth plane, the one that is not larger in millimetres is
    not larger in metres (rounding and overflow included; a NaN compares
    with nothing). *)
Theorem depth_scaling_monotone x y :
  f32_valid x = true → f32_valid y = true →
  f32_leb x y = true →
  f32_leb (f32_mul x (f32_of_f64 py_1e_3)) (f32_mul y (f32_of_f64 py_1e_3)) = true.
Proof.
  intros Vx Vy Hle. destruct f32_1e_3 as (kc & Hk & ->).
  assert (Nx : is_nan x = false) by (by destruct x).
  assert (Ny : is_nan y = false) by (by destruct x, y).
  destruct (scaled_ext kc x Hk Vx Nx) as (sx & mx & Ex & Bx & Sx).
  destruct (scaled_ext kc y Hk Vy Ny) as (sy & my & Ey & By & Sy).
  rewrite (fp_leb_ext 24 128 _ _ _ _ Ex Ey) in Hle.
  rewrite (fp_leb_ext 24 128 _ _ _ _ Sx Sy).
  apply Z.leb_le in Hle. apply Z.leb_le.
  assert (HT : 0 < T) by done. assert (HU : 0 < U) by done.
  assert (Mono : ∀ a b, 0 <= a → a <= b →
            (if a <? T then Z.min (round_mag 24 (a * kc) U) T else T)
            <= (if b <? T then Z.min (round_mag 24 (b * kc) U) T else T)).
  { intros a b Ha Hab.
    destruct (Z.ltb_spec a T), (Z.ltb_spec b T); try lia.
    assert (0 <= a * kc) by (apply Z.mul_nonneg_nonneg; lia).
    assert (a * kc <= b * kc) by (apply Z.mul_le_mono_nonneg_r; lia).
    assert (a * kc * U <= b * kc * U) by (apply Z.mul_le_mono_nonneg_r; lia).
    pose proof (round_mag_mono 24 P24 (a * kc) U (b * kc) U
                  ltac:(lia) HU ltac:(lia) HU ltac:(lia)). lia. }
  assert (Pos : ∀ a, 0 <= a →
            0 <= (if a <? T then Z.min (round_mag 24 (a * kc) U) T else T)).
  { intros a Ha. destruct (Z.ltb_spec a T); [|lia].
    assert (0 <= a * kc) by (apply Z.mul_nonneg_nonneg; lia).
    pose proof (round_mag_nonneg 24 P24 (a * kc) U ltac:(lia) HU). lia. }
  assert (Zero : (if 0 <? T then Z.min (round_mag 24 (0 * kc) U) T else T) = 0).
  { destruct (Z.ltb_spec 0 T); [|lia].
    rewrite Z.mul_0_l, round_mag_0 by (try exact P24; done). lia. }
  destruct sx, sy; cbn [signed] in Hle |- *.
  - pose proof (Mono my mx ltac:(lia) ltac:(lia)). lia.
  - pose proof (Pos mx ltac:(lia)). pose proof (Pos my ltac:(lia)). lia.
  - assert (mx = 0) as -> by lia. assert (my = 0) as -> by lia. rewrite Zero. lia.
  - pose proof (Mono mx my ltac:(lia) ltac:(lia)). lia.
Qed.

Lemma depth_scaling_monotone_witness :
  f32_leb (f32_mul (f32_of_Z 2000) (f32_of_f64 py_1e_3))
          (f32_mul (f32_of_Z 3000) (f32_of_f64 py_1e_3)) = true.
Proof.
  apply (depth_scaling_monotone (f32_of_Z 2000) (f32_of_Z 3000)); reflexivity.
Defined.

(** ** [get_frame]: acquisition and decoding together *)

(** X20.  [get_frame] composes acquisition and decoding: when the server
    delivers exactly [_packet_size] bytes, however fragmented, [get_frame]
    gives what [_process_packet] gives on their concatenation. *)
Theorem get_frame_decodes_concatenation σ (chunks : list bytes) rest :
  connected σ →
  0 < _buffer_size (self σ) →
  net (env σ) = (Data <$> chunks) ++ rest →
  len (concat chunks) = int_val (_packet_size (self σ)) →
  fst (get_frame σ) = fst (_process_packet (concat chunks) σ).
Proof.
  intros Hc Hb Hnet Hlen.
  assert (Hfuel : (chunk_budget chunks < S (recv_budget (net (env σ))))%nat).
  { rewrite Hnet. pose proof (recv_budget_app chunks rest). lia. }
  assert (Hneed : int_val (_packet_size (self (pinged σ)))
                  <= len (@nil byte) + len (concat chunks)).
  { change (self (pinged σ)) with (self σ). unfold len in *. simpl. lia. }
  destruct (accumulate_data _ chunks [] (pinged σ) rest Hc Hb Hnet Hneed Hfuel)
    as (pre & chunks' & E & Hcat & Hps & _).
  cbn [app] in E, Hps. change (self (pinged σ)) with (self σ) in Hps.
  assert (Hpre : pre = concat chunks).
  { apply (f_equal length) in Hcat as Hl. rewrite length_app in Hl.
    unfold len in *.
    assert (length (concat chunks') = 0%nat) as Hz by lia.
    apply length_zero_iff_nil in Hz. by rewrite Hz, app_nil_r in Hcat. }
  subst pre.
  unfold get_frame, mbind, M_bind, bind.
  rewrite (get_packet_unfold σ Hc), E.
  cbn [self with_net]. change (self (pinged σ)) with (self σ).
  rewrite slice_to_short by lia.
  apply process_packet_depends; reflexivity.
Qed.

Lemma get_frame_decodes_concatenation_witness :
  fst (get_frame trickle) = fst (_process_packet (concat bytewise) trickle).
Proof.
  apply (get_frame_decodes_concatenation trickle bytewise []);
    vm_compute; reflexivity.
Defined.

(** X21.  A timeout in the middle of a packet does not give a truncated
    frame: with the geometry of an [h x w] frame, when fewer than
    [12 + 8 * h * w] bytes arrive before a receive timeout, [get_frame]
    raises [ValueError] or [IndexError], and the bytes received are
    gone from the queue. *)
Theorem get_frame_short_read σ (chunks : list bytes) tail e tail' (h w : Z) :
  connected σ →
  0 < _buffer_size (self σ) →
  _geometry (self σ) = Some (geometry_of (numpy (env σ)) h w) →
  _packet_size (self σ)
    = packet_size_of (numpy (env σ)) (geometry_of (numpy (env σ)) h w) →
  0 < h → 0 < w → fits (numpy (env σ)) h w →
  net (env σ) = (Data <$> chunks) ++ tail →
  recv_queue (_buffer_size (self σ)) (timeout (_tcp_socket (self σ))) tail
    = (Raises e, tail') →
  isinstance e SocketTimeout = true →
  len (concat chunks) < 12 + 8 * (h * w) →
  ∃ e', get_frame σ = (Raises e', with_net tail' (pinged σ))
        ∧ (e' = mk_exn ValueError None ∨ e' = mk_exn IndexError None).
Proof.
  intros Hc Hb Hg Hps Hh Hw Hfit Hnet Ht He Hlen.
  destruct (geometry_of_fits _ h w Hh Hw Hfit) as (_ & _ & _ & Hsize).
  cbn zeta in Hsize. rewrite <- Hps in Hsize.
  unfold get_frame, mbind, M_bind, bind.
  rewrite (get_packet_timeout σ chunks tail e tail' Hc Hb Hnet Ht He ltac:(lia)).
  set (σ2 := with_net tail' (pinged σ)).
  assert (Hg2 : _geometry (self σ2) = Some (geometry_of (numpy (env σ2)) h w)) by exact Hg.
  pose proof (process_packet_state (concat chunks) σ2) as Hst.
  pose proof (process_packet_outcome (concat chunks) σ2 _ Hg2) as Hout.
  destruct (_process_packet (concat chunks) σ2) as [[f|e'|] σ3] eqn:E;
    cbn [fst snd] in Hst, Hout; subst σ3; [|by exists e'|done].
  apply (process_packet_size (concat chunks) σ2 h w f σ2 Hg2 Hh Hw Hfit) in E. lia.
Qed.

Lemma get_frame_short_read_witness :
  ∃ e', get_frame timed_out = (Raises e', with_net [] (pinged timed_out))
        ∧ (e' = mk_exn ValueError None ∨ e' = mk_exn IndexError None).
Proof.
  apply (get_frame_short_read timed_out [take 40 example_packet] [Silence]
           (mk_exn SocketTimeout None) [] 2 2);
    vm_compute; reflexivity.
Defined.

(** X22.  [get_frame] never touches the object: whatever arrives and
    however the call ends, every attribute is afterwards as before, and so
    are the files.  On a connected socket it sends exactly one trigger; on
    a socket that is not connected (before [start], after [stop]) it
    raises [OSError] and does nothing. *)
Theorem get_frame_footprint σ :
  self (snd (get_frame σ)) = self σ
  ∧ files (env (snd (get_frame σ))) = files (env σ)
  ∧ (connected σ → trace (env (snd (get_frame σ))) = ESend ping :: trace (env σ))
  ∧ (¬ connected σ → get_frame σ = (Raises (mk_exn OSError None), σ)).
Proof.
  assert (Hn : ¬ connected σ → get_frame σ = (Raises (mk_exn OSError None), σ)).
  { intros Hn. unfold get_frame, mbind, M_bind, bind.
    by rewrite (get_packet_unconnected σ Hn). }
  assert (Hc : connected σ →
            ∃ q, snd (get_frame σ) = with_net q (pinged σ)).
  { intros Hc. unfold get_frame, mbind, M_bind, bind.
    destruct (_get_packet σ) as [[packet|e|] σ1] eqn:E;
      apply (get_packet_frame σ _ _ Hc) in E; cbn [snd]; eauto.
    rewrite process_packet_state. eauto. }
  destruct (status (_tcp_socket (self σ))) eqn:Hs.
  1, 3: assert (¬ connected σ) as Hx by (unfold connected; by rewrite Hs);
        rewrite (Hn Hx); cbn [snd]; repeat split; done.
  destruct (Hc Hs) as [q ->]. repeat split. intros Hx. by destruct Hx.
Qed.

(** ** The calibration store: construction in every case *)

Local Opaque f64_of_Z.

(** One step of the factory reader, whatever its outcome. *)
Ltac factory_step :=
  cbn beta iota;
  match goal with
  | H : ∀ σ2, line_float ?rt ?ls ?i σ2 = _ |- context [line_float ?rt ?ls ?i ?σ] =>
      rewrite (H σ)
  | |- context [line_float ?rt ?ls ?i ?σ] =>
      let E := fresh "E" in
      destruct (line_float rt ls i σ) as [[?|?|] ?] eqn:E;
      apply line_float_inv in E as [-> E]
  end.

(** The factory reader changes nothing, and its outcome depends on the
    files and on the resolution only. *)
Lemma factory_inv rt σ r σ1 :
  _get_factory_intrinsics_distortion rt σ = (r, σ1) →
  σ1 = σ
  ∧ ∀ σ2, files (env σ2) = files (env σ) →
          resolution (self σ2) = resolution (self σ) →
          _get_factory_intrinsics_distortion rt σ2 = (r, σ2).
Proof.
  unfold _get_factory_intrinsics_distortion, mbind, M_bind, bind, get_self.
  cbn beta iota.
  destruct (read_file (factory_file rt) σ) as [[content|e|] σa] eqn:Hf;
    apply read_file_inv in Hf as [-> Hf].
  2, 3: intros [= <- <-]; (split; [done|]); intros σ2 E R; by rewrite (Hf σ2 E).
  repeat factory_step;
    cbn beta iota; unfold mret, M_ret, ret;
    intros [= <- <-]; (split; [done|]); intros σ2 Ef Er; rewrite (Hf σ2 Ef);
    repeat (cbn beta iota;
            match goal with
            | H : ∀ σ2, line_float ?rt ?ls ?i σ2 = _
              |- context [line_float ?rt ?ls ?i ?s] => rewrite (H s)
            end);
    cbn beta iota; by rewrite ?Er.
Qed.

Lemma read_file_outcome path σ :
  match fst (read_file path σ) with
  | Returns content => files (env σ) !! path = Some content
  | Raises e => e = mk_exn FileNotFoundError None ∧ files (env σ) !! path = None
  | Hangs => False
  end.
Proof. unfold read_file. run_monad. by destruct (files (env σ) !! path). Qed.

Lemma line_float_outcome rt lines i σ :
  match fst (line_float rt lines i σ) with
  | Returns x => ∃ l, lines !! i = Some l ∧ py_float rt l = Some x
  | Raises e => (e = mk_exn IndexError None ∧ lines !! i = None)
                ∨ (e = mk_exn ValueError None ∧ is_Some (lines !! i))
  | Hangs => False
  end.
Proof.
  unfold line_float. destruct (lines !! i) as [l|]; [|by left].
  destruct (py_float rt l) eqn:E; cbn [fst ret raise]; [by exists l|right; eauto].
Qed.

(** The factory reader ends, and raises what reading a file or parsing a
    number raises. *)
Lemma factory_outcome rt σ :
  match fst (_get_factory_intrinsics_distortion rt σ) with
  | Returns _ => True
  | Raises e => e = mk_exn FileNotFoundError None
                ∨ e = mk_exn IndexError None ∨ e = mk_exn ValueError None
  | Hangs => False
  end.
Proof.
  unfold _get_factory_intrinsics_distortion, mbind, M_bind, bind, get_self.
  cbn beta iota.
  pose proof (read_file_outcome (factory_file rt) σ) as Hf.
  destruct (read_file (factory_file rt) σ) as [[content|e|] σa]; cbn [fst] in Hf |- *;
    [|destruct Hf as [-> _]; by left|done].
  repeat (cbn beta iota;
          match goal with
          | |- context [line_float ?rt ?ls ?i ?s] =>
              let H := fresh "H" in
              pose proof (line_float_outcome rt ls i s) as H;
              destruct (line_float rt ls i s) as [[?|?|] ?]; cbn [fst] in H |- *
          end);
    try done; try (destruct_or?; destruct_and?; subst; auto).
Qed.

(** What the factory reader read when it returns. *)
Lemma factory_returns_lines rt σ m d σ1 :
  _get_factory_intrinsics_distortion rt σ = (Returns (m, d), σ1) →
  ∃ content fx cx cy k1 k2 p1 p2 k3,
    files (env σ) !! factory_file rt = Some content
    ∧ (let lines := strip_newlines <$> readlines content in
       let value (i : nat) := lines !! i ≫= py_float rt in
       value 2%nat = Some fx ∧ value 4%nat = Some cx ∧ value 7%nat = Some cy
       ∧ value 15%nat = Some k1 ∧ value 16%nat = Some k2 ∧ value 17%nat = Some p1
       ∧ value 18%nat = Some p2 ∧ value 19%nat = Some k3)
    ∧ (let base := [[fx; f64_of_Z 0; cx];
                    [f64_of_Z 0; fx; cy];
                    [f64_of_Z 0; f64_of_Z 0; f64_of_Z 1]] in
       m = Matrix (if String.eqb (resolution (self σ)) "low"
                   then matrix_set 2 2 (f64_of_Z 1) (matrix_div base (f64_of_Z 2))
                   else base))
    ∧ d = Vector [k1; k2; p1; p2; k3].
Proof.
  unfold _get_factory_intrinsics_distortion, mbind, M_bind, bind, get_self.
  cbn beta iota.
  pose proof (read_file_outcome (factory_file rt) σ) as Hf.
  destruct (read_file (factory_file rt) σ) as [[content|e|] σa] eqn:Ef;
    cbn [fst] in Hf; [|done|done].
  apply read_file_inv in Ef as [-> _].
  repeat (cbn beta iota;
          match goal with
          | H : ∀ σ2, line_float ?rt ?ls ?i σ2 = _ |- context [line_float ?rt ?ls ?i ?s] =>
              rewrite (H s)
          | |- context [line_float ?rt ?ls ?i ?s] =>
              let H := fresh "H" in
              let E := fresh "E" in
              pose proof (line_float_outcome rt ls i s) as H;
              destruct (line_float rt ls i s) as [[?|?|] ?] eqn:E; cbn [fst] in H;
              [apply line_float_inv in E as [-> E]|done|done]
          end).
  cbn beta iota. unfold mret, M_ret, ret. intros [= <- <- <-].
  repeat match goal with
         | H : ∃ l, _ !! _ = Some l ∧ _ |- _ =>
             let l := fresh "l" in
             let H1 := fresh "L" in
             let H2 := fresh "P" in
             destruct H as (l & H1 & H2)
         end.
  eexists content, _, _, _, _, _, _, _, _.
  split; [exact Hf|]. cbn zeta.
  repeat match goal with H : _ !! _ = Some _ |- _ => rewrite H; clear H end.
  cbn [mbind option_bind]. by repeat split.
Qed.

Lemma f64_zero_halved : f64_div (f64_of_Z 0) (f64_of_Z 2) = f64_of_Z 0.
Proof. vm_compute. reflexivity. Qed.

(** X23.  The factory intrinsics have one focal length: whatever the file
    and the resolution, the matrix returned is 3 x 3 with the same number,
    read from the third line of the file, at [(0, 0)] and at [(1, 1)],
    zero skew and last row [(0, 0, 1)]; the distortion has five
    coefficients. *)
Theorem factory_intrinsics_shape rt σ m d σ1 :
  _get_factory_intrinsics_distortion rt σ = (Returns (m, d), σ1) →
  ∃ f cx cy ks,
    m = Matrix [[f; f64_of_Z 0; cx];
                [f64_of_Z 0; f; cy];
                [f64_of_Z 0; f64_of_Z 0; f64_of_Z 1]]
    ∧ d = Vector ks ∧ length ks = 5%nat.
Proof.
  intros H.
  destruct (factory_returns_lines rt σ m d σ1 H)
    as (content & fx & cx & cy & k1 & k2 & p1 & p2 & k3 & _ & _ & Hm & ->).
  cbn zeta in Hm. subst m.
  destruct (String.eqb (resolution (self σ)) "low").
  - exists (f64_div fx (f64_of_Z 2)), (f64_div cx (f64_of_Z 2)),
      (f64_div cy (f64_of_Z 2)), [k1; k2; p1; p2; k3].
    split; [|by split]. unfold matrix_set, matrix_div.
    cbn [fmap list_fmap alter list_alter insert list_insert].
    by rewrite f64_zero_halved.
  - by exists fx, cx, cy, [k1; k2; p1; p2; k3].
Qed.

(** X24.  The resolution matters through one test only: every resolution
    other than the string [low] (a different spelling included) gives the
    full-resolution matrix, the same for all of them. *)
Theorem factory_resolution_only_low rt σ1 σ2 :
  files (env σ1) = files (env σ2) →
  String.eqb (resolution (self σ1)) "low" = false →
  String.eqb (resolution (self σ2)) "low" = false →
  fst (_get_factory_intrinsics_distortion rt σ1)
  = fst (_get_factory_intrinsics_distortion rt σ2).
Proof.
  intros Hf H1 H2.
  unfold _get_factory_intrinsics_distortion, mbind, M_bind, bind, get_self.
  cbn beta iota. rewrite H1, H2.
  destruct (read_file (factory_file rt) σ1) as [[content|e|] σa] eqn:Ef;
    apply read_file_inv in Ef as [-> Ef]; rewrite (Ef σ2 (eq_sym Hf)); [|done|done].
  repeat (cbn beta iota;
          match goal with
          | H : ∀ σ2, line_float ?rt ?ls ?i σ2 = _ |- context [line_float ?rt ?ls ?i ?s] =>
              rewrite (H s)
          | |- context [line_float ?rt ?ls ?i σ1] =>
              let E := fresh "E" in
              destruct (line_float rt ls i σ1) as [[?|?|] ?] eqn:E;
              apply line_float_inv in E as [-> E]
          end);
    done.
Qed.

Lemma factory_resolution_only_low_witness :
  fst (_get_factory_intrinsics_distortion example_runtime
         (mk_state (new_sensor "192.168.1.3" 1024 "high" None) calib_world))
  = fst (_get_factory_intrinsics_distortion example_runtime
           (mk_state (new_sensor "192.168.1.3" 1024 "Low" None) calib_world)).
Proof.
  apply (factory_resolution_only_low example_runtime
           (mk_state (new_sensor "192.168.1.3" 1024 "high" None) calib_world)
           (mk_state (new_sensor "192.168.1.3" 1024 "Low" None) calib_world));
    reflexivity.
Defined.

Lemma factory_missing rt σ :
  files (env σ) !! factory_file rt = None →
  _get_factory_intrinsics_distortion rt σ = (Raises (mk_exn FileNotFoundError None), σ).
Proof.
  intros H. unfold _get_factory_intrinsics_distortion, read_file. run_monad.
  by rewrite H.
Qed.

(** X25.  What the factory reader needs: without the packaged file it
    raises [FileNotFoundError]; with a file of fewer than twenty lines it
    raises [IndexError], or [ValueError] if a line it reads first is not a
    number; and in no case does it change anything. *)
Theorem factory_file_requirements rt σ :
  snd (_get_factory_intrinsics_distortion rt σ) = σ
  ∧ (files (env σ) !! factory_file rt = None →
       fst (_get_factory_intrinsics_distortion rt σ)
       = Raises (mk_exn FileNotFoundError None))
  ∧ (∀ content,
       files (env σ) !! factory_file rt = Some content →
       (length (readlines content) < 20)%nat →
       fst (_get_factory_intrinsics_distortion rt σ) = Raises (mk_exn IndexError None)
       ∨ fst (_get_factory_intrinsics_distortion rt σ) = Raises (mk_exn ValueError None)).
Proof.
  split; [|split].
  - destruct (_get_factory_intrinsics_distortion rt σ) as [r σ1] eqn:E.
    by apply factory_inv in E as [-> _].
  - intros H. by rewrite factory_missing.
  - intros content Hc Hshort.
    pose proof (factory_outcome rt σ) as Hout.
    destruct (_get_factory_intrinsics_distortion rt σ) as [[[m d]|e|] σ1] eqn:E;
      cbn [fst] in Hout |- *; [|clear Hshort|done].
    + exfalso.
      destruct (factory_returns_lines rt σ m d σ1 E)
        as (content' & fx & cx & cy & k1 & k2 & p1 & p2 & k3 & Hc' & Hv & _).
      rewrite Hc in Hc'. injection Hc' as <-. cbn zeta in Hv.
      destruct Hv as (_ & _ & _ & _ & _ & _ & _ & Hv).
      destruct ((strip_newlines <$> readlines content) !! 19%nat) as [l|] eqn:Hl;
        [|done].
      apply lookup_lt_Some in Hl. rewrite length_fmap in Hl. lia.
    + destruct Hout as [-> | [-> | ->]]; auto. exfalso.
      revert E. unfold _get_factory_intrinsics_distortion, read_file. run_monad.
      rewrite Hc. run_monad.
      repeat (cbn beta iota;
              match goal with
              | |- context [line_float ?rt ?ls ?i ?s] =>
                  let H := fresh "H" in
                  pose proof (line_float_outcome rt ls i s) as H;
                  destruct (line_float rt ls i s) as [[?|?|] ?]; cbn [fst] in H
              end);
        try done; intros [= ?]; subst; by destruct_or?; destruct_and?.
Qed.

Lemma set_default_params_unfold rt σ :
  _set_default_params rt σ =
    match fst (_get_factory_intrinsics_distortion rt σ) with
    | Returns (intr, dist) =>
        (Returns (),
         mk_state (set_extr (Matrix [replicate 6 (f64_of_Z 0)])
                     (set_dist dist (set_intr intr (self σ)))) (env σ))
    | Raises e => (Raises e, σ)
    | Hangs => (Hangs, σ)
    end.
Proof.
  destruct (_get_factory_intrinsics_distortion rt σ) as [r σ1] eqn:E.
  destruct (factory_inv rt σ r σ1 E) as [-> _].
  unfold _set_default_params. run_monad. rewrite E.
  by destruct r as [[i d]|e|].
Qed.

(** The [try] body sets the three calibration attributes and nothing
    else; when it returns, it has set all three. *)
Lemma load_calibration_inv rt path σ r σb :
  load_calibration rt path σ = (r, σb) →
  env σb = env σ
  ∧ (∀ i d x, set_extr x (set_dist d (set_intr i (self σb)))
              = set_extr x (set_dist d (set_intr i (self σ))))
  ∧ match r with
    | Returns _ => is_Some (_intr (self σb)) ∧ is_Some (_dist (self σb))
                   ∧ is_Some (_extr (self σb))
    | Raises _ => True
    | Hangs => False
    end.
Proof.
  unfold load_calibration, read_file, np_array, getitem, getindex. run_monad. intros H.
  repeat (case_match; simplify_eq); cbn; done.
Qed.

(** [_init_params] in every case. *)
Lemma init_params_inv rt σ r σ' :
  _init_params rt σ = (r, σ') →
  files (env σ') = files (env σ)
  ∧ (∀ i d x, set_extr x (set_dist d (set_intr i (self σ')))
              = set_extr x (set_dist d (set_intr i (self σ))))
  ∧ match r with
    | Returns _ => is_Some (_intr (self σ')) ∧ is_Some (_dist (self σ'))
                   ∧ is_Some (_extr (self σ'))
    | Raises e => e = mk_exn FileNotFoundError None
                  ∨ e = mk_exn IndexError None ∨ e = mk_exn ValueError None
    | Hangs => False
    end.
Proof.
  assert (Hdef : ∀ σ0 r0 σ1, _set_default_params rt σ0 = (r0, σ1) →
    env σ1 = env σ0
    ∧ (∀ i d x, set_extr x (set_dist d (set_intr i (self σ1)))
                = set_extr x (set_dist d (set_intr i (self σ0))))
    ∧ match r0 with
      | Returns _ => is_Some (_intr (self σ1)) ∧ is_Some (_dist (self σ1))
                     ∧ is_Some (_extr (self σ1))
      | Raises e => e = mk_exn FileNotFoundError None
                    ∨ e = mk_exn IndexError None ∨ e = mk_exn ValueError None
      | Hangs => False
      end).
  { intros σ0 r0 σ1. rewrite set_default_params_unfold.
    pose proof (factory_outcome rt σ0) as Hout.
    destruct (fst (_get_factory_intrinsics_distortion rt σ0)) as [[i d]|e|];
      intros [= <- <-]; cbn; by eauto. }
  destruct (calib_file (self σ)) as [path|] eqn:Hcf.
  - rewrite (init_params_with_file rt σ path Hcf). unfold try_except.
    destruct (load_calibration rt path σ) as [[[]|e|] σb] eqn:Hbody;
      pose proof (load_calibration_inv rt path σ _ σb Hbody) as (Henv & Hfr & Hr).
    + intros [= <- <-]. by rewrite Henv.
    + rewrite isinstance_BaseException. intros H.
      apply Hdef in H as (Henv' & Hfr' & Hr').
      rewrite Henv', Henv. split; [done|]. split; [|done].
      intros i d x. by rewrite Hfr', Hfr.
    + done.
  - rewrite (init_params_without_file rt σ Hcf). intros H.
    apply Hdef in H as (Henv' & Hfr' & Hr'). rewrite Henv'. by cbn.
Qed.

(** X26.  What a constructed sensor is.  When construction returns, the
    object is not started, holds the arguments it was given, a buffer
    size of 4096 and the provisional packet size of 26 MiB, a new socket
    in blocking mode and no geometry, and its three calibration properties
    are all set.  Construction raises only what reading the packaged
    factory file raises ([FileNotFoundError], [IndexError], [ValueError]),
    never blocks, and leaves the files alone. *)
Theorem init_postcondition rt ip port res cf w :
  files (snd (__init__ rt ip port res cf w)) = files w
  ∧ match fst (__init__ rt ip port res cf w) with
    | Returns s =>
        _is_start s = false
        ∧ (resolution s, calib_file s, _tcp_ip s, _tcp_port s) = (res, cf, ip, port)
        ∧ _buffer_size s = 4096
        ∧ _packet_size s = PyInt 27262976
        ∧ _tcp_socket s = mk_socket SockNew None
        ∧ _geometry s = None
        ∧ is_Some (intrinsics s) ∧ is_Some (distortion s) ∧ is_Some (extrinsics s)
    | Raises e => e = mk_exn FileNotFoundError None
                  ∨ e = mk_exn IndexError None ∨ e = mk_exn ValueError None
    | Hangs => False
    end.
Proof.
  unfold __init__.
  destruct (_init_params rt (mk_state (new_sensor ip port res cf) w)) as [r σ'] eqn:E.
  apply init_params_inv in E as (Hf & Hfr & Hr). cbn [self env] in Hf, Hfr.
  destruct r as [[]|e|]; cbn [fst snd]; (split; [exact Hf|]); [|exact Hr|exact Hr].
  specialize (Hfr (Vector []) (Vector []) (Vector [])).
  unfold intrinsics, distortion, extrinsics.
  destruct (self σ') as [a b c d e f g h i j k l].
  cbn in Hfr, Hr |- *. injection Hfr as -> -> -> -> -> -> -> -> ->.
  destruct Hr as (Hi & Hd & Hx). by repeat (split; [reflexivity|]).
Qed.

(** X27.  A calibration file that holds the three keys is what the sensor
    uses, and the packaged factory file is not even read: the intrinsics
    are the matrix built from items 0, 2 (first row) and 1, 3 (second row)
    of [intrinsics], the distortion and the extrinsics are the values of
    their keys wrapped in one more dimension, and construction returns in
    an unchanged world. *)
Theorem init_reads_calibration rt ip port res path w content fields
    (k d x fx fy cx cy : json) :
  files w !! path = Some content →
  json_loads rt content = Some (JObj fields) →
  fields !! "intrinsics" = Some k →
  fields !! "distortion" = Some d →
  fields !! "extrinsics" = Some x →
  getindex k 0 = Returns fx → getindex k 1 = Returns fy →
  getindex k 2 = Returns cx → getindex k 3 = Returns cy →
  np_array_accepts rt (JArr [JArr [fx; JInt 0; cx];
                             JArr [JInt 0; fy; cy];
                             JArr [JInt 0; JInt 0; JInt 1]]) = true →
  np_array_accepts rt (JArr [d]) = true →
  np_array_accepts rt (JArr [x]) = true →
  ∃ s, __init__ rt ip port res (Some path) w = (Returns s, w)
       ∧ intrinsics s = Some (ArrayOf (JArr [JArr [fx; JInt 0; cx];
                                             JArr [JInt 0; fy; cy];
                                             JArr [JInt 0; JInt 0; JInt 1]]))
       ∧ distortion s = Some (ArrayOf (JArr [d]))
       ∧ extrinsics s = Some (ArrayOf (JArr [x])).
Proof.
  intros Hfile Hparse Hk Hd Hx H0 H1 H2 H3 Ai Ad Ax.
  unfold __init__.
  rewrite (init_params_with_file rt
             (mk_state (new_sensor ip port res (Some path)) w) path eq_refl).
  unfold try_except, load_calibration, read_file, np_array. run_monad.
  cbn [env self]. rewrite Hfile. run_monad. rewrite Hparse. run_monad.
  unfold getitem. rewrite Hk, Hd, Hx. cbn beta iota.
  rewrite H0, H1, H2, H3. cbn beta iota.
  rewrite Ai. run_monad. rewrite Ad. run_monad. rewrite Ax. run_monad.
  eexists. by repeat split.
Qed.

(** X28.  Without the packaged factory file a sensor can be constructed
    only from a usable calibration file: with no calibration file, or with
    one that is missing, does not parse or lacks a key, construction
    raises [FileNotFoundError]. *)
Theorem init_needs_factory_file rt ip port res cf w :
  files w !! factory_file rt = None →
  match cf with
  | Some path => calibration_unusable rt w path
  | None => True
  end →
  fst (__init__ rt ip port res cf w) = Raises (mk_exn FileNotFoundError None).
Proof.
  intros Hmiss Hcf. unfold __init__.
  assert (Hdef : ∀ σ0, files (env σ0) = files w →
            _set_default_params rt σ0 = (Raises (mk_exn FileNotFoundError None), σ0)).
  { intros σ0 E. rewrite set_default_params_unfold, factory_missing; [done|].
    by rewrite E. }
  destruct cf as [path|].
  - set (σ := mk_state (new_sensor ip port res (Some path)) w).
    rewrite (init_params_with_file rt σ path eq_refl). unfold try_except.
    destruct (load_calibration rt path σ) as [r σb] eqn:Hbody.
    destruct (load_calibration_unusable rt path σ r σb Hcf Hbody) as [e ->].
    destruct (load_calibration_stable rt path σ _ σb Hbody) as [Henv _].
    rewrite isinstance_BaseException, Hdef; [done|by rewrite Henv].
  - rewrite (init_params_without_file rt
               (mk_state (new_sensor ip port res None) w) eq_refl), Hdef; done.
Qed.

Local Transparent f64_of_Z.

Lemma factory_intrinsics_shape_witness :
  ∃ f cx cy ks,
    Matrix factory_low = Matrix [[f; f64_of_Z 0; cx];
                                 [f64_of_Z 0; f; cy];
                                 [f64_of_Z 0; f64_of_Z 0; f64_of_Z 1]]
    ∧ factory_dist = Vector ks ∧ length ks = 5%nat.
Proof.
  apply (factory_intrinsics_shape example_runtime
           (mk_state (new_sensor "192.168.1.3" 1024 "low" None) calib_world)
           (Matrix factory_low) factory_dist
           (mk_state (new_sensor "192.168.1.3" 1024 "low" None) calib_world)).
  vm_compute. reflexivity.
Defined.

Lemma init_reads_calibration_witness :
  ∃ s, __init__ calibrated_runtime "192.168.1.3" 1024 "low" (Some "calib.json")
         calibrated_world = (Returns s, calibrated_world)
       ∧ intrinsics s = Some (ArrayOf (JArr [JArr [JInt 2240; JInt 0; JInt 1030];
                                             JArr [JInt 0; JInt 2250; JInt 770];
                                             JArr [JInt 0; JInt 0; JInt 1]]))
       ∧ distortion s
         = Some (ArrayOf (JArr [JArr [JInt 1; JInt 2; JInt 3; JInt 4; JInt 5]]))
       ∧ extrinsics s
         = Some (ArrayOf (JArr [JArr [JInt 0; JInt 0; JInt 0; JInt 0; JInt 0; JInt 1]])).
Proof.
  apply (init_reads_calibration calibrated_runtime "192.168.1.3" 1024 "low"
           "calib.json" calibrated_world "calibration"
           {[ "intrinsics" := JArr [JInt 2240; JInt 2250; JInt 1030; JInt 770];
              "distortion" := JArr [JInt 1; JInt 2; JInt 3; JInt 4; JInt 5];
              "extrinsics" := JArr [JInt 0; JInt 0; JInt 0; JInt 0; JInt 0; JInt 1] ]}
           (JArr [JInt 2240; JInt 2250; JInt 1030; JInt 770]));
    vm_compute; reflexivity.
Defined.

Lemma init_needs_factory_file_witness :
  fst (__init__ example_runtime "192.168.1.3" 1024 "low" None bare_world)
  = Raises (mk_exn FileNotFoundError None).
Proof.
  apply (init_needs_factory_file example_runtime "192.168.1.3" 1024 "low" None
           bare_world); [reflexivity|exact I].
Defined.

(** ** Reading the lines of the factory file *)

Lemma append_empty (s : string) : EmptyString +:+ s = s.
Proof. reflexivity. Qed.
Lemma append_String c (l s : string) : String c l +:+ s = String c (l +:+ s).
Proof. reflexivity. Qed.

Lemma readlines_line l rest :
  has_newline l = false →
  readlines (l +:+ String newline rest) = (l +:+ String newline EmptyString) :: readlines rest.
Proof.
  induction l as [|c l IH]; intros H.
  - rewrite !append_empty. cbn [readlines]. by rewrite Ascii.eqb_refl.
  - cbn [has_newline] in H. apply orb_false_elim in H as [Hc Hl].
    rewrite !append_String. cbn [readlines]. by rewrite Hc, (IH Hl).
Qed.

Lemma rstrip_line l :
  has_newline l = false → rstrip_newlines (l +:+ String newline EmptyString) = l.
Proof.
  induction l as [|c l IH]; intros H.
  - rewrite append_empty. cbn [rstrip_newlines]. by rewrite Ascii.eqb_refl.
  - cbn [has_newline] in H. apply orb_false_elim in H as [Hc Hl].
    rewrite append_String. cbn [rstrip_newlines]. rewrite (IH Hl), Hc. by destruct l.
Qed.

Lemma strip_line l :
  has_newline l = false → strip_newlines (l +:+ String newline EmptyString) = l.
Proof.
  intros H. unfold strip_newlines. destruct l as [|c l].
  - rewrite append_empty. cbn [lstrip_newlines rstrip_newlines].
    by rewrite Ascii.eqb_refl.
  - cbn [has_newline] in H. apply orb_false_elim in H as [Hc Hl].
    rewrite append_String. cbn [lstrip_newlines]. rewrite Hc.
    rewrite <- append_String.
    apply (rstrip_line (String c l)). cbn [has_newline]. by rewrite Hc, Hl.
Qed.

(** X29.  The list the factory reader indexes is the list of the lines of
    the file: for a text made of lines, each followed by a line
    terminator, [readlines] and the stripping of the terminators give
    those lines back, so that [lines[i]] is line [i + 1] of the file. *)
Theorem readlines_recovers_lines (ls : list string) :
  forallb (λ l, negb (has_newline l)) ls = true →
  strip_newlines <$> readlines (unlines ls) = ls.
Proof.
  induction ls as [|l ls IH]; intros H; [done|].
  cbn [forallb] in H. apply andb_prop in H as [Hl Hls].
  apply negb_true_iff in Hl.
  cbn [unlines foldr]. rewrite (readlines_line l _ Hl).
  cbn [fmap list_fmap]. rewrite (strip_line l Hl). f_equal. by apply IH.
Qed.

Lemma readlines_recovers_lines_witness :
  strip_newlines <$> readlines (unlines ["#"; ""; "2244"]) = ["#"; ""; "2244"].
Proof.
  apply (readlines_recovers_lines ["#"; ""; "2244"]). reflexivity.
Defined.
